(** * DOSBox Staging: MIDI byte-stream router and Disney Sound Source

    A shallow embedding of [src/midi/midi.cpp] (the per-slot MIDI parser,
    the sysex pacing policy and the backend selection of the [MIDI]
    module) and of [src/hardware/disney.cpp] (the FIFO DAC), with the
    properties the specification states about them. *)

From Stdlib Require Import ZArith QArith Qround Lqa Lia List Bool String Ascii.
From Stdlib Require Import PrimFloat.
From Stdlib Require FloatOps Uint63.
From stdpp Require Import base option list.
Import ListNotations.

Local Open Scope Z_scope.

(** ** Arrays

    C arrays are lists; [arr_set] is the assignment [a[i] = v] and fails
    (undefined behaviour in the source) when [i] does not designate an
    element of the array. [rd] is a read at an index that is a constant
    below the declared size of the array. *)

Definition arr_set {A} (a : list A) (i : Z) (v : A) : option (list A) :=
  if 0 <=? i then
    match a !! Z.to_nat i with
    | Some _ => Some (<[Z.to_nat i := v]> a)
    | None => None
    end
  else None.

Definition rd (a : list Z) (i : nat) : Z := nth i a 0.

Module Midi.

(** ** Constants and the status-to-length table (midi.h, midi.cpp) *)

Definition MIDI_SYSEX_SIZE : Z := 8192.
Definition MIDI_DEVS : nat := 4.

Definition MIDI_evt_len_table : list Z :=
  [ 0;0;0;0; 0;0;0;0; 0;0;0;0; 0;0;0;0;   (* 0x00 *)
    0;0;0;0; 0;0;0;0; 0;0;0;0; 0;0;0;0;   (* 0x10 *)
    0;0;0;0; 0;0;0;0; 0;0;0;0; 0;0;0;0;   (* 0x20 *)
    0;0;0;0; 0;0;0;0; 0;0;0;0; 0;0;0;0;   (* 0x30 *)
    0;0;0;0; 0;0;0;0; 0;0;0;0; 0;0;0;0;   (* 0x40 *)
    0;0;0;0; 0;0;0;0; 0;0;0;0; 0;0;0;0;   (* 0x50 *)
    0;0;0;0; 0;0;0;0; 0;0;0;0; 0;0;0;0;   (* 0x60 *)
    0;0;0;0; 0;0;0;0; 0;0;0;0; 0;0;0;0;   (* 0x70 *)

    3;3;3;3; 3;3;3;3; 3;3;3;3; 3;3;3;3;   (* 0x80 *)
    3;3;3;3; 3;3;3;3; 3;3;3;3; 3;3;3;3;   (* 0x90 *)
    3;3;3;3; 3;3;3;3; 3;3;3;3; 3;3;3;3;   (* 0xa0 *)
    3;3;3;3; 3;3;3;3; 3;3;3;3; 3;3;3;3;   (* 0xb0 *)

    2;2;2;2; 2;2;2;2; 2;2;2;2; 2;2;2;2;   (* 0xc0 *)
    2;2;2;2; 2;2;2;2; 2;2;2;2; 2;2;2;2;   (* 0xd0 *)

    3;3;3;3; 3;3;3;3; 3;3;3;3; 3;3;3;3;   (* 0xe0 *)

    0;2;3;2; 0;0;1;0; 1;0;1;1; 1;0;1;0    (* 0xf0 *) ].

Definition MIDI_evt_len (b : Z) : Z := nth (Z.to_nat b) MIDI_evt_len_table 0.

(** ** The outside world

    What the router does to its collaborators is recorded as a trace of
    events. [PlayMsg] and [PlaySysex] are the virtual calls on
    [midi.handler]; [PlayMsg] carries the array its pointer argument
    designates, [PlaySysex] the first [len] bytes of the sysex array and
    [len]. The trace records the call the router makes; which backend
    [midi.handler] points to, and what that backend makes of the call, is
    left to the backend. [LOG] carries the text of the message, without
    the numbers formatted into it. *)

Inductive Event :=
| PlayMsg (msg : list Z)
| PlaySysex (sysex : list Z) (len : Z)
| CAPTURE_AddMidi (sysex : bool) (len : Z) (data : list Z)
| Slept (ms : Z)
| LOG (msg : string).

Record World := mkWorld {
  ticks : Z;                 (* the millisecond clock read by GetTicks() *)
  CaptureState_MIDI : bool;  (* CaptureState & CAPTURE_MIDI *)
  trace : list Event
}.

Definition emit (e : Event) (w : World) : World :=
  mkWorld (ticks w) (CaptureState_MIDI w) (trace w ++ [e]).

(** Modelled from the spec: timer.h is not part of the sources.
    [GetTicks] reads the millisecond clock, [GetTicksSince] is the time
    passed since an earlier reading, and [Delay] blocks the caller for the
    given number of milliseconds (section 4.2, step 1: "block/delay the
    caller until elapsed"). *)
Definition GetTicks (w : World) : Z := ticks w.
Definition GetTicksSince (old_ticks : Z) (w : World) : Z := GetTicks w - old_ticks.
Definition Delay (ms : Z) (w : World) : World :=
  mkWorld (ticks w + ms) (CaptureState_MIDI w) (trace w ++ [Slept ms]).

(** Time passing between two calls of the router. *)
Definition elapse (dt : Z) (w : World) : World :=
  mkWorld (ticks w + dt) (CaptureState_MIDI w) (trace w).

(** [if (CaptureState & CAPTURE_MIDI) { CAPTURE_AddMidi(...); }] *)
Definition when_capturing (e : Event) (w : World) : World :=
  if CaptureState_MIDI w then emit e w else w.

Definition is_dispatch (e : Event) : bool :=
  match e with PlayMsg _ | PlaySysex _ _ => true | _ => false end.

(** The calls that reached the backend, in order. *)
Definition dispatches (w : World) : list Event := List.filter is_dispatch (trace w).

(** ** Backends and the [midi] singleton *)

Record MidiHandler := mkHandler {
  GetName : string;
  Open : string -> World -> bool * World
}.

Record cmd_t := mkCmd {
  cmd_len : Z;
  cmd_pos : Z;
  cmd_buf : list Z            (* Bit8u buf[8] *)
}.

Record sysex_t := mkSysex {
  sysex_buf : list Z;         (* uint8_t buf[MIDI_SYSEX_SIZE] *)
  sysex_used : Z;
  sysex_delay : Z;            (* ms *)
  sysex_start : Z             (* ms *)
}.

Record DB_Midi := mkMidi {
  rt_buf : list Z;            (* uint8_t rt_buf[8] *)
  status : list Z;            (* Bitu status[MIDI_DEVS] *)
  cmd_r : Z;
  cmd : list cmd_t;           (* cmd[MIDI_DEVS] *)
  sysex : list sysex_t;       (* sysex[MIDI_DEVS] *)
  available : bool;
  in_available : bool;
  handler : option MidiHandler;
  in_handler : option MidiHandler;
  realtime : bool;
  inputdev : Z;
  autoinput : bool;
  thruchan : bool;
  clockout : bool
}.

Definition MDEV_MPU : Z := 0.
Definition MDEV_SBUART : Z := 1.
Definition MDEV_GUS : Z := 2.
Definition MDEV_SB16 : Z := 3.
Definition MDEV_NONE : Z := 4.

(** [DB_Midi midi;] is a global: it starts zero-initialised. *)
Definition midi_zero : DB_Midi :=
  mkMidi (replicate 8 0)
         (replicate MIDI_DEVS 0)
         0
         (replicate MIDI_DEVS (mkCmd 0 0 (replicate 8 0)))
         (replicate MIDI_DEVS (mkSysex (replicate (Z.to_nat MIDI_SYSEX_SIZE) 0) 0 0 0))
         false false None None false 0 false false false.

(** The entries of the three per-slot arrays that belong to one slot. *)
Record Slot := mkSlot {
  s_status : Z;
  s_cmd : cmd_t;
  s_sysex : sysex_t
}.

Definition get_slot (slot : Z) (m : DB_Midi) : option Slot :=
  if 0 <=? slot then
    st ← status m !! Z.to_nat slot;
    c ← cmd m !! Z.to_nat slot;
    sx ← sysex m !! Z.to_nat slot;
    Some (mkSlot st c sx)
  else None.

Definition put_slot (slot : Z) (v : Slot) (rt : list Z) (m : DB_Midi) : DB_Midi :=
  mkMidi rt
         (<[Z.to_nat slot := s_status v]> (status m))
         (cmd_r m)
         (<[Z.to_nat slot := s_cmd v]> (cmd m))
         (<[Z.to_nat slot := s_sysex v]> (sysex m))
         (available m) (in_available m) (handler m) (in_handler m)
         (realtime m) (inputdev m) (autoinput m) (thruchan m) (clockout m).

(** ** Sysex pacing (section 4.3) *)

(** The conversions of [delay_in_ms], on binary64 numbers. [size_t] to
    [double] is exact below 2^53. [static_cast<int>] discards the
    fraction; the source leaves it undefined on NaN, on infinities and
    outside the range of [int], and so does this function.
    [frshiftexp a = (m, e)] splits [a] as [m * 2^(e - shift)] with
    [1/2 <= m < 1], and [normfr_mantissa m] is the integer [m * 2^53]. *)
Definition double_of_size_t (n : Z) : float := of_uint63 (Uint63.of_Z n).

Definition double_to_int (f : float) : Z :=
  let a := abs f in
  if ltb a 1%float then 0
  else
    let (m, e) := frshiftexp a in
    let mant := Uint63.to_Z (normfr_mantissa m) in
    let k := Uint63.to_Z e - FloatOps.shift - 53 in
    let v := if k <? 0 then Z.shiftr mant (- k) else Z.shiftl mant k in
    if ltb f 0%float then - v else v.

Definition delay_in_ms (sysex_bytes_num : Z) : Z :=
  let midi_baud_rate := 3.125%float in (* bytes per ms *)
  let delay := div (mul (double_of_size_t sysex_bytes_num) 1.25%float) midi_baud_rate in
  double_to_int delay + 2.

(** Lines 438-442: wait out what is left of the slot's pacing delay. *)
Definition pace (sx : sysex_t) (w : World) : World :=
  if sysex_start sx =? 0 then w
  else
    let passed_ticks := GetTicksSince (sysex_start sx) w in
    if passed_ticks <? sysex_delay sx
    then Delay (sysex_delay sx - passed_ticks) w
    else w.

(** ** [MIDI_RawOutByte(data, slot)]

    The body reads and writes [midi.status[slot]], [midi.cmd[slot]] and
    [midi.sysex[slot]] only, and [midi.rt_buf]; it is written here on the
    slot's entries, which [MIDI_RawOutByte] loads and stores back.

    The increments [used++] and [pos++] follow a write at the old index,
    which has to be inside the array, so they cannot wrap around. *)

(** Lines 445-449: a realtime byte. *)
Definition realtime_byte (data : Z) (rt : list Z) (w : World) : option (list Z * World) :=
  rt' ← arr_set rt 0 data;
  Some (rt', emit (PlayMsg rt') w).

Definition bit7 (data : Z) : bool := negb (Z.land data 0x80 =? 0).

(** The test of line 459. *)
Definition short_mt32 (sx : sysex_t) : bool :=
  negb (sysex_start sx =? 0)
  && (4 <=? sysex_used sx) && (sysex_used sx <=? 9)
  && (rd (sysex_buf sx) 1 =? 0x41) && (rd (sysex_buf sx) 3 =? 0x16).

(** Lines 465-473: the delay a sysex that was just played asks for. *)
Definition next_delay (sx : sysex_t) : Z :=
  let buf := sysex_buf sx in
  if rd buf 5 =? 0x7F then 290                       (* All Parameters reset *)
  else if (rd buf 5 =? 0x10) && (rd buf 6 =? 0x00) && (rd buf 7 =? 0x04)
       then 145                                      (* Viking Child *)
  else if (rd buf 5 =? 0x10) && (rd buf 6 =? 0x00) && (rd buf 7 =? 0x01)
       then 30                                       (* Dark Sun 1 *)
  else delay_in_ms (sysex_used sx).

(** Lines 457-481: a status byte arrived while a sysex was collected. *)
Definition sysex_finish (sx : sysex_t) (w : World) : option (sysex_t * World) :=
  buf ← arr_set (sysex_buf sx) (sysex_used sx) 0xf7;
  let sx := mkSysex buf (sysex_used sx + 1) (sysex_delay sx) (sysex_start sx) in
  let '(sx, w) :=
    if short_mt32 sx then
      (sx, emit (LOG "MIDI:Skipping invalid MT-32 SysEx midi message (too short to contain a checksum)") w)
    else
      let w := emit (PlaySysex (take (Z.to_nat (sysex_used sx)) (sysex_buf sx)) (sysex_used sx)) w in
      if negb (sysex_start sx =? 0) then
        (mkSysex (sysex_buf sx) (sysex_used sx) (next_delay sx) (GetTicks w), w)
      else (sx, w) in
  let w := emit (LOG "Sysex message size") w in
  let w := when_capturing
             (CAPTURE_AddMidi true (sysex_used sx - 1)
                (take (Z.to_nat (sysex_used sx - 1)) (drop 1 (sysex_buf sx)))) w in
  Some (sx, w).

(** Lines 451-483. [inl] is the early [return] of line 455. *)
Definition sysex_block (data : Z) (v : Slot) (w : World) : option (Slot * World + Slot * World) :=
  if s_status v =? 0xf0 then
    let sx := s_sysex v in
    if negb (bit7 data) then
      if sysex_used sx <? MIDI_SYSEX_SIZE - 1 then
        buf ← arr_set (sysex_buf sx) (sysex_used sx) data;
        Some (inl (mkSlot (s_status v) (s_cmd v)
                     (mkSysex buf (sysex_used sx + 1) (sysex_delay sx) (sysex_start sx)), w))
      else Some (inl (v, w))
    else
      '(sx', w') ← sysex_finish sx w;
      Some (inr (mkSlot (s_status v) (s_cmd v) sx', w'))
  else Some (inr (v, w)).

(** Lines 484-492: a status byte is latched. *)
Definition status_block (data : Z) (v : Slot) : option Slot :=
  if bit7 data then
    let c := mkCmd (MIDI_evt_len data) 0 (cmd_buf (s_cmd v)) in
    if data =? 0xf0 then
      buf ← arr_set (sysex_buf (s_sysex v)) 0 0xf0;
      Some (mkSlot data c (mkSysex buf 1 (sysex_delay (s_sysex v)) (sysex_start (s_sysex v))))
    else Some (mkSlot data c (s_sysex v))
  else Some v.

(** Lines 493-502: the byte joins the fixed-length message. *)
Definition cmd_block (data : Z) (v : Slot) (w : World) : option (Slot * World) :=
  let c := s_cmd v in
  if negb (cmd_len c =? 0) then
    buf ← arr_set (cmd_buf c) (cmd_pos c) data;
    let c := mkCmd (cmd_len c) (cmd_pos c + 1) buf in
    if cmd_len c <=? cmd_pos c then
      let w := when_capturing
                 (CAPTURE_AddMidi false (cmd_len c) (take (Z.to_nat (cmd_len c)) (cmd_buf c))) w in
      let w := emit (PlayMsg (cmd_buf c)) w in
      Some (mkSlot (s_status v) (mkCmd (cmd_len c) 1 (cmd_buf c)) (s_sysex v), w)  (* Use Running status *)
    else Some (mkSlot (s_status v) c (s_sysex v), w)
  else Some (v, w).

(** The function on the entries of one slot. *)
Definition RawOutByte_slot (data : Z) (v : Slot) (rt : list Z) (w : World)
  : option (Slot * list Z * World) :=
  let w := pace (s_sysex v) w in
  if 0xf8 <=? data then
    '(rt', w') ← realtime_byte data rt w;
    Some (v, rt', w')
  else
    r ← sysex_block data v w;
    match r with
    | inl (v, w) => Some (v, rt, w)
    | inr (v, w) =>
        v ← status_block data v;
        '(v, w) ← cmd_block data v w;
        Some (v, rt, w)
    end.

Definition MIDI_RawOutByte (data slot : Z) (m : DB_Midi) (w : World) : option (DB_Midi * World) :=
  v ← get_slot slot m;
  '(v', rt', w') ← RawOutByte_slot data v (rt_buf m) w;
  Some (put_slot slot v' rt' m, w').

(** [MIDI_ClearBuffer(slot)] *)
Definition MIDI_ClearBuffer (slot : Z) (m : DB_Midi) : option DB_Midi :=
  v ← get_slot slot m;
  let sx := s_sysex v in
  Some (put_slot slot
          (mkSlot 0x00 (mkCmd 0 0 (cmd_buf (s_cmd v)))
                  (mkSysex (sysex_buf sx) 0 (sysex_delay sx) (sysex_start sx)))
          (rt_buf m) m).

(** Bytes handed to [MIDI_RawOutByte] one after the other on one slot;
    each comes with the time that passed since the previous call
    returned. *)
Fixpoint feed (input : list (Z * Z)) (slot : Z) (m : DB_Midi) (w : World)
  : option (DB_Midi * World) :=
  match input with
  | [] => Some (m, w)
  | (dt, data) :: rest =>
      '(m', w') ← MIDI_RawOutByte data slot m (elapse dt w);
      feed rest slot m' w'
  end.

(** [feed] on the entries of the slot. *)
Fixpoint feed_slot (input : list (Z * Z)) (v : Slot) (rt : list Z) (w : World)
  : option (Slot * list Z * World) :=
  match input with
  | [] => Some (v, rt, w)
  | (dt, data) :: rest =>
      '(v', rt', w') ← RawOutByte_slot data v rt (elapse dt w);
      feed_slot rest v' rt' w'
  end.

(** The same with no time passing in between. *)
Definition feed_bytes (bytes : list Z) : Z -> DB_Midi -> World -> option (DB_Midi * World) :=
  feed (List.map (fun b => (0, b)) bytes).

(** ** [MIDI_RawOutRTByte] and [MIDI_RawOutThruRTByte]

    [midi.cmd_r = data << 24] shifts the byte as an [int] and stores it in
    a [Bitu]; the handler then receives the address of that word as a byte
    pointer. What it reads there depends on the width of [Bitu]
    (dosbox.h, not part of the sources) and on the byte order of the host,
    which are parameters here. *)

Section HostLayout.
Variable Bitu_bits : Z.
Variable little_endian : bool.

(** [x << n] on a 32-bit [int], two's complement. *)
Definition int_shl (x n : Z) : Z :=
  (Z.shiftl x n + 2 ^ 31) mod 2 ^ 32 - 2 ^ 31.

Definition to_Bitu (v : Z) : Z := v mod 2 ^ Bitu_bits.

(** The bytes of a [Bitu] at increasing addresses. *)
Definition Bitu_bytes (v : Z) : list Z :=
  let le := List.map (fun i => Z.land (Z.shiftr v (8 * Z.of_nat i)) 0xff)
                     (seq 0 (Z.to_nat (Bitu_bits / 8))) in
  if little_endian then le else rev le.

Definition set_cmd_r (v : Z) (m : DB_Midi) : DB_Midi :=
  mkMidi (rt_buf m) (status m) v (cmd m) (sysex m)
         (available m) (in_available m) (handler m) (in_handler m)
         (realtime m) (inputdev m) (autoinput m) (thruchan m) (clockout m).

Definition MIDI_RawOutRTByte (data : Z) (m : DB_Midi) (w : World) : DB_Midi * World :=
  if negb (realtime m) then (m, w)
  else if negb (clockout m) && (data =? 0xf8) then (m, w)
  else
    let m := set_cmd_r (to_Bitu (int_shl data 24)) m in
    (m, emit (PlayMsg (Bitu_bytes (cmd_r m))) w).

Definition MIDI_RawOutThruRTByte (data : Z) (m : DB_Midi) (w : World) : DB_Midi * World :=
  if thruchan m then MIDI_RawOutRTByte data m w else (m, w).
End HostLayout.

(** What [MidiHandler_coremidi::PlayMsg] puts into its packet: the first
    [MIDI_evt_len[*msg]] bytes at [msg]. *)
Definition PlayMsg_packet (msg : list Z) : list Z :=
  take (Z.to_nat (MIDI_evt_len (rd msg 0))) msg.

(** ** The backend list and the [MIDI] constructor *)

(** [MidiHandler::MidiHandler()] links the new handler in front. *)
Definition MidiHandler_ctor (this : MidiHandler) (handler_list : list MidiHandler)
  : list MidiHandler := this :: handler_list.

(** Modelled from the spec: midi_handler.h, which defines the base class
    [MidiHandler] that [Midi_none] instantiates, is not part of the
    sources. Section 3: "A null backend always exists as the terminal
    fallback with no side effects"; section 4.4: "the built-in no-op
    backend must always succeed". Its name is the one the assertion of the
    constructor and [MIDI_ListAll] test for. *)
Definition Midi_none : MidiHandler := mkHandler "none" (fun _ w => (true, w)).

(** The list after the static initialisers ran: [Midi_none] is defined
    before the drivers are included, so it is linked first. *)
Definition registered (drivers : list MidiHandler) : list MidiHandler :=
  fold_left (fun l h => MidiHandler_ctor h l) drivers (MidiHandler_ctor Midi_none []).

Definition set_selection (h : option MidiHandler) (avail rt : bool) (dev : Z)
    (autoin thru clock : bool) (m : DB_Midi) : DB_Midi :=
  mkMidi (rt_buf m) (status m) (cmd_r m) (cmd m) (sysex m)
         avail (in_available m) h (in_handler m) rt dev autoin thru clock.

(** Lines 570-582, one round of the loop over the slots. *)
Definition ctor_slot (slot : Z) (st : string * DB_Midi * World)
  : option (string * DB_Midi * World) :=
  let '(fullconf, m, w) := st in
  v ← get_slot slot m;
  let buf := sysex_buf (s_sysex v) in
  let used := sysex_used (s_sysex v) in
  let '(sx, fullconf, w) :=
    match index 0 "delaysysex" fullconf with
    | Some at_ =>
        (mkSysex buf used 0 (GetTicks w),
         substring 0 at_ fullconf,          (* erase(pos): to the end *)
         emit (LOG "MIDI: Using delayed SysEx processing") w)
    | None => (mkSysex buf used 0 0, fullconf, w)
    end in
  Some (fullconf,
        put_slot slot (mkSlot 0x00 (mkCmd 0 0 (cmd_buf (s_cmd v))) sx) (rt_buf m) m,
        w).

Fixpoint ctor_slots (slots : list Z) (st : string * DB_Midi * World)
  : option (string * DB_Midi * World) :=
  match slots with
  | [] => Some st
  | slot :: rest => st' ← ctor_slot slot st; ctor_slots rest st'
  end.

(** The label [getdefault:] and the loop under it. Leaving the loop means
    that the assertion of line 642 fails. *)
Fixpoint getdefault (conf : string) (handlers : list MidiHandler) (m : DB_Midi) (w : World)
  : option (DB_Midi * World) :=
  match handlers with
  | [] => None
  | handler :: next =>
      let m := set_selection (Midi.handler m) (available m) true MDEV_SBUART false false false m in
      let name := GetName handler in
      if String.eqb name "fluidsynth" then getdefault conf next m w
      else if String.eqb name "mt32" then getdefault conf next m w
      else
        let '(ok, w) := Open handler conf w in
        if ok then
          Some (set_selection (Some handler) true (realtime m) (inputdev m)
                  (autoinput m) (thruchan m) (clockout m) m,
                emit (LOG ("MIDI: Opened device: " ++ name)) w)
        else getdefault conf next m w
  end.

(** Lines 589-612: the search for the configured name. [all] is
    [handler_list], which [getdefault] walks from the start. *)
Fixpoint find_device (dev conf : string) (handlers all : list MidiHandler)
    (m : DB_Midi) (w : World) : option (DB_Midi * World) :=
  match handlers with
  | [] => getdefault conf all m
            (emit (LOG ("MIDI: Can't find device: " ++ dev ++ ", using default handler.")) w)
  | handler :: next =>
      if String.eqb dev (GetName handler) then
        let '(ok, w) := Open handler conf w in
        if negb ok then
          getdefault conf all m
            (emit (LOG ("MIDI: Can't open device: " ++ dev ++ " with config: '" ++ conf ++ "'")) w)
        else
          Some (set_selection (Some handler) true true MDEV_SBUART true false false m,
                emit (LOG ("MIDI: Opened device: " ++ GetName handler)) w)
      else find_device dev conf next all m w
  end.

(** Lines 587-642, with [dev] already in lower case. *)
Definition select_handler (dev conf : string) (handler_list : list MidiHandler)
    (m : DB_Midi) (w : World) : option (DB_Midi * World) :=
  if String.eqb dev "auto" || String.eqb dev "default"
  then getdefault conf handler_list m w
  else find_device dev conf handler_list handler_list m w.

Section Constructor.
(** support.h is not part of the sources. *)
Variable lowcase : string -> string.
Variable trim : string -> string.

(** The constructor of [MIDI], given the two strings it reads from the
    configuration section. *)
Definition MIDI_ctor (mididevice midiconfig : string) (handler_list : list MidiHandler)
    (m : DB_Midi) (w : World) : option (DB_Midi * World) :=
  let dev := lowcase mididevice in
  '(fullconf, m, w) ← ctor_slots [0; 1; 2; 3] (midiconfig, m, w);
  let conf := trim fullconf in
  select_handler dev conf handler_list m w.
End Constructor.

(** ** Vocabulary of the properties *)

(** The invariant of a slot: the arrays have their declared sizes, the
    table gives lengths up to 3, the write position stays below the
    length (or at 1 after a dispatch), and while a sysex is collected at
    least its first byte is stored and the last element is still free. *)
Definition slot_inv (v : Slot) : Prop :=
  length (cmd_buf (s_cmd v)) = 8%nat /\
  Z.of_nat (length (sysex_buf (s_sysex v))) = MIDI_SYSEX_SIZE /\
  0 <= cmd_len (s_cmd v) <= 3 /\
  0 <= cmd_pos (s_cmd v) <= 2 /\
  0 <= sysex_used (s_sysex v) <= MIDI_SYSEX_SIZE /\
  (s_status v = 0xf0 -> 1 <= sysex_used (s_sysex v) <= MIDI_SYSEX_SIZE - 1).

Definition midi_inv (m : DB_Midi) : Prop :=
  length (rt_buf m) = 8%nat /\
  length (status m) = MIDI_DEVS /\
  length (cmd m) = MIDI_DEVS /\
  length (sysex m) = MIDI_DEVS /\
  forall slot v, get_slot slot m = Some v -> slot_inv v.

(** The states of [midi] a run of the program goes through. *)
Inductive midi_reachable : DB_Midi -> Prop :=
| reach_zero : midi_reachable midi_zero
| reach_MIDI_ctor lowcase trim mididevice midiconfig handler_list m w m' w' :
    midi_reachable m ->
    MIDI_ctor lowcase trim mididevice midiconfig handler_list m w = Some (m', w') ->
    midi_reachable m'
| reach_RawOutByte data slot m w m' w' :
    midi_reachable m -> 0 <= data < 256 ->
    MIDI_RawOutByte data slot m w = Some (m', w') ->
    midi_reachable m'
| reach_RawOutRTByte Bitu_bits little_endian data m w :
    midi_reachable m ->
    midi_reachable (fst (MIDI_RawOutRTByte Bitu_bits little_endian data m w))
| reach_ClearBuffer slot m m' :
    midi_reachable m -> MIDI_ClearBuffer slot m = Some m' -> midi_reachable m'.

(** Two states with the same four arrays. *)
Definition same_arrays (m m' : DB_Midi) : Prop :=
  rt_buf m' = rt_buf m /\ status m' = status m /\ cmd m' = cmd m /\ sysex m' = sysex m.

(** The sysex of a slot with its terminator in place (line 457). *)
Definition terminated (sx : sysex_t) : sysex_t :=
  mkSysex (<[Z.to_nat (sysex_used sx) := 0xf7]> (sysex_buf sx)) (sysex_used sx + 1)
          (sysex_delay sx) (sysex_start sx).

(** A world for the examples: the clock at 0, no capture running. *)
Definition fresh_world : World := mkWorld 0 false [].

(** A session configured with [midiconfig=delaysysex], started when the
    clock reads 1000, with no driver but the built-in one. *)
Definition paced_session : option (DB_Midi * World) :=
  MIDI_ctor (fun s => s) (fun s => s) "auto" "delaysysex" (registered [])
            midi_zero (mkWorld 1000 false []).

Definition paced_midi : DB_Midi :=
  match paced_session with Some (m, _) => m | None => midi_zero end.
Definition paced_world : World :=
  match paced_session with Some (_, w) => w | None => fresh_world end.

(** The paced session after [bytes] went to slot 0. *)
Definition paced_after (bytes : list Z) : DB_Midi * World :=
  match feed_bytes bytes 0 paced_midi paced_world with
  | Some r => r
  | None => (paced_midi, paced_world)
  end.

(** A session with the default configuration, an empty [midiconfig]: no
    pacing. *)
Definition plain_session : option (DB_Midi * World) :=
  MIDI_ctor (fun s => s) (fun s => s) "auto" EmptyString (registered [])
            midi_zero (mkWorld 1000 false []).

Definition plain_midi : DB_Midi :=
  match plain_session with Some (m, _) => m | None => midi_zero end.
Definition plain_world : World :=
  match plain_session with Some (_, w) => w | None => fresh_world end.

(** The entries of slot 0. *)
Definition slot0 (m : DB_Midi) : Slot :=
  match get_slot 0 m with
  | Some v => v
  | None => mkSlot 0 (mkCmd 0 0 []) (mkSysex [] 0 0 0)
  end.

Definition is_PlaySysex (e : Event) : bool :=
  match e with PlaySysex _ _ => true | _ => false end.

(** Events among which no sysex reaches the backend. *)
Definition quiet (evs : list Event) : Prop := Forall (fun e => is_PlaySysex e = false) evs.

(** The message line 460 logs. *)
Definition skip_message : Event :=
  LOG "MIDI:Skipping invalid MT-32 SysEx midi message (too short to contain a checksum)".




(** Selection as the specification words it: the backends that are not
    excluded from auto-selection, and the first of a list whose [Open]
    succeeds. *)
Definition auto_eligible (h : MidiHandler) : bool :=
  negb (String.eqb (GetName h) "fluidsynth") && negb (String.eqb (GetName h) "mt32").

Fixpoint first_open (conf : string) (handlers : list MidiHandler) (w : World)
  : option (MidiHandler * World) :=
  match handlers with
  | [] => None
  | h :: rest =>
      let '(ok, w') := Open h conf w in
      if ok then Some (h, w') else first_open conf rest w'
  end.

Definition auto_select (conf : string) (handler_list : list MidiHandler) (w : World)
  : option (MidiHandler * World) :=
  first_open conf (List.filter auto_eligible handler_list) w.

(** [Open] fails on every backend of the list, one after the other; the
    result is the world they leave. *)
Fixpoint failed_opens (conf : string) (handlers : list MidiHandler) (w : World)
  : option World :=
  match handlers with
  | [] => Some w
  | h :: rest =>
      let '(ok, w') := Open h conf w in
      if ok then None else failed_opens conf rest w'
  end.

(** The world in which [getdefault] starts when the selection of [dev]
    falls back to it: [dev] is "auto" or "default", or no backend has that
    name, or the first that has it cannot be opened. *)
Inductive falls_back (dev conf : string) (handler_list : list MidiHandler) (w : World)
  : World -> Prop :=
| fb_auto : dev = "auto"%string \/ dev = "default"%string -> falls_back dev conf handler_list w w
| fb_not_found :
    dev <> "auto"%string -> dev <> "default"%string ->
    (forall h, In h handler_list -> GetName h <> dev) ->
    falls_back dev conf handler_list w
      (emit (LOG ("MIDI: Can't find device: " ++ dev ++ ", using default handler.")) w)
| fb_open_failed before h after w' :
    dev <> "auto"%string -> dev <> "default"%string ->
    handler_list = before ++ h :: after ->
    (forall h', In h' before -> GetName h' <> dev) ->
    GetName h = dev ->
    Open h conf w = (false, w') ->
    falls_back dev conf handler_list w
      (emit (LOG ("MIDI: Can't open device: " ++ dev ++ " with config: '" ++ conf ++ "'")) w').

(** Drivers for the examples, in the order midi.cpp defines them: the two
    synthesizers could be opened, OSS finds no device. *)
Definition example_drivers : list MidiHandler :=
  [ mkHandler "fluidsynth" (fun _ w => (true, w));
    mkHandler "mt32" (fun _ w => (true, w));
    mkHandler "oss" (fun _ w => (false, w)) ].

(** The state [getdefault] leaves when it activates [h]. *)
Definition activated_by_default (h : MidiHandler) (m : DB_Midi) : DB_Midi :=
  set_selection (Some h) true true MDEV_SBUART false false false m.

(** *** The rest of the interface (lines 505-549)

    [MIDI_Available], [MIDI_ToggleInputDevice] and the two input
    functions. The input functions hand what a backend received to the
    Sound Blaster UART; [SB_UART_InputMsg] and [SB_UART_InputSysex] are
    defined in sblaster.cpp and are taken as given here, acting on a state
    [SB] of their own. *)

Definition MIDI_Available (m : DB_Midi) : bool := available m.

Definition set_inputdev (dev : Z) (m : DB_Midi) : DB_Midi :=
  set_selection (handler m) (available m) (realtime m) dev
                (autoinput m) (thruchan m) (clockout m) m.

(** [MIDI_ToggleInputDevice(device, status)]: the value returned and the
    state left. *)
Definition MIDI_ToggleInputDevice (device : Z) (status : bool) (m : DB_Midi) : Z * DB_Midi :=
  if negb (autoinput m) then (-1, m)
  else if inputdev m =? device then
    if negb status then (2, set_inputdev MDEV_NONE m)
    else (1, m)
  else (0, set_inputdev device m).

Section SoundBlasterUART.
Variable SB : Type.
Variable SB_UART_InputMsg : list Z -> Z -> SB -> SB.
Variable SB_UART_InputSysex : list Z -> Z -> bool -> SB -> Z * SB.

Definition MIDI_InputMsg (msg : list Z) (len : Z) (m : DB_Midi) (sb : SB) : SB :=
  if inputdev m =? MDEV_SBUART then SB_UART_InputMsg msg len sb else sb.

Definition MIDI_InputSysex (sysex : list Z) (len : Z) (abort : bool) (m : DB_Midi) (sb : SB)
  : Z * SB :=
  if inputdev m =? MDEV_SBUART then SB_UART_InputSysex sysex len abort sb else (0, sb).
End SoundBlasterUART.

(** One call of a function that writes [midi], and the states a run of
    such calls goes through from the zeroed static. *)
Inductive midi_call : DB_Midi -> DB_Midi -> Prop :=
| call_MIDI_ctor lowcase trim mididevice midiconfig handler_list m w m' w' :
    MIDI_ctor lowcase trim mididevice midiconfig handler_list m w = Some (m', w') ->
    midi_call m m'
| call_RawOutByte data slot m w m' w' :
    0 <= data < 256 -> MIDI_RawOutByte data slot m w = Some (m', w') -> midi_call m m'
| call_RawOutRTByte Bitu_bits little_endian data m w :
    midi_call m (fst (MIDI_RawOutRTByte Bitu_bits little_endian data m w))
| call_RawOutThruRTByte Bitu_bits little_endian data m w :
    midi_call m (fst (MIDI_RawOutThruRTByte Bitu_bits little_endian data m w))
| call_ClearBuffer slot m m' : MIDI_ClearBuffer slot m = Some m' -> midi_call m m'
| call_ToggleInputDevice device status m :
    midi_call m (snd (MIDI_ToggleInputDevice device status m)).

Inductive midi_session : DB_Midi -> Prop :=
| session_start : midi_session midi_zero
| session_call m m' : midi_session m -> midi_call m m' -> midi_session m'.

(** *** Vocabulary of the further properties *)

Definition data_byte (d : Z) : Prop := 0 <= d < 0x80.


Definition sent_packets (evs : list Event) : list (list Z) :=
  flat_map (fun e => match e with PlayMsg msg => [PlayMsg_packet msg] | _ => [] end) evs.

Definition captured_messages (evs : list Event) : list (list Z) :=
  flat_map (fun e => match e with CAPTURE_AddMidi false _ data => [data] | _ => [] end) evs.

(** A packet is a status byte followed by data bytes, as many bytes in
    all as the table gives the status; or nothing, for a status of length
    0. *)
Definition well_formed (p : list Z) : bool :=
  match p with
  | [] => true
  | s :: ds =>
      (0x80 <=? s) && (s <=? 0xFF) && (Z.of_nat (length p) =? MIDI_evt_len s)
      && forallb (fun d => (0 <=? d) && (d <? 0x80)) ds
  end.

Definition well_formed_dispatch (e : Event) : bool :=
  match e with PlayMsg msg => well_formed (PlayMsg_packet msg) | _ => true end.

Definition is_Slept (e : Event) : bool :=
  match e with Slept _ => true | _ => false end.

(** The message a slot collects agrees with its status: the length is the
    one of the table, and what is stored so far is the status byte and
    data bytes. *)
Definition cmd_wf (v : Slot) : Prop :=
  cmd_len (s_cmd v) = MIDI_evt_len (s_status v) /\
  (cmd_len (s_cmd v) <> 0 ->
   0x80 <= s_status v < 0xf8 /\
   1 <= cmd_pos (s_cmd v) /\
   rd (cmd_buf (s_cmd v)) 0 = s_status v /\
   (cmd_pos (s_cmd v) = 2 -> 0 <= rd (cmd_buf (s_cmd v)) 1 < 0x80)).

Definition midi_wf (m : DB_Midi) : Prop :=
  forall slot v, get_slot slot m = Some v -> cmd_wf v.

(** What [cmd_block] relies on when the byte [data] reaches it: [data]
    is the status byte just latched, or a data byte that joins a message
    in progress. *)
Definition joins (data : Z) (v : Slot) : Prop :=
  cmd_len (s_cmd v) = MIDI_evt_len (s_status v) /\
  (cmd_len (s_cmd v) <> 0 ->
   0x80 <= s_status v < 0xf8 /\
   ((cmd_pos (s_cmd v) = 0 /\ data = s_status v) \/
    (1 <= cmd_pos (s_cmd v) /\ rd (cmd_buf (s_cmd v)) 0 = s_status v /\ data_byte data /\
     (cmd_pos (s_cmd v) = 2 -> data_byte (rd (cmd_buf (s_cmd v)) 1))))).

(** What one call adds to the trace once the pacing delay is over: no
    sleep, well-formed packets, and in the capture the packets sent. *)
Definition orderly (capturing realtime : bool) (evs : list Event) : Prop :=
  Forall (fun e => is_Slept e = false) evs /\
  Forall (fun e => well_formed_dispatch e = true) evs /\
  captured_messages evs = (if capturing && negb realtime then sent_packets evs else []).

(** The same for a stream of bytes, sleeps aside. *)
Definition tidy (capturing realtime : bool) (evs : list Event) : Prop :=
  Forall (fun e => well_formed_dispatch e = true) evs /\
  captured_messages evs = (if capturing && negb realtime then sent_packets evs else []).

(** Pacing is armed for the slot and its delay is not over at [w]. *)
Definition held_back (sx : sysex_t) (w : World) : bool :=
  negb (sysex_start sx =? 0) && (GetTicks w <? sysex_start sx + sysex_delay sx).


(** What the loop of the constructor leaves of a slot: its buffers and
    [sysex.used] stay, the parser is reset and the pacing delay is 0. *)
Definition ctor_cleared (start : Z) (v : Slot) : Slot :=
  mkSlot 0x00 (mkCmd 0 0 (cmd_buf (s_cmd v)))
         (mkSysex (sysex_buf (s_sysex v)) (sysex_used (s_sysex v)) 0 start).

(** What the loop leaves of [fullconf]: the text in front of the first
    "delaysysex". *)
Definition ctor_conf (fullconf : string) : string :=
  match index 0 "delaysysex" fullconf with
  | Some at_ => substring 0 at_ fullconf
  | None => fullconf
  end.

(** The plain session in the middle of a sysex, F0 41 10 collected. *)
Definition collecting_midi : DB_Midi :=
  match feed_bytes [0xF0; 0x41; 0x10] 0 plain_midi plain_world with
  | Some (m, _) => m
  | None => plain_midi
  end.

(** A state in which the backend "mt32" of the example drivers was
    opened by its name. *)
Definition named_midi : DB_Midi :=
  match select_handler "mt32" EmptyString example_drivers midi_zero fresh_world with
  | Some (m, _) => m
  | None => midi_zero
  end.

(** A Sound Blaster for the examples: it keeps the messages it is given,
    the latest first, and accepts any sysex whole. *)
Definition example_InputMsg (msg : list Z) (len : Z) (sb : list (list Z)) : list (list Z) :=
  take (Z.to_nat len) msg :: sb.
Definition example_InputSysex (sysex : list Z) (len : Z) (abort : bool) (sb : list (list Z))
  : Z * list (list Z) :=
  (0, take (Z.to_nat len) sysex :: sb).


End Midi.

Module Disney.

(** ** The Disney Sound Source (disney.cpp)

    Times are the [double] milliseconds of [PIC_FullIndex()], taken as
    exact rationals. The sample type and the table [lut_u8to16] belong to
    the mixer, and so does the silent sample the FIFO is primed with; they
    are parameters. The mixer channel is seen through what the engine
    exchanges with it: the result of [channel->WakeUp()] comes in as an
    argument, the frames given to [AddSamples_sfloat] go out as a list. *)

Definition Qltb (x y : Q) : bool := negb (Qle_bool y x).

Definition dac_rate_hz : Z := 7000.
Definition ms_per_frame : Q := (1000 / inject_Z dac_rate_hz)%Q.
Definition max_fifo_size : nat := 16.
Definition power_on_bits : Z := 0xF. (* 0b1111 *)

Section Engine.
Variable float_t : Type.
Variable lut_u8to16 : Z -> float_t.
Variable silent_sample : Z.

Definition AudioFrame : Type := float_t * float_t.

Record Disney := mkDisney {
  fifo : list Z;                     (* std::queue<uint8_t>, front first *)
  render_queue : list AudioFrame;    (* std::queue<AudioFrame>, front first *)
  last_rendered_ms : Q;
  status_data : Z                    (* StatusRegister::data *)
}.

Definition set_fifo (f : list Z) (d : Disney) : Disney :=
  mkDisney f (render_queue d) (last_rendered_ms d) (status_data d).
Definition set_render_queue (q : list AudioFrame) (d : Disney) : Disney :=
  mkDisney (fifo d) q (last_rendered_ms d) (status_data d).
Definition set_last_rendered_ms (t : Q) (d : Disney) : Disney :=
  mkDisney (fifo d) (render_queue d) t (status_data d).

Definition IsFull (d : Disney) : bool := (max_fifo_size <=? length (fifo d))%nat.

(** [None] is the failure of [assert(fifo.size())]. *)
Definition Render (d : Disney) : option (AudioFrame * Disney) :=
  match fifo d with
  | [] => None
  | front :: popped =>
      let sample := lut_u8to16 front in
      let frame := (sample, sample) in
      Some (frame, if (1 <? length (fifo d))%nat then set_fifo popped d else d)
  end.

(** The loop of [RenderUpToNow]; it gives [None] also when [fuel] rounds
    did not bring the cursor up to [now]. *)
Fixpoint render_loop (fuel : nat) (now : Q) (d : Disney) : option Disney :=
  if Qltb (last_rendered_ms d) now then
    match fuel with
    | O => None
    | S fuel =>
        let d := set_last_rendered_ms (last_rendered_ms d + ms_per_frame)%Q d in
        '(frame, d) ← Render d;
        render_loop fuel now (set_render_queue (render_queue d ++ [frame]) d)
    end
  else Some d.

(** The number of sample periods the cursor lies behind [now], rounded
    up: as many rounds as the loop can make. *)
Definition frames_behind (now : Q) (d : Disney) : nat :=
  Z.to_nat (Qceiling ((now - last_rendered_ms d) / ms_per_frame)).

Definition RenderUpToNow (now : Q) (woke_up : bool) (d : Disney) : option Disney :=
  if woke_up then Some (set_last_rendered_ms now d)
  else render_loop (frames_behind now d) now d.

Definition WriteData (now : Q) (woke_up : bool) (data : Z) (d : Disney) : option Disney :=
  d ← RenderUpToNow now woke_up d;
  Some (if negb (IsFull d) then set_fifo (fifo d ++ [data]) d else d).

Definition WriteControl (now : Q) (woke_up : bool) (d : Disney) : option Disney :=
  RenderUpToNow now woke_up d.

(** [status.fifo_full] is bit 6 of [status.data]. *)
Definition ReadStatus (d : Disney) : Z * Disney :=
  let data := if IsFull d
              then Z.setbit (status_data d) 6
              else Z.clearbit (status_data d) 6 in
  (data, mkDisney (fifo d) (render_queue d) (last_rendered_ms d) data).

(** The first loop of [AudioCallback]: what is left to deliver, the
    frames given to the channel, and the engine. *)
Fixpoint drain_queue (frames_remaining : nat) (d : Disney) : nat * list AudioFrame * Disney :=
  match frames_remaining, render_queue d with
  | S remaining, front :: popped =>
      let '(remaining, out, d) := drain_queue remaining (set_render_queue popped d) in
      (remaining, front :: out, d)
  | _, _ => (frames_remaining, [], d)
  end.

(** The second loop. *)
Fixpoint render_remaining (frames_remaining : nat) (d : Disney)
  : option (list AudioFrame * Disney) :=
  match frames_remaining with
  | O => Some ([], d)
  | S remaining =>
      '(frame, d) ← Render d;
      '(out, d) ← render_remaining remaining d;
      Some (frame :: out, d)
  end.

(** [requested_frames] is a [uint16_t]; both loops count it down. The
    result lists the frames passed to [channel->AddSamples_sfloat]. *)
Definition AudioCallback (requested_frames : nat) (now : Q) (d : Disney)
  : option (list AudioFrame * Disney) :=
  let '(frames_remaining, queued, d) := drain_queue requested_frames d in
  '(rendered, d) ← render_remaining frames_remaining d;
  Some (queued ++ rendered, set_last_rendered_ms now d).

(** The constructor: the FIFO is primed with one silent sample and the
    power bits are set. *)
Definition Disney_ctor : Disney := mkDisney [silent_sample] [] 0%Q power_on_bits.

(** The calls the emulator and the mixer make on a live engine. *)
Inductive Op :=
| OpWriteData (now : Q) (woke_up : bool) (data : Z)
| OpWriteControl (now : Q) (woke_up : bool)
| OpReadStatus
| OpAudioCallback (requested_frames : nat) (now : Q).

Definition run_op (op : Op) (d : Disney) : option Disney :=
  match op with
  | OpWriteData now woke data => WriteData now woke data d
  | OpWriteControl now woke => WriteControl now woke d
  | OpReadStatus => Some (snd (ReadStatus d))
  | OpAudioCallback n now => snd <$> AudioCallback n now d
  end.

Fixpoint run_ops (ops : list Op) (d : Disney) : option Disney :=
  match ops with
  | [] => Some d
  | op :: rest => d' ← run_op op d; run_ops rest d'
  end.

Inductive reachable : Disney -> Prop :=
| reach_ctor : reachable Disney_ctor
| reach_op op d d' : reachable d -> run_op op d = Some d' -> reachable d'.

(** *** Vocabulary of the properties *)

Definition fifo_inv (d : Disney) : Prop :=
  (1 <= length (fifo d) <= max_fifo_size)%nat.

(** The frame [Render] makes of a sample. *)
Definition frame_of (sample : Z) : AudioFrame := (lut_u8to16 sample, lut_u8to16 sample).

(** The next [k] samples a FIFO plays when nothing is written: its
    contents in order, then its last sample again and again. *)
Definition held_samples (samples : list Z) (k : nat) : list Z :=
  take k (samples ++ replicate k (List.last samples 0)).

(** Writes of the given bytes, all at the time [now]. *)
Definition writes_at (now : Q) (bytes : list (bool * Z)) : list Op :=
  List.map (fun '(woke_up, data) => OpWriteData now woke_up data) bytes.

End Engine.

Arguments mkDisney {float_t}.
Arguments fifo {float_t}.
Arguments render_queue {float_t}.
Arguments last_rendered_ms {float_t}.
Arguments status_data {float_t}.
Arguments set_fifo {float_t}.
Arguments set_render_queue {float_t}.
Arguments set_last_rendered_ms {float_t}.
Arguments IsFull {float_t}.
Arguments Render {float_t}.
Arguments render_loop {float_t}.
Arguments frames_behind {float_t}.
Arguments RenderUpToNow {float_t}.
Arguments WriteData {float_t}.
Arguments WriteControl {float_t}.
Arguments ReadStatus {float_t}.
Arguments drain_queue {float_t}.
Arguments render_remaining {float_t}.
Arguments AudioCallback {float_t}.
Arguments Disney_ctor {float_t}.
Arguments run_op {float_t}.
Arguments run_ops {float_t}.
Arguments reachable {float_t}.
Arguments fifo_inv {float_t}.
Arguments frame_of {float_t}.

(** An engine for the examples: samples are turned into the integers
    [(b - 128) * 256], and silence is the byte 128. *)
Definition example_lut (b : Z) : Z := (b - 128) * 256.
Definition example_engine : Disney Z := Disney_ctor 128.

(** Seventeen writes at the rate of the DAC, one sample period (1/7 ms)
    apart, the first one waking the channel up. *)
Definition writes_at_dac_rate : list Op :=
  List.map (fun i => OpWriteData (i # 7) (i =? 1) i)
           [1; 2; 3; 4; 5; 6; 7; 8; 9; 10; 11; 12; 13; 14; 15; 16; 17].

(** The example engine after three bytes were written at time 0, the
    first one waking the channel up. *)
Definition written_engine : Disney Z :=
  match run_ops example_lut (writes_at 0 [(true, 200); (false, 100); (false, 150)])
                example_engine with
  | Some d => d
  | None => example_engine
  end.

End Disney.

(** * Properties of the MIDI router *)

Import Midi.

Section ArrayFacts.
Context {A : Type}.
Implicit Types (a : list A) (i : Z) (v : A).

Lemma arr_set_Some a i v :
  0 <= i -> (Z.to_nat i < length a)%nat ->
  arr_set a i v = Some (<[Z.to_nat i := v]> a).
Proof.
  intros Hi Hlt. unfold arr_set.
  destruct (Z.leb_spec 0 i); [|lia].
  destruct (lookup_lt_is_Some_2 a (Z.to_nat i) Hlt) as [x ->]. reflexivity.
Qed.

Lemma arr_set_inv a i v a' :
  arr_set a i v = Some a' ->
  0 <= i /\ (Z.to_nat i < length a)%nat /\ a' = <[Z.to_nat i := v]> a.
Proof.
  unfold arr_set. destruct (Z.leb_spec 0 i); [|discriminate].
  destruct (a !! Z.to_nat i) eqn:E; [|discriminate].
  intros [= <-]. split; [assumption|]. split; [|reflexivity].
  eapply lookup_lt_Some; eassumption.
Qed.

Lemma arr_set_length a i v a' : arr_set a i v = Some a' -> length a' = length a.
Proof. intros H. apply arr_set_inv in H as (_ & _ & ->). apply length_insert. Qed.
End ArrayFacts.

Section WorldFacts.
Implicit Types (w : World) (e : Event).

Lemma dispatches_emit e w :
  dispatches (emit e w) = dispatches w ++ (if is_dispatch e then [e] else []).
Proof. unfold dispatches, emit. simpl. rewrite List.filter_app. simpl. destruct (is_dispatch e); reflexivity. Qed.

Lemma dispatches_when_capturing b n l w :
  dispatches (when_capturing (CAPTURE_AddMidi b n l) w) = dispatches w.
Proof.
  unfold when_capturing. destruct (CaptureState_MIDI w); [|reflexivity].
  rewrite dispatches_emit. simpl. apply app_nil_r.
Qed.

Lemma trace_emit e w : trace (emit e w) = trace w ++ [e].
Proof. reflexivity. Qed.

Lemma CaptureState_emit e w : CaptureState_MIDI (emit e w) = CaptureState_MIDI w.
Proof. reflexivity. Qed.

Lemma trace_when_capturing e w :
  trace (when_capturing e w) = trace w ++ (if CaptureState_MIDI w then [e] else []).
Proof. unfold when_capturing. destruct (CaptureState_MIDI w); [reflexivity|]. symmetry. apply app_nil_r. Qed.

Lemma dispatches_Delay ms w : dispatches (Delay ms w) = dispatches w.
Proof. unfold dispatches, Delay. simpl. rewrite List.filter_app. simpl. apply app_nil_r. Qed.

Lemma dispatches_elapse dt w : dispatches (elapse dt w) = dispatches w.
Proof. reflexivity. Qed.

Lemma dispatches_pace sx w : dispatches (pace sx w) = dispatches w.
Proof.
  unfold pace. destruct (_ =? 0); [reflexivity|].
  destruct (_ <? _); [apply dispatches_Delay|reflexivity].
Qed.
End WorldFacts.

Arguments emit : simpl never.
Arguments elapse : simpl never.
Arguments Delay : simpl never.
Arguments when_capturing : simpl never.
Arguments dispatches : simpl never.

Section SlotAccess.
Implicit Types (m : DB_Midi) (v : Slot) (slot : Z).

Lemma get_slot_inv slot m v :
  get_slot slot m = Some v ->
  0 <= slot /\
  status m !! Z.to_nat slot = Some (s_status v) /\
  cmd m !! Z.to_nat slot = Some (s_cmd v) /\
  sysex m !! Z.to_nat slot = Some (s_sysex v).
Proof.
  unfold get_slot. destruct (Z.leb_spec 0 slot); [|discriminate].
  destruct (status m !! _) eqn:E1; simpl; [|discriminate].
  destruct (cmd m !! _) eqn:E2; simpl; [|discriminate].
  destruct (sysex m !! _) eqn:E3; simpl; [|discriminate].
  intros [= <-]. auto.
Qed.

Lemma get_put_same slot m v v' rt :
  get_slot slot m = Some v -> get_slot slot (put_slot slot v' rt m) = Some v'.
Proof.
  intros H. apply get_slot_inv in H as (H0 & H1 & H2 & H3).
  unfold get_slot, put_slot. simpl.
  destruct (Z.leb_spec 0 slot); [|lia].
  rewrite !list_lookup_insert_eq by (eapply lookup_lt_Some; eassumption).
  simpl. destruct v'; reflexivity.
Qed.

Lemma get_put_other slot slot' m v' rt :
  0 <= slot -> 0 <= slot' -> slot <> slot' ->
  get_slot slot' (put_slot slot v' rt m) = get_slot slot' m.
Proof.
  intros H0 H1 Hne. unfold get_slot, put_slot. simpl.
  rewrite !list_lookup_insert_ne by lia. reflexivity.
Qed.

Lemma put_put slot m v1 rt1 v2 rt2 :
  put_slot slot v2 rt2 (put_slot slot v1 rt1 m) = put_slot slot v2 rt2 m.
Proof. unfold put_slot. simpl. rewrite !list_insert_insert_eq. reflexivity. Qed.

Lemma put_get_id slot m v :
  get_slot slot m = Some v -> put_slot slot v (rt_buf m) m = m.
Proof.
  intros H. apply get_slot_inv in H as (H0 & H1 & H2 & H3).
  unfold put_slot. rewrite !list_insert_id by assumption. destruct m; reflexivity.
Qed.

Lemma MIDI_RawOutByte_on_slot data slot m w v :
  get_slot slot m = Some v ->
  MIDI_RawOutByte data slot m w =
    '(v', rt', w') ← RawOutByte_slot data v (rt_buf m) w;
    Some (put_slot slot v' rt' m, w').
Proof. intros H. unfold MIDI_RawOutByte. rewrite H. reflexivity. Qed.

Lemma feed_on_slot input : forall slot m w v,
  get_slot slot m = Some v ->
  feed input slot m w =
    '(v', rt', w') ← feed_slot input v (rt_buf m) w;
    Some (put_slot slot v' rt' m, w').
Proof.
  induction input as [|[dt data] rest IH]; intros slot m w v H; simpl.
  - rewrite put_get_id by assumption. reflexivity.
  - rewrite (MIDI_RawOutByte_on_slot _ _ _ _ _ H).
    destruct (RawOutByte_slot data v (rt_buf m) (elapse dt w)) as [[[v1 rt1] w1]|]; simpl; [|reflexivity].
    rewrite (IH slot _ w1 v1) by (eapply get_put_same; eassumption).
    simpl. destruct (feed_slot rest v1 rt1 w1) as [[[v2 rt2] w2]|]; simpl; [|reflexivity].
    rewrite put_put. reflexivity.
Qed.
End SlotAccess.


Lemma feed_app a : forall b slot m w,
  feed (a ++ b) slot m w = '(m', w') ← feed a slot m w; feed b slot m' w'.
Proof.
  induction a as [|[dt data] a IH]; intros b slot m w; simpl; [reflexivity|].
  destruct (MIDI_RawOutByte data slot m (elapse dt w)) as [[m1 w1]|]; simpl; [|reflexivity].
  apply IH.
Qed.

Ltac explode_cmd_buf v Hlen :=
  let st := fresh "st" in let len := fresh "len" in let pos := fresh "pos" in
  let cbuf := fresh "cbuf" in let sx := fresh "sx" in
  destruct v as [st [len pos cbuf] sx]; simpl in *;
  do 8 (destruct cbuf as [|? cbuf]; [discriminate Hlen|]);
  destruct cbuf; [|discriminate Hlen].

(** C1. On a slot that was just cleared (status 0, [cmd.pos] = 0,
    [cmd.len] = 0) and has no pacing armed, the bytes 0x90 0x40 0x7F 0x41
    0x7F, however far apart in time they arrive, reach the backend as
    exactly two messages of three bytes, 90 40 7F and then 90 41 7F. After
    each of the two dispatches [cmd.pos] is back at 1 with the status 0x90
    and its length 3 still cached, which is how the second message gets
    its status byte. *)
Theorem running_status_reuses_note_on
    (m : DB_Midi) (w : World) (slot : Z) (v : Slot) (t1 t2 t3 t4 t5 : Z) :
  get_slot slot m = Some v ->
  s_status v = 0 -> cmd_pos (s_cmd v) = 0 -> cmd_len (s_cmd v) = 0 ->
  sysex_start (s_sysex v) = 0 ->
  length (cmd_buf (s_cmd v)) = 8%nat ->
  exists m3 w3 m5 w5 v3 v5 msg1 msg2,
    feed [(t1, 0x90); (t2, 0x40); (t3, 0x7F)] slot m w = Some (m3, w3) /\
    feed [(t4, 0x41); (t5, 0x7F)] slot m3 w3 = Some (m5, w5) /\
    feed [(t1, 0x90); (t2, 0x40); (t3, 0x7F); (t4, 0x41); (t5, 0x7F)] slot m w
      = Some (m5, w5) /\
    dispatches w3 = dispatches w ++ [PlayMsg msg1] /\
    dispatches w5 = dispatches w ++ [PlayMsg msg1; PlayMsg msg2] /\
    PlayMsg_packet msg1 = [0x90; 0x40; 0x7F] /\
    PlayMsg_packet msg2 = [0x90; 0x41; 0x7F] /\
    get_slot slot m3 = Some v3 /\
    s_status v3 = 0x90 /\ cmd_len (s_cmd v3) = 3 /\ cmd_pos (s_cmd v3) = 1 /\
    get_slot slot m5 = Some v5 /\
    s_status v5 = 0x90 /\ cmd_len (s_cmd v5) = 3 /\ cmd_pos (s_cmd v5) = 1.
Proof.
  intros Hget Hst Hpos Hlen Hstart Hbuf.
  explode_cmd_buf v Hbuf. destruct sx as [sbuf used dl start]. simpl in *. subst.
  pose proof (feed_on_slot [(t1, 0x90); (t2, 0x40); (t3, 0x7F)] _ _ w _ Hget) as E3.
  cbv -[emit elapse when_capturing put_slot feed] in E3.
  match type of E3 with _ = Some (put_slot _ ?v3 _ _, ?w3) =>
    pose proof (get_put_same slot m _ v3 (rt_buf m) Hget) as Hget3;
    pose proof (feed_on_slot [(t4, 0x41); (t5, 0x7F)] _ _ w3 _ Hget3) as E5
  end.
  cbv -[emit elapse when_capturing put_slot feed] in E5.
  rewrite put_put in E5.
  match type of E5 with _ = Some (put_slot _ ?v5 _ _, ?w5) =>
    pose proof (get_put_same slot m _ v5 (rt_buf m) Hget) as Hget5
  end.
  do 8 eexists.
  split; [exact E3|]. split; [exact E5|].
  split.
  { etransitivity;
      [exact (feed_app [(t1, 0x90); (t2, 0x40); (t3, 0x7F)] [(t4, 0x41); (t5, 0x7F)] _ _ _)|].
    rewrite E3. exact E5. }
  split.
  { rewrite dispatches_emit, dispatches_when_capturing, !dispatches_elapse. reflexivity. }
  split.
  { rewrite !dispatches_emit, !dispatches_when_capturing, !dispatches_elapse,
      !dispatches_emit, !dispatches_when_capturing, !dispatches_elapse.
    simpl. rewrite <- app_assoc. reflexivity. }
  split; [reflexivity|]. split; [reflexivity|].
  split; [exact Hget3|]. split; [reflexivity|]. split; [reflexivity|]. split; [reflexivity|].
  split; [exact Hget5|]. split; [reflexivity|]. split; reflexivity.
Qed.

Lemma running_status_reuses_note_on_witness :
  exists m3 w3 m5 w5 v3 v5 msg1 msg2,
    feed [(0, 0x90); (0, 0x40); (0, 0x7F)] 0 plain_midi plain_world = Some (m3, w3) /\
    feed [(0, 0x41); (0, 0x7F)] 0 m3 w3 = Some (m5, w5) /\
    feed [(0, 0x90); (0, 0x40); (0, 0x7F); (0, 0x41); (0, 0x7F)] 0 plain_midi plain_world
      = Some (m5, w5) /\
    dispatches w3 = dispatches plain_world ++ [PlayMsg msg1] /\
    dispatches w5 = dispatches plain_world ++ [PlayMsg msg1; PlayMsg msg2] /\
    PlayMsg_packet msg1 = [0x90; 0x40; 0x7F] /\
    PlayMsg_packet msg2 = [0x90; 0x41; 0x7F] /\
    get_slot 0 m3 = Some v3 /\
    s_status v3 = 0x90 /\ cmd_len (s_cmd v3) = 3 /\ cmd_pos (s_cmd v3) = 1 /\
    get_slot 0 m5 = Some v5 /\
    s_status v5 = 0x90 /\ cmd_len (s_cmd v5) = 3 /\ cmd_pos (s_cmd v5) = 1.
Proof.
  apply (running_status_reuses_note_on plain_midi plain_world 0 (slot0 plain_midi));
    vm_compute; reflexivity.
Defined.

Section Invariant.
Implicit Types (v : Slot) (w : World) (rt : list Z).

Lemma MIDI_evt_len_range d : 0 <= MIDI_evt_len d <= 3.
Proof.
  assert (H : forallb (fun x => (0 <=? x) && (x <=? 3)) MIDI_evt_len_table = true)
    by (vm_compute; reflexivity).
  rewrite forallb_forall in H. unfold MIDI_evt_len.
  destruct (nth_in_or_default (Z.to_nat d) MIDI_evt_len_table 0) as [Hin | ->]; [|lia].
  apply H in Hin. lia.
Qed.

Lemma sysex_finish_total sx w :
  0 <= sysex_used sx < Z.of_nat (length (sysex_buf sx)) ->
  exists sx' w',
    sysex_finish sx w = Some (sx', w') /\
    sysex_buf sx' = <[Z.to_nat (sysex_used sx) := 0xf7]> (sysex_buf sx) /\
    sysex_used sx' = sysex_used sx + 1.
Proof.
  intros Hu. unfold sysex_finish.
  rewrite arr_set_Some by lia. simpl.
  destruct (short_mt32 _); simpl.
  - eexists _, _. split; [reflexivity|]. split; reflexivity.
  - destruct (negb _); eexists _, _; (split; [reflexivity|]); split; reflexivity.
Qed.

Lemma status_block_inv data v :
  length (cmd_buf (s_cmd v)) = 8%nat ->
  Z.of_nat (length (sysex_buf (s_sysex v))) = MIDI_SYSEX_SIZE ->
  0 <= cmd_len (s_cmd v) <= 3 -> 0 <= cmd_pos (s_cmd v) <= 2 ->
  0 <= sysex_used (s_sysex v) <= MIDI_SYSEX_SIZE ->
  (bit7 data = false -> s_status v = 0xf0 -> 1 <= sysex_used (s_sysex v) <= MIDI_SYSEX_SIZE - 1) ->
  exists v', status_block data v = Some v' /\ slot_inv v'.
Proof.
  intros Hc Hs Hl Hp Hu Hf. unfold status_block.
  destruct (bit7 data) eqn:Hb.
  - pose proof (MIDI_evt_len_range data).
    destruct (Z.eqb_spec data 0xf0) as [->|Hne].
    + rewrite arr_set_Some by (unfold MIDI_SYSEX_SIZE in *; lia). simpl.
      eexists. split; [reflexivity|].
      unfold slot_inv, MIDI_SYSEX_SIZE in *. simpl. rewrite length_insert. repeat split; try lia; assumption.
    + eexists. split; [reflexivity|].
      unfold slot_inv, MIDI_SYSEX_SIZE in *. simpl. repeat split; try lia; try assumption; congruence.
  - eexists. split; [reflexivity|]. unfold slot_inv. repeat split; try lia; try assumption; apply Hf; auto.
Qed.

Lemma cmd_block_inv data v w :
  slot_inv v -> exists v' w', cmd_block data v w = Some (v', w') /\ slot_inv v'.
Proof.
  intros (Hc & Hs & Hl & Hp & Hu & Hf). unfold cmd_block.
  destruct (Z.eqb_spec (cmd_len (s_cmd v)) 0) as [E|E]; simpl.
  - eexists _, _. split; [reflexivity|]. repeat split; try lia; try assumption; apply Hf; auto.
  - rewrite arr_set_Some by lia. simpl.
    destruct (Z.leb_spec (cmd_len (s_cmd v)) (cmd_pos (s_cmd v) + 1)).
    + eexists _, _. split; [reflexivity|].
      unfold slot_inv. simpl. rewrite length_insert. repeat split; try lia; try assumption; apply Hf; auto.
    + eexists _, _. split; [reflexivity|].
      unfold slot_inv. simpl. rewrite length_insert. repeat split; try lia; try assumption; apply Hf; auto.
Qed.

Lemma RawOutByte_slot_inv data v rt w :
  slot_inv v -> length rt = 8%nat ->
  exists v' rt' w',
    RawOutByte_slot data v rt w = Some (v', rt', w') /\
    slot_inv v' /\ length rt' = 8%nat.
Proof.
  intros Hinv Hrt. unfold RawOutByte_slot.
  destruct (0xf8 <=? data).
  { unfold realtime_byte. rewrite arr_set_Some by (simpl; lia). simpl.
    eexists _, _, _. split; [reflexivity|]. split; [assumption|].
    rewrite length_insert. assumption. }
  pose proof Hinv as (Hc & Hs & Hl & Hp & Hu & Hf).
  unfold sysex_block.
  destruct (Z.eqb_spec (s_status v) 0xf0) as [Est|Est].
  - specialize (Hf Est). destruct (bit7 data) eqn:Hb; simpl.
    + destruct (sysex_finish_total (s_sysex v) (pace (s_sysex v) w)) as (sx' & w' & -> & Hb' & Hu');
        [unfold MIDI_SYSEX_SIZE in *; lia|]. simpl.
      destruct (status_block_inv data (mkSlot (s_status v) (s_cmd v) sx')) as (v1 & -> & Hinv1); simpl;
        try assumption; try (rewrite Hb', length_insert; assumption);
        try (unfold MIDI_SYSEX_SIZE in *; lia); try congruence.
      simpl. destruct (cmd_block_inv data v1 w' Hinv1) as (v2 & w2 & -> & Hinv2). simpl.
      eexists _, _, _. split; [reflexivity|]. split; assumption.
    + destruct (Z.ltb_spec (sysex_used (s_sysex v)) (MIDI_SYSEX_SIZE - 1)).
      * rewrite arr_set_Some by (unfold MIDI_SYSEX_SIZE in *; lia). simpl.
        eexists _, _, _. split; [reflexivity|]. split; [|assumption].
        unfold slot_inv, MIDI_SYSEX_SIZE in *. simpl. rewrite length_insert.
        repeat split; try lia; assumption.
      * simpl. eexists _, _, _. split; [reflexivity|]. split; assumption.
  - simpl.
    destruct (status_block_inv data v) as (v1 & -> & Hinv1); try assumption; [congruence|].
    simpl. destruct (cmd_block_inv data v1 (pace (s_sysex v) w) Hinv1) as (v2 & w2 & -> & Hinv2). simpl.
    eexists _, _, _. split; [reflexivity|]. split; assumption.
Qed.
End Invariant.

Section MidiInvariant.
Implicit Types (m : DB_Midi) (v : Slot) (w : World).

Lemma same_arrays_refl m : same_arrays m m.
Proof. repeat split. Qed.

Lemma same_arrays_trans m1 m2 m3 : same_arrays m1 m2 -> same_arrays m2 m3 -> same_arrays m1 m3.
Proof. unfold same_arrays. intros (? & ? & ? & ?) (? & ? & ? & ?). repeat split; congruence. Qed.

Lemma same_arrays_get_slot m m' slot : same_arrays m m' -> get_slot slot m' = get_slot slot m.
Proof. intros (_ & H1 & H2 & H3). unfold get_slot. rewrite H1, H2, H3. reflexivity. Qed.

Lemma midi_inv_same_arrays m m' : same_arrays m m' -> midi_inv m -> midi_inv m'.
Proof.
  intros Hs (H1 & H2 & H3 & H4 & H5).
  pose proof Hs as (E1 & E2 & E3 & E4).
  unfold midi_inv. rewrite E1, E2, E3, E4. do 4 (split; [assumption|]).
  intros slot v Hv. rewrite (same_arrays_get_slot _ _ _ Hs) in Hv. eauto.
Qed.

Lemma midi_inv_slot m slot :
  midi_inv m -> 0 <= slot < 4 -> exists v, get_slot slot m = Some v /\ slot_inv v.
Proof.
  intros (H1 & H2 & H3 & H4 & H5) Hslot.
  unfold MIDI_DEVS in *.
  destruct (lookup_lt_is_Some_2 (status m) (Z.to_nat slot)) as [st Est]; [lia|].
  destruct (lookup_lt_is_Some_2 (cmd m) (Z.to_nat slot)) as [c Ec]; [lia|].
  destruct (lookup_lt_is_Some_2 (sysex m) (Z.to_nat slot)) as [sx Esx]; [lia|].
  assert (E : get_slot slot m = Some (mkSlot st c sx)).
  { unfold get_slot. destruct (Z.leb_spec 0 slot); [|lia]. rewrite Est, Ec, Esx. reflexivity. }
  eexists. split; [exact E|]. eapply H5. exact E.
Qed.

Lemma get_slot_range m slot v : midi_inv m -> get_slot slot m = Some v -> 0 <= slot < 4.
Proof.
  intros (H1 & H2 & H3 & H4 & H5) Hv. apply get_slot_inv in Hv as (H0 & Hst & _).
  apply lookup_lt_Some in Hst. unfold MIDI_DEVS in *. lia.
Qed.

Lemma midi_inv_put m slot v v' rt :
  midi_inv m -> get_slot slot m = Some v -> slot_inv v' -> length rt = 8%nat ->
  midi_inv (put_slot slot v' rt m).
Proof.
  intros Hinv Hget Hv' Hrt.
  pose proof (get_slot_range _ _ _ Hinv Hget) as Hr.
  destruct Hinv as (H1 & H2 & H3 & H4 & H5).
  unfold midi_inv, put_slot. simpl. rewrite !length_insert.
  do 4 (split; [assumption|]).
  intros slot' v'' Hv''.
  destruct (Z.eq_dec slot' slot) as [->|Hne].
  - change (get_slot slot (put_slot slot v' rt m) = Some v'') in Hv''.
    rewrite (get_put_same _ _ _ _ _ Hget) in Hv''. congruence.
  - change (get_slot slot' (put_slot slot v' rt m) = Some v'') in Hv''.
    assert (0 <= slot') by (unfold get_slot in Hv''; destruct (Z.leb_spec 0 slot'); [lia|discriminate]).
    rewrite get_put_other in Hv'' by lia. eauto.
Qed.

Lemma midi_inv_zero : midi_inv midi_zero.
Proof.
  unfold midi_inv. split; [reflexivity|]. do 3 (split; [apply length_replicate|]).
  intros slot v Hv. apply get_slot_inv in Hv as (_ & H1 & H2 & H3).
  unfold midi_zero in H1, H2, H3. cbn [status cmd sysex] in H1, H2, H3.
  apply lookup_replicate in H1 as [E1 _], H2 as [E2 _], H3 as [E3 _].
  unfold slot_inv. rewrite E1, E2, E3. cbn [cmd_buf cmd_len cmd_pos sysex_buf sysex_used].
  rewrite !length_replicate. unfold MIDI_SYSEX_SIZE.
  repeat split; try lia; discriminate.
Qed.

Lemma MIDI_RawOutByte_inv data slot m w :
  midi_inv m -> 0 <= slot < 4 ->
  exists m' w', MIDI_RawOutByte data slot m w = Some (m', w') /\ midi_inv m'.
Proof.
  intros Hinv Hslot.
  destruct (midi_inv_slot _ _ Hinv Hslot) as (v & Hget & Hv).
  rewrite (MIDI_RawOutByte_on_slot _ _ _ _ _ Hget).
  destruct (RawOutByte_slot_inv data v (rt_buf m) w Hv) as (v' & rt' & w' & -> & Hv' & Hrt');
    [apply Hinv|].
  simpl. eexists _, _. split; [reflexivity|]. eapply midi_inv_put; eassumption.
Qed.

Lemma MIDI_RawOutByte_preserves data slot m w m' w' :
  midi_inv m -> MIDI_RawOutByte data slot m w = Some (m', w') -> midi_inv m'.
Proof.
  intros Hinv H.
  assert (Hslot : 0 <= slot < 4).
  { unfold MIDI_RawOutByte in H. destruct (get_slot slot m) eqn:E; [|discriminate].
    eapply get_slot_range; eassumption. }
  destruct (MIDI_RawOutByte_inv data slot m w Hinv Hslot) as (m1 & w1 & E & Hinv1).
  congruence.
Qed.

Lemma MIDI_ClearBuffer_preserves slot m m' :
  midi_inv m -> MIDI_ClearBuffer slot m = Some m' -> midi_inv m'.
Proof.
  intros Hinv H. unfold MIDI_ClearBuffer in H.
  destruct (get_slot slot m) as [v|] eqn:E; [|discriminate]. simpl in H. injection H as <-.
  pose proof Hinv as (H1 & _ & _ & _ & H5).
  destruct (H5 _ _ E) as (Hc & Hs & Hl & Hp & Hu & Hf).
  eapply midi_inv_put; try eassumption.
  unfold slot_inv. simpl. repeat split; try lia; try assumption; discriminate.
Qed.

Lemma getdefault_same_arrays conf handlers : forall m w m' w',
  getdefault conf handlers m w = Some (m', w') -> same_arrays m m'.
Proof.
  induction handlers as [|h next IH]; intros m w m' w' H; simpl in H; [discriminate|].
  destruct (String.eqb _ "fluidsynth").
  { apply IH in H. destruct H as (? & ? & ? & ?). repeat split; assumption. }
  destruct (String.eqb _ "mt32").
  { apply IH in H. destruct H as (? & ? & ? & ?). repeat split; assumption. }
  destruct (Open h conf w) as [[|] w1].
  - injection H as <- <-. repeat split.
  - apply IH in H. destruct H as (? & ? & ? & ?). repeat split; assumption.
Qed.

Lemma find_device_same_arrays dev conf all handlers : forall m w m' w',
  find_device dev conf handlers all m w = Some (m', w') -> same_arrays m m'.
Proof.
  induction handlers as [|h next IH]; intros m w m' w' H; simpl in H.
  - eapply getdefault_same_arrays; eassumption.
  - destruct (String.eqb dev _); [|eauto].
    destruct (Open h conf w) as [[|] w1]; simpl in H.
    + injection H as <- <-. repeat split.
    + eapply getdefault_same_arrays; eassumption.
Qed.

Lemma select_handler_same_arrays dev conf hl m w m' w' :
  select_handler dev conf hl m w = Some (m', w') -> same_arrays m m'.
Proof.
  unfold select_handler. destruct (_ || _).
  - apply getdefault_same_arrays.
  - apply find_device_same_arrays.
Qed.

Lemma ctor_slot_preserves slot fullconf m w fullconf' m' w' :
  midi_inv m -> ctor_slot slot (fullconf, m, w) = Some (fullconf', m', w') -> midi_inv m'.
Proof.
  intros Hinv H. unfold ctor_slot in H.
  destruct (get_slot slot m) as [v|] eqn:E; [|discriminate]. simpl in H.
  pose proof Hinv as (H1 & _ & _ & _ & H5).
  destruct (H5 _ _ E) as (Hc & Hs & Hl & Hp & Hu & Hf).
  destruct (index 0 "delaysysex" fullconf); simpl in H; inversion H; subst;
    (eapply midi_inv_put; try eassumption);
    unfold slot_inv; simpl; repeat split; try lia; try assumption; discriminate.
Qed.

Lemma ctor_slots_preserves slots : forall fullconf m w fullconf' m' w',
  midi_inv m -> ctor_slots slots (fullconf, m, w) = Some (fullconf', m', w') -> midi_inv m'.
Proof.
  induction slots as [|slot rest IH]; intros fullconf m w fullconf' m' w' Hinv H;
    cbn [ctor_slots] in H.
  - injection H as <- <- <-. assumption.
  - destruct (ctor_slot slot (fullconf, m, w)) as [[[f1 m1] w1]|] eqn:E;
      simpl in H; [|discriminate].
    eapply IH; [|eassumption]. eapply ctor_slot_preserves; eassumption.
Qed.

Lemma MIDI_ctor_preserves lowcase trim dev cfg hl m w m' w' :
  midi_inv m -> MIDI_ctor lowcase trim dev cfg hl m w = Some (m', w') -> midi_inv m'.
Proof.
  intros Hinv H. unfold MIDI_ctor in H.
  destruct (ctor_slots _ _) as [[[f1 m1] w1]|] eqn:E; simpl in H; [|discriminate].
  eapply midi_inv_same_arrays; [eapply select_handler_same_arrays; eassumption|].
  eapply ctor_slots_preserves; eassumption.
Qed.

Lemma MIDI_RawOutRTByte_same_arrays bits le data m w :
  same_arrays m (fst (MIDI_RawOutRTByte bits le data m w)).
Proof.
  unfold MIDI_RawOutRTByte. destruct (negb (realtime m)); [apply same_arrays_refl|].
  destruct (_ && _); [apply same_arrays_refl|]. repeat split.
Qed.

Lemma midi_reachable_inv m : midi_reachable m -> midi_inv m.
Proof.
  induction 1.
  - apply midi_inv_zero.
  - eapply MIDI_ctor_preserves; eassumption.
  - eapply MIDI_RawOutByte_preserves; eassumption.
  - eapply midi_inv_same_arrays; [apply MIDI_RawOutRTByte_same_arrays|assumption].
  - eapply MIDI_ClearBuffer_preserves; eassumption.
Qed.
End MidiInvariant.

Section FixedTraffic.
Implicit Types (v : Slot) (w : World) (rt : list Z).




End FixedTraffic.


Arguments pace : simpl never.

Create Rewrite HintDb dispatch.
#[local] Hint Rewrite dispatches_emit dispatches_when_capturing dispatches_pace
  dispatches_elapse dispatches_Delay : dispatch.

Ltac dispatch_norm :=
  autorewrite with dispatch; cbn [is_dispatch]; rewrite ?app_nil_r, <- ?app_assoc.

Lemma bit7_byte data : 0 <= data < 256 -> bit7 data = (0x80 <=? data).
Proof.
  intros Hd.
  assert (H : forallb (fun n => Bool.eqb (bit7 (Z.of_nat n)) (0x80 <=? Z.of_nat n)) (seq 0 256) = true)
    by (vm_compute; reflexivity).
  rewrite forallb_forall in H.
  specialize (H (Z.to_nat data)). rewrite Z2Nat.id in H by lia.
  apply Bool.eqb_prop, H, in_seq. lia.
Qed.

Ltac explode_sysex_buf sbuf Hlen :=
  do 8 (destruct sbuf as [|? sbuf];
        [exfalso; revert Hlen; unfold MIDI_SYSEX_SIZE; simpl; lia|]).


Section Steps.
Implicit Types (v : Slot) (w : World) (rt : list Z) (sx : sysex_t).

Lemma bit7_realtime data : 0xf8 <= data < 256 -> bit7 data = true.
Proof. intros H. rewrite bit7_byte by lia. apply Z.leb_le. lia. Qed.

(** The slot is not collecting a sysex and [0xF0] arrives. *)
Lemma RawOutByte_sysex_start v rt w :
  s_status v <> 0xf0 -> sysex_buf (s_sysex v) <> [] ->
  RawOutByte_slot 0xf0 v rt w =
    Some (mkSlot 0xf0 (mkCmd 0 0 (cmd_buf (s_cmd v)))
            (mkSysex (<[0%nat := 0xf0]> (sysex_buf (s_sysex v))) 1
               (sysex_delay (s_sysex v)) (sysex_start (s_sysex v))),
          rt, pace (s_sysex v) w).
Proof.
  intros Hst Hne. unfold RawOutByte_slot, sysex_block. simpl (0xf8 <=? 0xf0).
  cbv iota. destruct (Z.eqb_spec (s_status v) 0xf0); [contradiction|].
  destruct (sysex_buf (s_sysex v)) as [|x buf] eqn:E; [contradiction|].
  unfold status_block. simpl. rewrite E. reflexivity.
Qed.

(** A data byte while a sysex is collected. *)
Lemma RawOutByte_sysex_data data v rt w :
  s_status v = 0xf0 -> 0 <= data < 0x80 ->
  RawOutByte_slot data v rt w =
    if sysex_used (s_sysex v) <? MIDI_SYSEX_SIZE - 1 then
      buf ← arr_set (sysex_buf (s_sysex v)) (sysex_used (s_sysex v)) data;
      Some (mkSlot (s_status v) (s_cmd v)
              (mkSysex buf (sysex_used (s_sysex v) + 1)
                 (sysex_delay (s_sysex v)) (sysex_start (s_sysex v))),
            rt, pace (s_sysex v) w)
    else Some (v, rt, pace (s_sysex v) w).
Proof.
  intros Hst Hd. unfold RawOutByte_slot, sysex_block.
  destruct (Z.leb_spec 0xf8 data); [lia|].
  rewrite Hst. simpl (0xf0 =? 0xf0). cbv iota.
  rewrite bit7_byte by lia. destruct (Z.leb_spec 0x80 data); [lia|]. simpl negb. cbv iota.
  destruct (_ <? _); [|reflexivity].
  destruct (arr_set _ _ _); reflexivity.
Qed.

(** A status byte that is not a realtime byte ends the sysex. *)
Lemma RawOutByte_sysex_end data v rt w :
  s_status v = 0xf0 -> 0x80 <= data < 0xf8 ->
  RawOutByte_slot data v rt w =
    '(sx', w') ← sysex_finish (s_sysex v) (pace (s_sysex v) w);
    v1 ← status_block data (mkSlot (s_status v) (s_cmd v) sx');
    '(v2, w2) ← cmd_block data v1 w';
    Some (v2, rt, w2).
Proof.
  intros Hst Hd. unfold RawOutByte_slot, sysex_block.
  destruct (Z.leb_spec 0xf8 data); [lia|].
  rewrite Hst. simpl (0xf0 =? 0xf0). cbv iota.
  rewrite bit7_byte by lia. destruct (Z.leb_spec 0x80 data); [|lia]. simpl negb. cbv iota.
  destruct (sysex_finish _ _) as [[sx' w']|]; reflexivity.
Qed.

Lemma sysex_finish_spec sx w :
  0 <= sysex_used sx < Z.of_nat (length (sysex_buf sx)) ->
  let fin := terminated sx in
  let played := PlaySysex (take (Z.to_nat (sysex_used fin)) (sysex_buf fin)) (sysex_used fin) in
  exists sx' w' evs,
    sysex_finish sx w = Some (sx', w') /\
    sysex_buf sx' = sysex_buf fin /\ sysex_used sx' = sysex_used fin /\
    trace w' = trace w ++ evs /\
    dispatches w' = dispatches w ++ (if short_mt32 fin then [] else [played]) /\
    (if short_mt32 fin
     then sx' = fin /\ In skip_message evs /\ quiet evs
     else In played evs /\
          if sysex_start sx =? 0 then sx' = fin
          else sysex_delay sx' = next_delay fin /\ sysex_start sx' = GetTicks (emit played w)).
Proof.
  intros Hu fin played. unfold sysex_finish.
  rewrite arr_set_Some by lia. cbn [mbind option_bind].
  fold (terminated sx). fold fin.
  set (cap := CAPTURE_AddMidi true (sysex_used fin - 1)
                (take (Z.to_nat (sysex_used fin - 1)) (drop 1 (sysex_buf fin)))).
  destruct (short_mt32 fin) eqn:Hshort.
  - eexists _, _,
      ([skip_message; LOG "Sysex message size"] ++ if CaptureState_MIDI w then [cap] else []).
    split; [reflexivity|]. split; [reflexivity|]. split; [reflexivity|].
    split; [rewrite trace_when_capturing, !trace_emit, !CaptureState_emit, <- !app_assoc; reflexivity|].
    split; [dispatch_norm; reflexivity|].
    split; [reflexivity|]. split; [left; reflexivity|].
    unfold quiet. destruct (CaptureState_MIDI w); repeat constructor.
  - assert (Hs : negb (sysex_start fin =? 0) = negb (sysex_start sx =? 0)) by reflexivity.
    rewrite Hs. destruct (sysex_start sx =? 0) eqn:E0; cbn [negb].
    + eexists _, _, ([played; LOG "Sysex message size"] ++ if CaptureState_MIDI w then [cap] else []).
      split; [reflexivity|]. split; [reflexivity|]. split; [reflexivity|].
      split; [rewrite trace_when_capturing, !trace_emit, !CaptureState_emit, <- !app_assoc; reflexivity|].
      split; [dispatch_norm; reflexivity|]. split; [left; reflexivity|reflexivity].
    + eexists _, _, ([played; LOG "Sysex message size"] ++ if CaptureState_MIDI w then [cap] else []).
      split; [reflexivity|]. split; [reflexivity|]. split; [reflexivity|].
      split; [rewrite trace_when_capturing, !trace_emit, !CaptureState_emit, <- !app_assoc; reflexivity|].
      split; [dispatch_norm; reflexivity|]. split; [left; reflexivity|]. split; reflexivity.
Qed.
End Steps.

Arguments RawOutByte_slot : simpl never.

Ltac run_step :=
  cbv -[RawOutByte_slot sysex_finish short_mt32 next_delay terminated
        pace elapse emit when_capturing dispatches GetTicks].

(** Rewrite the first call of the chain with a step lemma. *)
Ltac step_with lem :=
  match goal with
  | |- context [RawOutByte_slot ?d ?v ?rt ?w] =>
      rewrite (lem d v rt w) by (try reflexivity; try discriminate; lia)
  end; run_step.

Lemma sysex_frame_on_slot (v : Slot) (rt : list Z) (w : World) (t1 t2 t3 t4 t5 t6 t7 : Z) :
  s_status v = 0 -> cmd_pos (s_cmd v) = 0 -> cmd_len (s_cmd v) = 0 ->
  sysex_used (s_sysex v) = 0 ->
  Z.of_nat (length (sysex_buf (s_sysex v))) = MIDI_SYSEX_SIZE ->
  exists v' w',
    feed_slot [(t1, 0xF0); (t2, 0x41); (t3, 0x10); (t4, 0x00); (t5, 0x04); (t6, 0x00); (t7, 0xF7)]
              v rt w = Some (v', rt, w') /\
    dispatches w' = dispatches w ++ [PlaySysex [0xF0; 0x41; 0x10; 0x00; 0x04; 0x00; 0xF7] 7] /\
    s_status v' = 0xF7 /\ sysex_used (s_sysex v') = 7.
Proof.
  intros Hst Hpos Hlen Hused Hbuf.
  destruct v as [st [len pos cbuf] [sbuf used dl start]]. simpl in *. subst.
  explode_sysex_buf sbuf Hbuf. clear Hbuf.
  cbn [feed_slot].
  rewrite RawOutByte_sysex_start by discriminate. run_step.
  do 5 step_with RawOutByte_sysex_data.
  step_with RawOutByte_sysex_end.
  match goal with |- context [sysex_finish ?sx ?w0] =>
    destruct (sysex_finish_spec sx w0) as (sx' & w' & evs & -> & Ebuf & Eused & _ & Hd & _);
      [simpl; lia|]
  end.
  run_step.
  eexists _, _. split; [reflexivity|]. split; [|split; [reflexivity|exact Eused]].
  rewrite Hd.
  match goal with |- context [short_mt32 ?f] =>
    assert (Hs : short_mt32 f = false) by (destruct start; reflexivity); rewrite Hs
  end.
  dispatch_norm. reflexivity.
Qed.

(** C5. On a freshly cleared slot the bytes F0 41 10 00 04 00 F7, however
    far apart in time and whether or not pacing is armed, cause exactly
    one call of the backend: [PlaySysex] with the 7 bytes F0 41 10 00 04
    00 F7, the terminator being the last of them. *)
Theorem sysex_frame_dispatched_once
    (m : DB_Midi) (w : World) (slot : Z) (v : Slot) (t1 t2 t3 t4 t5 t6 t7 : Z) :
  get_slot slot m = Some v ->
  s_status v = 0 -> cmd_pos (s_cmd v) = 0 -> cmd_len (s_cmd v) = 0 ->
  sysex_used (s_sysex v) = 0 ->
  Z.of_nat (length (sysex_buf (s_sysex v))) = MIDI_SYSEX_SIZE ->
  exists m' w' v' bytes,
    feed [(t1, 0xF0); (t2, 0x41); (t3, 0x10); (t4, 0x00); (t5, 0x04); (t6, 0x00); (t7, 0xF7)]
         slot m w = Some (m', w') /\
    dispatches w' = dispatches w ++ [PlaySysex bytes 7] /\
    bytes = [0xF0; 0x41; 0x10; 0x00; 0x04; 0x00; 0xF7] /\
    Z.of_nat (length bytes) = 7 /\ last bytes = Some 0xF7 /\
    get_slot slot m' = Some v' /\
    s_status v' = 0xF7 /\ sysex_used (s_sysex v') = 7.
Proof.
  intros Hget Hst Hpos Hlen Hused Hbuf.
  destruct (sysex_frame_on_slot v (rt_buf m) w t1 t2 t3 t4 t5 t6 t7 Hst Hpos Hlen Hused Hbuf)
    as (v' & w' & E & Hd & Hst' & Hused').
  exists (put_slot slot v' (rt_buf m) m), w', v', [0xF0; 0x41; 0x10; 0x00; 0x04; 0x00; 0xF7].
  split; [rewrite (feed_on_slot _ _ _ _ _ Hget), E; reflexivity|].
  split; [exact Hd|]. split; [reflexivity|]. split; [reflexivity|]. split; [reflexivity|].
  split; [eapply get_put_same; eassumption|]. split; assumption.
Qed.

Lemma sysex_frame_dispatched_once_witness :
  exists m' w' v' bytes,
    feed [(0, 0xF0); (0, 0x41); (0, 0x10); (0, 0x00); (0, 0x04); (0, 0x00); (0, 0xF7)]
         0 plain_midi plain_world = Some (m', w') /\
    dispatches w' = dispatches plain_world ++ [PlaySysex bytes 7] /\
    bytes = [0xF0; 0x41; 0x10; 0x00; 0x04; 0x00; 0xF7] /\
    Z.of_nat (length bytes) = 7 /\ last bytes = Some 0xF7 /\
    get_slot 0 m' = Some v' /\
    s_status v' = 0xF7 /\ sysex_used (s_sysex v') = 7.
Proof.
  apply (sysex_frame_dispatched_once plain_midi plain_world 0 (slot0 plain_midi));
    vm_compute; reflexivity.
Defined.

Section Pacing.
Implicit Types (v : Slot) (w : World) (sx : sysex_t).





End Pacing.

Section Latching.
Implicit Types (v : Slot) (w : World) (sx : sysex_t).

Lemma trace_pace sx w : exists evs, trace (pace sx w) = trace w ++ evs /\ quiet evs.
Proof.
  unfold pace. destruct (_ =? 0).
  - exists []. split; [symmetry; apply app_nil_r|constructor].
  - destruct (_ <? _).
    + eexists. split; [reflexivity|]. repeat constructor.
    + exists []. split; [symmetry; apply app_nil_r|constructor].
Qed.

Lemma status_block_latch data v :
  bit7 data = true -> sysex_buf (s_sysex v) <> [] ->
  exists v',
    status_block data v = Some v' /\
    s_status v' = data /\
    cmd_len (s_cmd v') = MIDI_evt_len data /\ cmd_pos (s_cmd v') = 0 /\
    cmd_buf (s_cmd v') = cmd_buf (s_cmd v) /\
    sysex_delay (s_sysex v') = sysex_delay (s_sysex v) /\
    sysex_start (s_sysex v') = sysex_start (s_sysex v) /\
    sysex_used (s_sysex v') = (if data =? 0xf0 then 1 else sysex_used (s_sysex v)).
Proof.
  intros Hb Hne. unfold status_block. rewrite Hb.
  destruct (data =? 0xf0).
  - destruct (sysex_buf (s_sysex v)) as [|x buf] eqn:E; [contradiction|].
    eexists. split; [reflexivity|]. repeat split.
  - eexists. split; [reflexivity|]. repeat split.
Qed.

Lemma cmd_block_first data v w :
  cmd_pos (s_cmd v) = 0 -> cmd_buf (s_cmd v) <> [] ->
  exists v' w' evs,
    cmd_block data v w = Some (v', w') /\
    s_status v' = s_status v /\ s_sysex v' = s_sysex v /\
    cmd_len (s_cmd v') = cmd_len (s_cmd v) /\
    cmd_pos (s_cmd v') = (if cmd_len (s_cmd v) =? 0 then 0 else 1) /\
    trace w' = trace w ++ evs /\ quiet evs.
Proof.
  intros Hpos Hne. unfold cmd_block. rewrite Hpos.
  destruct (cmd_len (s_cmd v) =? 0) eqn:E0; cbn [negb].
  - exists v, w, []. repeat split; try assumption; [symmetry; apply app_nil_r|constructor].
  - destruct (cmd_buf (s_cmd v)) as [|x buf] eqn:E; [contradiction|].
    cbn -[Z.leb]. destruct (_ <=? _) eqn:Ele.
    + eexists _, _, _. split; [reflexivity|]. cbn [s_status s_sysex s_cmd cmd_len cmd_pos].
      do 4 (split; [reflexivity|]).
      split; [rewrite trace_emit, trace_when_capturing, <- app_assoc; reflexivity|].
      unfold quiet. destruct (CaptureState_MIDI w); repeat constructor.
    + eexists _, _, []. split; [reflexivity|]. cbn [s_status s_sysex s_cmd cmd_len cmd_pos].
      do 4 (split; [reflexivity|]). split; [symmetry; apply app_nil_r|constructor].
Qed.
End Latching.

Lemma RawOutByte_sysex_end_spec data (v : Slot) (rt : list Z) (w : World) :
  slot_inv v -> s_status v = 0xf0 -> 0x80 <= data < 0xf8 ->
  let fin := terminated (s_sysex v) in
  let played := PlaySysex (take (Z.to_nat (sysex_used fin)) (sysex_buf fin)) (sysex_used fin) in
  exists v' w' evs,
    RawOutByte_slot data v rt w = Some (v', rt, w') /\
    s_status v' = data /\
    cmd_len (s_cmd v') = MIDI_evt_len data /\
    cmd_pos (s_cmd v') = (if MIDI_evt_len data =? 0 then 0 else 1) /\
    sysex_used (s_sysex v') = (if data =? 0xf0 then 1 else sysex_used fin) /\
    trace w' = trace w ++ evs /\
    (if short_mt32 fin
     then sysex_delay (s_sysex v') = sysex_delay (s_sysex v) /\
          sysex_start (s_sysex v') = sysex_start (s_sysex v) /\
          In skip_message evs /\ quiet evs
     else In played evs /\
          if sysex_start (s_sysex v) =? 0
          then sysex_delay (s_sysex v') = sysex_delay (s_sysex v) /\
               sysex_start (s_sysex v') = 0
          else sysex_delay (s_sysex v') = next_delay fin).
Proof.
  intros (Hc & Hs & Hl & Hp & Hu & Hf) Hst Hd fin played.
  specialize (Hf Hst). unfold MIDI_SYSEX_SIZE in *.
  rewrite RawOutByte_sysex_end by assumption.
  destruct (trace_pace (s_sysex v) w) as (evs0 & Et0 & Hq0).
  destruct (sysex_finish_spec (s_sysex v) (pace (s_sysex v) w))
    as (sx' & w1 & evs1 & -> & Ebuf & Eused & Et1 & _ & Hcase); [lia|].
  cbn [mbind option_bind].
  destruct (status_block_latch data (mkSlot (s_status v) (s_cmd v) sx'))
    as (v1 & -> & Est1 & Elen1 & Epos1 & Ebuf1 & Edl1 & Estart1 & Eused1).
  { rewrite bit7_byte by lia. apply Z.leb_le. lia. }
  { cbn [s_sysex]. rewrite Ebuf. unfold terminated. cbn [sysex_buf].
    intros E. apply (f_equal length) in E. rewrite length_insert in E. simpl in E. lia. }
  cbn [mbind option_bind].
  destruct (cmd_block_first data v1 w1) as (v2 & w2 & evs2 & -> & Est2 & Esx2 & Elen2 & Epos2 & Et2 & Hq2);
    [assumption| |].
  { rewrite Ebuf1. cbn [s_cmd]. intros E. rewrite E in Hc. discriminate. }
  cbn [mbind option_bind]. cbn [s_sysex s_cmd] in *.
  exists v2, w2, (evs0 ++ evs1 ++ evs2).
  split; [reflexivity|]. split; [congruence|]. split; [congruence|].
  split; [rewrite Epos2, Elen1; reflexivity|].
  split; [rewrite Esx2, Eused1, Eused; reflexivity|].
  split; [rewrite Et2, Et1, Et0, <- !app_assoc; reflexivity|].
  fold fin in Hcase. fold played in Hcase. rewrite Esx2, Edl1, Estart1.
  destruct (short_mt32 fin).
  - destruct Hcase as (-> & Hin & Hq1). cbn [terminated sysex_delay sysex_start].
    split; [reflexivity|]. split; [reflexivity|].
    split; [apply in_or_app; right; apply in_or_app; left; exact Hin|].
    unfold quiet in *. rewrite !Forall_app. auto.
  - destruct Hcase as (Hin & Hcase).
    split; [apply in_or_app; right; apply in_or_app; left; exact Hin|].
    destruct (sysex_start (s_sysex v) =? 0) eqn:E0.
    + subst sx'. cbn [terminated sysex_delay sysex_start]. split; [reflexivity|].
      apply Z.eqb_eq. exact E0.
    + apply Hcase.
Qed.


(** C7, amended. Pacing is armed and the slot is collecting a sysex when
    a status byte ends it. If the message, with its terminator, has 4 to
    9 bytes, 0x41 as its second and 0x16 as its fourth, then the call
    logs that it skips the message and does not call [PlaySysex]; the
    status byte that ended the message is latched as on a cleared slot
    (status, length from the table, position 0 or 1), and the pacing
    delay and time stamp stay as they were. *)
Theorem short_mt32_sysex_discarded_when_paced
    (m : DB_Midi) (w : World) (slot data : Z) (v : Slot) :
  get_slot slot m = Some v -> slot_inv v ->
  s_status v = 0xf0 -> sysex_start (s_sysex v) <> 0 ->
  0x80 <= data < 0xf8 ->
  let fin := terminated (s_sysex v) in
  4 <= sysex_used fin <= 9 ->
  rd (sysex_buf fin) 1 = 0x41 -> rd (sysex_buf fin) 3 = 0x16 ->
  exists m' w' v' evs,
    MIDI_RawOutByte data slot m w = Some (m', w') /\
    trace w' = trace w ++ evs /\
    In skip_message evs /\ quiet evs /\
    get_slot slot m' = Some v' /\
    s_status v' = data /\
    cmd_len (s_cmd v') = MIDI_evt_len data /\
    cmd_pos (s_cmd v') = (if MIDI_evt_len data =? 0 then 0 else 1) /\
    sysex_used (s_sysex v') = (if data =? 0xf0 then 1 else sysex_used fin) /\
    sysex_delay (s_sysex v') = sysex_delay (s_sysex v) /\
    sysex_start (s_sysex v') = sysex_start (s_sysex v).
Proof.
  intros Hget Hinv Hst Harmed Hd fin Hlen H1 H3.
  destruct (RawOutByte_sysex_end_spec data v (rt_buf m) w Hinv Hst Hd)
    as (v' & w' & evs & E & Est & Ecl & Ecp & Eu & Et & Hcase).
  fold fin in Hcase, Eu.
  assert (Hshort : short_mt32 fin = true).
  { unfold short_mt32. rewrite H1, H3.
    change (sysex_start fin) with (sysex_start (s_sysex v)).
    destruct (Z.eqb_spec (sysex_start (s_sysex v)) 0); [contradiction|].
    destruct (Z.leb_spec 4 (sysex_used fin)); [|lia].
    destruct (Z.leb_spec (sysex_used fin) 9); [|lia]. reflexivity. }
  rewrite Hshort in Hcase. destruct Hcase as (Edl & Estart & Hin & Hq).
  exists (put_slot slot v' (rt_buf m) m), w', v', evs.
  split; [rewrite (MIDI_RawOutByte_on_slot _ _ _ _ _ Hget), E; reflexivity|].
  split; [exact Et|]. split; [exact Hin|]. split; [exact Hq|].
  split; [eapply get_put_same; eassumption|].
  repeat split; assumption.
Qed.


Section Sequences.
Implicit Types (m : DB_Midi) (w : World).

Lemma feed_inv input : forall slot m w,
  midi_inv m -> 0 <= slot < 4 ->
  exists m' w', feed input slot m w = Some (m', w') /\ midi_inv m'.
Proof.
  induction input as [|[dt data] rest IH]; intros slot m w Hinv Hslot; cbn [feed].
  - eauto.
  - destruct (MIDI_RawOutByte_inv data slot m (elapse dt w) Hinv Hslot) as (m1 & w1 & -> & Hinv1).
    cbn [mbind option_bind]. apply IH; assumption.
Qed.

Lemma feed_reachable input : forall slot m w m' w',
  midi_reachable m -> Forall (fun x => 0 <= snd x < 256) input ->
  feed input slot m w = Some (m', w') -> midi_reachable m'.
Proof.
  induction input as [|[dt data] rest IH]; intros slot m w m' w' Hr Hin H; cbn [feed] in H.
  - injection H as <- <-. exact Hr.
  - apply Forall_cons in Hin as [Hd Hrest]. cbn [snd] in Hd.
    destruct (MIDI_RawOutByte data slot m (elapse dt w)) as [[m1 w1]|] eqn:E;
      cbn [mbind option_bind] in H; [|discriminate].
    eapply IH; [|exact Hrest|exact H].
    eapply reach_RawOutByte; eassumption.
Qed.
End Sequences.

(** C8. In every state the program can reach, any sequence of bytes fed
    to any of the four slots is consumed without a write outside an
    array, and leaves [sysex.used] at most [MIDI_SYSEX_SIZE] in buffers of
    [MIDI_SYSEX_SIZE] bytes. A data byte arriving while a sysex is
    collected is stored at [used], which then grows by one, only while
    [used < MIDI_SYSEX_SIZE - 1]; otherwise the sysex is left as it is, so
    that the last element stays free for the terminator. *)
Theorem sysex_buffer_writes_stay_in_bounds (m : DB_Midi) (slot : Z) (w : World) :
  midi_reachable m -> 0 <= slot < 4 ->
  (forall input, Forall (fun x => 0 <= snd x < 256) input ->
     exists m' w',
       feed input slot m w = Some (m', w') /\ midi_reachable m' /\
       forall s u, get_slot s m' = Some u ->
         0 <= sysex_used (s_sysex u) <= MIDI_SYSEX_SIZE /\
         Z.of_nat (length (sysex_buf (s_sysex u))) = MIDI_SYSEX_SIZE) /\
  (forall data v, get_slot slot m = Some v -> s_status v = 0xf0 -> 0 <= data < 0x80 ->
     exists m' w' v',
       MIDI_RawOutByte data slot m w = Some (m', w') /\ get_slot slot m' = Some v' /\
       if sysex_used (s_sysex v) <? MIDI_SYSEX_SIZE - 1
       then sysex_buf (s_sysex v') =
              <[Z.to_nat (sysex_used (s_sysex v)) := data]> (sysex_buf (s_sysex v)) /\
            sysex_used (s_sysex v') = sysex_used (s_sysex v) + 1 /\
            sysex_used (s_sysex v') < Z.of_nat (length (sysex_buf (s_sysex v')))
       else s_sysex v' = s_sysex v).
Proof.
  intros Hr Hslot. pose proof (midi_reachable_inv m Hr) as Hinv. split.
  - intros input Hin.
    destruct (feed_inv input slot m w Hinv Hslot) as (m' & w' & E & Hinv').
    exists m', w'. split; [exact E|]. split; [eapply feed_reachable; eassumption|].
    intros s u Hu. destruct Hinv' as (_ & _ & _ & _ & H5).
    destruct (H5 s u Hu) as (_ & Hlen & _ & _ & Hused & _). auto.
  - intros data v Hget Hst Hd.
    destruct Hinv as (_ & _ & _ & _ & H5).
    destruct (H5 slot v Hget) as (_ & Hlen & _ & _ & Hused & Hf). specialize (Hf Hst).
    rewrite (MIDI_RawOutByte_on_slot _ _ _ _ _ Hget), RawOutByte_sysex_data by assumption.
    unfold MIDI_SYSEX_SIZE in *.
    destruct (Z.ltb_spec (sysex_used (s_sysex v)) (8192 - 1)).
    + rewrite arr_set_Some by lia. cbn [mbind option_bind].
      eexists _, _, _. split; [reflexivity|]. split; [eapply get_put_same; eassumption|].
      cbn [s_sysex sysex_buf sysex_used]. rewrite length_insert.
      split; [reflexivity|]. split; [reflexivity|]. lia.
    + cbn [mbind option_bind]. eexists _, _, _. split; [reflexivity|].
      split; [eapply get_put_same; eassumption|]. reflexivity.
Qed.

Ltac by_evaluation := vm_compute; first [reflexivity | lia | discriminate | intros; lia].

Lemma slot_inv_evaluated (v : Slot) :
  length (cmd_buf (s_cmd v)) = 8%nat ->
  Z.of_nat (length (sysex_buf (s_sysex v))) = MIDI_SYSEX_SIZE ->
  ((0 <=? cmd_len (s_cmd v)) && (cmd_len (s_cmd v) <=? 3)
   && (0 <=? cmd_pos (s_cmd v)) && (cmd_pos (s_cmd v) <=? 2)
   && (0 <=? sysex_used (s_sysex v)) && (sysex_used (s_sysex v) <=? MIDI_SYSEX_SIZE)
   && (negb (s_status v =? 0xf0)
       || ((1 <=? sysex_used (s_sysex v)) && (sysex_used (s_sysex v) <=? MIDI_SYSEX_SIZE - 1))))
    = true ->
  slot_inv v.
Proof.
  intros Hc Hs H. unfold slot_inv.
  repeat (apply andb_prop in H as [H ?]).
  split; [assumption|]. split; [assumption|].
  repeat split; lia.
Qed.


Lemma short_mt32_sysex_discarded_when_paced_witness :
  exists m' w' v' evs,
    MIDI_RawOutByte 0xF7 0 (fst (paced_after [0xF0; 0x41; 0x10; 0x16; 0x12])) paced_world
      = Some (m', w') /\
    trace w' = trace paced_world ++ evs /\
    In skip_message evs /\ quiet evs /\
    get_slot 0 m' = Some v' /\ s_status v' = 0xF7.
Proof.
  destruct (short_mt32_sysex_discarded_when_paced
              (fst (paced_after [0xF0; 0x41; 0x10; 0x16; 0x12])) paced_world 0 0xF7
              (slot0 (fst (paced_after [0xF0; 0x41; 0x10; 0x16; 0x12]))))
    as (m' & w' & v' & evs & E & Et & Hin & Hq & G & Est & _).
  - vm_compute. reflexivity.
  - apply slot_inv_evaluated; vm_compute; reflexivity.
  - vm_compute. reflexivity.
  - vm_compute. discriminate.
  - lia.
  - vm_compute. split; discriminate.
  - vm_compute. reflexivity.
  - vm_compute. reflexivity.
  - exists m', w', v', evs. repeat split; assumption.
Defined.


(** C7 as stated fails: in a session without [delaysysex], the 6-byte
    message F0 41 10 16 12 F7 is handed to [PlaySysex] like any other, and
    nothing is logged about skipping it. *)
Lemma short_mt32_sysex_played_when_unpaced :
  match feed_bytes [0xF0; 0x41; 0x10; 0x16; 0x12; 0xF7] 0 plain_midi plain_world with
  | Some (m', w') =>
      let sx := s_sysex (slot0 m') in
      GetName <$> handler plain_midi = Some "none"%string /\
      sysex_start sx = 0 /\
      sysex_used sx = 6 /\ rd (sysex_buf sx) 1 = 0x41 /\ rd (sysex_buf sx) 3 = 0x16 /\
      dispatches w' = [PlaySysex [0xF0; 0x41; 0x10; 0x16; 0x12; 0xF7] 6] /\
      ~ In skip_message (trace w')
  | None => False
  end.
Proof.
  vm_compute. repeat split.
  intros H. repeat (destruct H as [H|H]; [discriminate H|]). exact H.
Qed.

Lemma sysex_buffer_writes_stay_in_bounds_witness :
  exists m' w',
    feed [(0, 0xF0); (0, 0x41); (0, 0x10); (0, 0xF7)] 0 plain_midi plain_world = Some (m', w') /\
    midi_reachable m' /\
    forall s u, get_slot s m' = Some u ->
      0 <= sysex_used (s_sysex u) <= MIDI_SYSEX_SIZE /\
      Z.of_nat (length (sysex_buf (s_sysex u))) = MIDI_SYSEX_SIZE.
Proof.
  destruct (sysex_buffer_writes_stay_in_bounds plain_midi 0 plain_world) as [H _].
  - apply (reach_MIDI_ctor (fun s => s) (fun s => s) "auto" EmptyString (registered [])
             midi_zero (mkWorld 1000 false []) plain_midi plain_world reach_zero).
    vm_compute. reflexivity.
  - lia.
  - apply H. repeat constructor; simpl; lia.
Defined.


Section Selection.
Implicit Types (m : DB_Midi) (w : World) (h : MidiHandler) (conf dev : string).

Lemma registered_eq drivers : registered drivers = rev drivers ++ [Midi_none].
Proof.
  unfold registered, MidiHandler_ctor.
  generalize [Midi_none]. induction drivers as [|h rest IH]; intros acc; cbn [fold_left rev].
  - reflexivity.
  - rewrite IH, <- app_assoc. reflexivity.
Qed.

(** The loop under [getdefault:] opens the first backend that is
    eligible and can be opened. *)
Lemma getdefault_auto_select conf handlers : forall m w,
  getdefault conf handlers m w =
    match auto_select conf handlers w with
    | Some (h, w') =>
        Some (activated_by_default h m, emit (LOG ("MIDI: Opened device: " ++ GetName h)) w')
    | None => None
    end.
Proof.
  unfold auto_select.
  induction handlers as [|h next IH]; intros m w; cbn [getdefault List.filter first_open].
  - reflexivity.
  - unfold auto_eligible at 1.
    destruct (String.eqb (GetName h) "fluidsynth"); cbn [negb andb].
    { rewrite IH. destruct (first_open _ _ _) as [[h' w']|]; reflexivity. }
    destruct (String.eqb (GetName h) "mt32"); cbn [negb andb].
    { rewrite IH. destruct (first_open _ _ _) as [[h' w']|]; reflexivity. }
    cbn [first_open]. destruct (Open h conf w) as [[|] w1].
    + reflexivity.
    + rewrite IH. destruct (first_open _ _ _) as [[h' w']|]; reflexivity.
Qed.

Lemma first_open_inv conf handlers : forall w h w',
  first_open conf handlers w = Some (h, w') ->
  exists before after w1,
    handlers = before ++ h :: after /\
    failed_opens conf before w = Some w1 /\
    Open h conf w1 = (true, w').
Proof.
  induction handlers as [|h0 rest IH]; intros w h w' H; cbn [first_open] in H; [discriminate|].
  destruct (Open h0 conf w) as [[|] w0] eqn:E.
  - injection H as <- <-. exists [], rest, w. repeat split. exact E.
  - destruct (IH _ _ _ H) as (before & after & w1 & -> & Hf & Ho).
    exists (h0 :: before), after, w1. split; [reflexivity|]. split; [|exact Ho].
    cbn [failed_opens]. rewrite E. exact Hf.
Qed.

Lemma first_open_fallback conf handlers : forall w,
  exists h w', first_open conf (handlers ++ [Midi_none]) w = Some (h, w').
Proof.
  induction handlers as [|h0 rest IH]; intros w; cbn [app first_open].
  - eexists _, _. reflexivity.
  - destruct (Open h0 conf w) as [[|] w0]; [eauto|apply IH].
Qed.

Lemma auto_select_registered conf drivers w :
  exists h w', auto_select conf (registered drivers) w = Some (h, w').
Proof.
  unfold auto_select. rewrite registered_eq, List.filter_app.
  change (List.filter auto_eligible [Midi_none]) with [Midi_none].
  apply first_open_fallback.
Qed.

Lemma find_device_not_found dev conf all handlers : forall m w,
  (forall h, In h handlers -> GetName h <> dev) ->
  find_device dev conf handlers all m w =
    getdefault conf all m
      (emit (LOG ("MIDI: Can't find device: " ++ dev ++ ", using default handler.")) w).
Proof.
  induction handlers as [|h next IH]; intros m w Hno; cbn [find_device]; [reflexivity|].
  destruct (String.eqb_spec dev (GetName h)) as [E|_].
  - exfalso. apply (Hno h); [left; reflexivity|]. congruence.
  - apply IH. intros h' Hin. apply Hno. right. exact Hin.
Qed.

Lemma find_device_open_failed dev conf all before h after w' : forall m w,
  (forall h', In h' before -> GetName h' <> dev) ->
  GetName h = dev -> Open h conf w = (false, w') ->
  find_device dev conf (before ++ h :: after) all m w =
    getdefault conf all m
      (emit (LOG ("MIDI: Can't open device: " ++ dev ++ " with config: '" ++ conf ++ "'")) w').
Proof.
  induction before as [|h0 rest IH]; intros m w Hno Hname Hopen; cbn [app find_device].
  - rewrite <- Hname, String.eqb_refl, Hopen. reflexivity.
  - destruct (String.eqb_spec dev (GetName h0)) as [E|_].
    + exfalso. apply (Hno h0); [left; reflexivity|]. congruence.
    + apply IH; [|assumption..]. intros h' Hin. apply Hno. right. exact Hin.
Qed.

Lemma select_handler_falls_back dev conf handler_list m w w1 :
  falls_back dev conf handler_list w w1 ->
  select_handler dev conf handler_list m w = getdefault conf handler_list m w1.
Proof.
  intros Hfb. unfold select_handler. destruct Hfb as [Hd|Ha Hd Hno|before h after w' Ha Hd -> Hno Hname Hopen].
  - destruct Hd as [-> | ->]; reflexivity.
  - apply String.eqb_neq in Ha, Hd. rewrite Ha, Hd. cbn [orb].
    apply find_device_not_found. exact Hno.
  - apply String.eqb_neq in Ha, Hd. rewrite Ha, Hd. cbn [orb].
    apply find_device_open_failed; assumption.
Qed.

End Selection.

(** C9. When the device name is "auto" or "default", or no registered
    backend has that name, or the first that has it cannot be opened,
    the selection goes through the handler list from its head, passes
    over the backends named "fluidsynth" and "mt32", and activates the
    first of the others whose [Open] succeeds, all before it having
    failed to open. Some backend is always activated this way, because
    the built-in backend "none" ends the list and opens. *)
Theorem selection_falls_back_to_first_openable_backend
    (dev conf : string) (drivers : list MidiHandler) (m : DB_Midi) (w w1 : World) :
  falls_back dev conf (registered drivers) w w1 ->
  exists h w2 before after w',
    select_handler dev conf (registered drivers) m w
      = Some (activated_by_default h m,
              emit (LOG ("MIDI: Opened device: " ++ GetName h)) w2) /\
    auto_select conf (registered drivers) w1 = Some (h, w2) /\
    List.filter auto_eligible (registered drivers) = before ++ h :: after /\
    failed_opens conf before w1 = Some w' /\
    Open h conf w' = (true, w2) /\
    GetName h <> "fluidsynth"%string /\ GetName h <> "mt32"%string /\
    last (registered drivers) = Some Midi_none.
Proof.
  intros Hfb.
  destruct (auto_select_registered conf drivers w1) as (h & w2 & Hsel).
  destruct (first_open_inv _ _ _ _ _ Hsel) as (before & after & w' & Hsplit & Hfail & Hopen).
  exists h, w2, before, after, w'.
  split; [rewrite (select_handler_falls_back _ _ _ _ _ _ Hfb), getdefault_auto_select, Hsel; reflexivity|].
  split; [exact Hsel|]. split; [exact Hsplit|]. split; [exact Hfail|]. split; [exact Hopen|].
  assert (Hel : auto_eligible h = true).
  { assert (Hin : In h (List.filter auto_eligible (registered drivers)))
      by (rewrite Hsplit; apply in_or_app; right; left; reflexivity).
    apply List.filter_In in Hin. apply Hin. }
  unfold auto_eligible in Hel. apply andb_prop in Hel as [H1 H2].
  apply negb_true_iff, String.eqb_neq in H1, H2.
  split; [exact H1|]. split; [exact H2|].
  rewrite registered_eq. apply last_snoc.
Qed.

Lemma selection_falls_back_to_first_openable_backend_witness :
  exists h w2,
    select_handler "auto" "" (registered example_drivers) midi_zero fresh_world
      = Some (activated_by_default h midi_zero,
              emit (LOG ("MIDI: Opened device: " ++ GetName h)) w2) /\
    GetName h = "none"%string.
Proof.
  destruct (selection_falls_back_to_first_openable_backend
              "auto" "" example_drivers midi_zero fresh_world fresh_world)
    as (h & w2 & before & after & w' & E & Hsel & _).
  - apply fb_auto. left. reflexivity.
  - exists h, w2. split; [exact E|].
    vm_compute in Hsel. injection Hsel as <- _. reflexivity.
Defined.

Section RealtimeOut.
Implicit Types (m : DB_Midi) (w : World).

(** When [MIDI_RawOutRTByte] calls the handler and when it does not. *)
Lemma MIDI_RawOutRTByte_gate bits le data m w :
  MIDI_RawOutRTByte bits le data m w =
    if negb (realtime m) || (negb (clockout m) && (data =? 0xf8)) then (m, w)
    else (set_cmd_r (to_Bitu bits (int_shl data 24)) m,
          emit (PlayMsg (Bitu_bytes bits le (to_Bitu bits (int_shl data 24)))) w).
Proof.
  unfold MIDI_RawOutRTByte. destruct (realtime m); cbn [negb orb]; [|reflexivity].
  destruct (negb (clockout m) && (data =? 0xf8)); reflexivity.
Qed.

Lemma MIDI_RawOutThruRTByte_gate bits le data m w :
  MIDI_RawOutThruRTByte bits le data m w =
    if thruchan m then MIDI_RawOutRTByte bits le data m w else (m, w).
Proof. reflexivity. Qed.

End RealtimeOut.

(** C10. The code at the byte 0xFA with realtime enabled: the handler is
    called once, but on a little-endian host the message it is handed
    starts with 0x00 and holds 0xFA as its fourth byte, for a [Bitu] of 32
    or 64 bits, and the length the CoreMIDI backend looks up for it is 0.
    A big-endian host with a 32-bit [Bitu] would see 0xFA first, and so
    does the backend when the same byte comes through [MIDI_RawOutByte]. *)
Theorem realtime_out_byte_is_not_the_first_of_its_message :
  let sent bits le := dispatches (snd (MIDI_RawOutRTByte bits le 0xFA paced_midi paced_world)) in
  realtime paced_midi = true /\
  sent 64 true = [PlayMsg [0; 0; 0; 0xFA; 0xFF; 0xFF; 0xFF; 0xFF]] /\
  sent 32 true = [PlayMsg [0; 0; 0; 0xFA]] /\
  PlayMsg_packet [0; 0; 0; 0xFA; 0xFF; 0xFF; 0xFF; 0xFF] = [] /\
  PlayMsg_packet [0; 0; 0; 0xFA] = [] /\
  sent 32 false = [PlayMsg [0xFA; 0; 0; 0]] /\
  (dispatches <$> (snd <$> MIDI_RawOutByte 0xFA 0 paced_midi paced_world))
    = Some [PlayMsg [0xFA; 0; 0; 0; 0; 0; 0; 0]] /\
  PlayMsg_packet [0xFA; 0; 0; 0; 0; 0; 0; 0] = [0xFA].
Proof. vm_compute. repeat split. Qed.

(** * Further properties of the MIDI router *)

Arguments MIDI_evt_len : simpl never.

Section PlainSteps.
Implicit Types (v : Slot) (w : World) (rt : list Z).

Lemma RawOutByte_plain data v rt w :
  s_status v <> 0xf0 -> data < 0xf8 ->
  RawOutByte_slot data v rt w =
    v1 ← status_block data v;
    '(v2, w2) ← cmd_block data v1 (pace (s_sysex v) w);
    Some (v2, rt, w2).
Proof.
  intros Hst Hd. unfold RawOutByte_slot, sysex_block.
  destruct (Z.leb_spec 0xf8 data); [lia|].
  destruct (Z.eqb_spec (s_status v) 0xf0); [contradiction|].
  cbn [mbind option_bind]. reflexivity.
Qed.

(** A data byte outside a sysex. *)
Lemma RawOutByte_data data v rt w :
  s_status v <> 0xf0 -> 0 <= data < 0x80 ->
  RawOutByte_slot data v rt w =
    '(v2, w2) ← cmd_block data v (pace (s_sysex v) w);
    Some (v2, rt, w2).
Proof.
  intros Hst Hd. rewrite RawOutByte_plain by (try assumption; lia).
  unfold status_block. rewrite bit7_byte by lia.
  destruct (Z.leb_spec 0x80 data); [lia|]. reflexivity.
Qed.

(** A status byte other than 0xF0 outside a sysex. *)
Lemma RawOutByte_status data v rt w :
  s_status v <> 0xf0 -> 0x80 <= data < 0xf8 -> data <> 0xf0 ->
  RawOutByte_slot data v rt w =
    '(v2, w2) ← cmd_block data
                  (mkSlot data (mkCmd (MIDI_evt_len data) 0 (cmd_buf (s_cmd v))) (s_sysex v))
                  (pace (s_sysex v) w);
    Some (v2, rt, w2).
Proof.
  intros Hst Hd Hne. rewrite RawOutByte_plain by (try assumption; lia).
  unfold status_block. rewrite bit7_byte by lia.
  destruct (Z.leb_spec 0x80 data); [|lia].
  destruct (Z.eqb_spec data 0xf0); [contradiction|]. reflexivity.
Qed.

End PlainSteps.

Ltac plain_step :=
  cbv -[RawOutByte_slot cmd_block pace elapse emit when_capturing dispatches trace
        CaptureState_MIDI ticks MIDI_evt_len app feed_slot get_slot put_slot
        List.map PlayMsg_packet].

Section Running.
Implicit Types (v : Slot) (w : World) (rt : list Z) (sx : sysex_t).

Lemma feed_slot_app a : forall b v rt w,
  feed_slot (a ++ b) v rt w = '(v', rt', w') ← feed_slot a v rt w; feed_slot b v' rt' w'.
Proof.
  induction a as [|[dt data] a IH]; intros b v rt w; cbn [feed_slot app]; [reflexivity|].
  destruct (RawOutByte_slot data v rt (elapse dt w)) as [[[v1 rt1] w1]|]; cbn [mbind option_bind];
    [apply IH|reflexivity].
Qed.

(** The byte joins a message in progress. *)
Lemma cmd_block_store data v w :
  cmd_len (s_cmd v) <> 0 -> 0 <= cmd_pos (s_cmd v) ->
  (Z.to_nat (cmd_pos (s_cmd v)) < length (cmd_buf (s_cmd v)))%nat ->
  let buf := <[Z.to_nat (cmd_pos (s_cmd v)) := data]> (cmd_buf (s_cmd v)) in
  let len := cmd_len (s_cmd v) in
  cmd_block data v w =
    Some (if len <=? cmd_pos (s_cmd v) + 1
          then (mkSlot (s_status v) (mkCmd len 1 buf) (s_sysex v),
                emit (PlayMsg buf)
                  (when_capturing (CAPTURE_AddMidi false len (take (Z.to_nat len) buf)) w))
          else (mkSlot (s_status v) (mkCmd len (cmd_pos (s_cmd v) + 1) buf) (s_sysex v), w)).
Proof.
  intros Hlen Hpos Hin buf len. unfold cmd_block.
  destruct (Z.eqb_spec (cmd_len (s_cmd v)) 0); [contradiction|]. cbn [negb].
  rewrite arr_set_Some by assumption. cbn [mbind option_bind cmd_len cmd_pos cmd_buf].
  fold buf len. destruct (len <=? _); reflexivity.
Qed.

(** The status byte [s] of a message of two or three bytes arrives. *)
Lemma status_arms s v rt w x0 tl :
  s_status v <> 0xf0 -> 0x80 <= s < 0xf8 -> 2 <= MIDI_evt_len s ->
  cmd_buf (s_cmd v) = x0 :: tl ->
  RawOutByte_slot s v rt w =
    Some (mkSlot s (mkCmd (MIDI_evt_len s) 1 (s :: tl)) (s_sysex v), rt, pace (s_sysex v) w).
Proof.
  intros Hst Hs HL Hbuf.
  assert (Hne : s <> 0xf0) by (intros ->; vm_compute in HL; congruence).
  rewrite RawOutByte_status by assumption.
  rewrite cmd_block_store; cbn [s_cmd cmd_len cmd_pos cmd_buf s_status s_sysex]; rewrite ?Hbuf;
    [|lia|lia|simpl; lia].
  destruct (Z.leb_spec (MIDI_evt_len s) (0 + 1)); [lia|]. reflexivity.
Qed.

Lemma pair_completes s x1 x2 tl sx rt w t1 a t2 b :
  s <> 0xf0 -> data_byte a -> data_byte b ->
  exists w',
    feed_slot [(t1, a); (t2, b)] (mkSlot s (mkCmd 3 1 (s :: x1 :: x2 :: tl)) sx) rt w
      = Some (mkSlot s (mkCmd 3 1 (s :: a :: b :: tl)) sx, rt, w') /\
    dispatches w' = dispatches w ++ [PlayMsg (s :: a :: b :: tl)].
Proof.
  intros Hs Ha Hb. unfold data_byte in *. cbn [feed_slot].
  rewrite RawOutByte_data by (cbn; assumption).
  rewrite cmd_block_store by (cbn; lia). plain_step.
  rewrite RawOutByte_data by (cbn; assumption).
  rewrite cmd_block_store by (cbn; lia). plain_step.
  eexists. split; [reflexivity|].
  rewrite dispatches_emit, dispatches_when_capturing, !dispatches_pace, !dispatches_elapse,
    dispatches_pace, dispatches_elapse.
  reflexivity.
Qed.

Lemma single_completes s x1 tl sx rt w t1 a :
  s <> 0xf0 -> data_byte a ->
  exists w',
    feed_slot [(t1, a)] (mkSlot s (mkCmd 2 1 (s :: x1 :: tl)) sx) rt w
      = Some (mkSlot s (mkCmd 2 1 (s :: a :: tl)) sx, rt, w') /\
    dispatches w' = dispatches w ++ [PlayMsg (s :: a :: tl)].
Proof.
  intros Hs Ha. unfold data_byte in *. cbn [feed_slot].
  rewrite RawOutByte_data by (cbn; assumption).
  rewrite cmd_block_store by (cbn; lia). plain_step.
  eexists. split; [reflexivity|].
  rewrite dispatches_emit, dispatches_when_capturing, !dispatches_pace, !dispatches_elapse.
  reflexivity.
Qed.

Lemma map_snd_cons {A B} (input : list (A * B)) b bs :
  List.map snd input = b :: bs ->
  exists t rest, input = (t, b) :: rest /\ List.map snd rest = bs.
Proof.
  destruct input as [|[t x] rest]; cbn [List.map snd]; [discriminate|].
  intros [= -> <-]. eauto.
Qed.

Lemma map_snd_app {A B} (input : list (A * B)) a b :
  List.map snd input = a ++ b ->
  exists ia ib, input = ia ++ ib /\ List.map snd ia = a /\ List.map snd ib = b.
Proof.
  revert input. induction a as [|x a IH]; intros input H.
  - exists [], input. auto.
  - cbn [app] in H. apply map_snd_cons in H as (t & rest & -> & H).
    destruct (IH _ H) as (ia & ib & -> & <- & <-). exists ((t, x) :: ia), ib. auto.
Qed.

(** Messages of three bytes under running status. *)
Lemma triples_dispatch s groups : forall input x1 x2 tl sx rt w,
  s <> 0xf0 -> MIDI_evt_len s = 3 ->
  Forall (fun g => length g = 2%nat /\ Forall data_byte g) groups ->
  List.map snd input = concat groups ->
  exists y1 y2 w' msgs,
    feed_slot input (mkSlot s (mkCmd 3 1 (s :: x1 :: x2 :: tl)) sx) rt w
      = Some (mkSlot s (mkCmd 3 1 (s :: y1 :: y2 :: tl)) sx, rt, w') /\
    dispatches w' = dispatches w ++ List.map PlayMsg msgs /\
    List.map PlayMsg_packet msgs = List.map (cons s) groups.
Proof.
  induction groups as [|g groups IH]; intros input x1 x2 tl sx rt w Hs HL Hg Hin.
  - destruct input; [|discriminate]. exists x1, x2, w, []. cbn. rewrite app_nil_r. auto.
  - apply Forall_cons in Hg as [[Hlen Hd] Hg].
    destruct g as [|a [|b [|? ?]]]; try discriminate Hlen.
    apply Forall_cons in Hd as [Ha Hd]. apply Forall_cons in Hd as [Hb _].
    cbn [concat app] in Hin.
    apply map_snd_cons in Hin as (t1 & in1 & -> & Hin).
    apply map_snd_cons in Hin as (t2 & in2 & -> & Hin).
    change ((t1, a) :: (t2, b) :: in2) with ([(t1, a); (t2, b)] ++ in2).
    rewrite feed_slot_app.
    destruct (pair_completes s x1 x2 tl sx rt w t1 a t2 b Hs Ha Hb) as (w1 & -> & D1).
    cbn [mbind option_bind].
    destruct (IH in2 a b tl sx rt w1 Hs HL Hg Hin) as (y1 & y2 & w' & msgs & -> & D & P).
    exists y1, y2, w', ((s :: a :: b :: tl) :: msgs).
    split; [reflexivity|]. split.
    + rewrite D, D1, <- app_assoc. reflexivity.
    + cbn [List.map]. rewrite P. f_equal.
      unfold PlayMsg_packet. change (rd (s :: a :: b :: tl) 0) with s. rewrite HL. reflexivity.
Qed.

Lemma pairs_dispatch s groups : forall input x1 tl sx rt w,
  s <> 0xf0 -> MIDI_evt_len s = 2 ->
  Forall (fun g => length g = 1%nat /\ Forall data_byte g) groups ->
  List.map snd input = concat groups ->
  exists y1 w' msgs,
    feed_slot input (mkSlot s (mkCmd 2 1 (s :: x1 :: tl)) sx) rt w
      = Some (mkSlot s (mkCmd 2 1 (s :: y1 :: tl)) sx, rt, w') /\
    dispatches w' = dispatches w ++ List.map PlayMsg msgs /\
    List.map PlayMsg_packet msgs = List.map (cons s) groups.
Proof.
  induction groups as [|g groups IH]; intros input x1 tl sx rt w Hs HL Hg Hin.
  - destruct input; [|discriminate]. exists x1, w, []. cbn. rewrite app_nil_r. auto.
  - apply Forall_cons in Hg as [[Hlen Hd] Hg].
    destruct g as [|a [|? ?]]; try discriminate Hlen.
    apply Forall_cons in Hd as [Ha _].
    cbn [concat app] in Hin.
    apply map_snd_cons in Hin as (t1 & in1 & -> & Hin).
    change ((t1, a) :: in1) with ([(t1, a)] ++ in1).
    rewrite feed_slot_app.
    destruct (single_completes s x1 tl sx rt w t1 a Hs Ha) as (w1 & -> & D1).
    cbn [mbind option_bind].
    destruct (IH in1 a tl sx rt w1 Hs HL Hg Hin) as (y1 & w' & msgs & -> & D & P).
    exists y1, w', ((s :: a :: tl) :: msgs).
    split; [reflexivity|]. split.
    + rewrite D, D1, <- app_assoc. reflexivity.
    + cbn [List.map]. rewrite P. f_equal.
      unfold PlayMsg_packet. change (rd (s :: a :: tl) 0) with s. rewrite HL. reflexivity.
Qed.

End Running.

Lemma slot_inv_cmd_buf v :
  slot_inv v -> exists x0 x1 x2 tl, cmd_buf (s_cmd v) = x0 :: x1 :: x2 :: tl.
Proof.
  intros (Hc & _). destruct (cmd_buf (s_cmd v)) as [|x0 [|x1 [|x2 tl]]]; try discriminate Hc.
  eauto.
Qed.

(** The slot 0 of the plain session. *)
Lemma plain_slot0 : get_slot 0 plain_midi = Some (slot0 plain_midi).
Proof. vm_compute. reflexivity. Qed.

Lemma plain_slot0_inv : slot_inv (slot0 plain_midi).
Proof. apply slot_inv_evaluated; vm_compute; reflexivity. Qed.

(** X1. Running status frames a whole stream. On a slot that is not
    inside a sysex, a status byte [s] of a message of two or three bytes
    followed by data bytes sends one message for every full group of
    [MIDI_evt_len s - 1] data bytes: the backend gets [s] followed by the
    group, group after group in order, whatever time passes between the
    bytes, and nothing else is dispatched. Data bytes left over that do
    not fill a group stay in the slot, which waits at position 1 + their
    number with [s] as its status. *)
Theorem running_status_frames_every_message
    (m : DB_Midi) (w : World) (slot s : Z) (v : Slot)
    (groups : list (list Z)) (partial : list Z) (input : list (Z * Z)) :
  get_slot slot m = Some v -> slot_inv v -> s_status v <> 0xf0 ->
  0x80 <= s < 0xf8 -> 2 <= MIDI_evt_len s ->
  Forall (fun g => Z.of_nat (length g) = MIDI_evt_len s - 1 /\ Forall data_byte g) groups ->
  Z.of_nat (length partial) < MIDI_evt_len s - 1 -> Forall data_byte partial ->
  List.map snd input = s :: concat groups ++ partial ->
  exists m' w' v' msgs,
    feed input slot m w = Some (m', w') /\
    dispatches w' = dispatches w ++ List.map PlayMsg msgs /\
    List.map PlayMsg_packet msgs = List.map (cons s) groups /\
    get_slot slot m' = Some v' /\
    s_status v' = s /\ cmd_len (s_cmd v') = MIDI_evt_len s /\
    cmd_pos (s_cmd v') = 1 + Z.of_nat (length partial).
Proof.
  intros Hget Hinv Hst Hs HL Hg Hp Hpd Hin.
  assert (Hne : s <> 0xf0) by (intros ->; vm_compute in HL; congruence).
  destruct (slot_inv_cmd_buf v Hinv) as (x0 & x1 & x2 & tl & Hbuf).
  apply map_snd_cons in Hin as (t0 & in1 & -> & Hin).
  apply map_snd_app in Hin as (ig & ip & -> & Hig & Hip).
  rewrite (feed_on_slot _ _ _ _ _ Hget). cbn [feed_slot].
  rewrite (status_arms s v (rt_buf m) _ x0 _ Hst Hs HL Hbuf). cbn [mbind option_bind].
  rewrite feed_slot_app.
  pose proof (MIDI_evt_len_range s) as Hr.
  assert (HL' : MIDI_evt_len s = 2 \/ MIDI_evt_len s = 3) by lia.
  destruct HL' as [E|E]; rewrite E in *.
  - destruct (pairs_dispatch s groups ig x1 (x2 :: tl) (s_sysex v) (rt_buf m)
                (pace (s_sysex v) (elapse t0 w)) Hne E) as (y1 & w' & msgs & -> & D & P);
      [|assumption|].
    { eapply Forall_impl; [exact Hg|]. cbn. intros g [H1 H2]. split; [lia|assumption]. }
    cbn [mbind option_bind].
    destruct partial; [|cbn in Hp; lia]. destruct ip; [|discriminate].
    cbn [feed_slot mbind option_bind].
    eexists _, _, _, msgs. split; [reflexivity|].
    split; [rewrite D, dispatches_pace, dispatches_elapse; reflexivity|].
    split; [exact P|]. split; [eapply get_put_same; eassumption|]. repeat split.
  - destruct (triples_dispatch s groups ig x1 x2 tl (s_sysex v) (rt_buf m)
                (pace (s_sysex v) (elapse t0 w)) Hne E) as (y1 & y2 & w' & msgs & -> & D & P);
      [|assumption|].
    { eapply Forall_impl; [exact Hg|]. cbn. intros g [H1 H2]. split; [lia|assumption]. }
    cbn [mbind option_bind].
    destruct partial as [|a [|? ?]]; [| |cbn in Hp; lia].
    + destruct ip; [|discriminate]. cbn [feed_slot mbind option_bind].
      eexists _, _, _, msgs. split; [reflexivity|].
      split; [rewrite D, dispatches_pace, dispatches_elapse; reflexivity|].
      split; [exact P|]. split; [eapply get_put_same; eassumption|]. repeat split.
    + apply map_snd_cons in Hip as (t1 & ip' & -> & Hip). destruct ip'; [|discriminate].
      apply Forall_cons in Hpd as [Ha _]. unfold data_byte in Ha.
      cbn [feed_slot].
      rewrite RawOutByte_data by (cbn; assumption).
      rewrite cmd_block_store by (cbn; lia). plain_step.
      eexists _, _, _, msgs. split; [reflexivity|].
      split; [rewrite dispatches_pace, dispatches_elapse, D, dispatches_pace, dispatches_elapse; reflexivity|].
      split; [exact P|]. split; [eapply get_put_same; eassumption|]. repeat split.
Qed.

Lemma running_status_frames_every_message_witness :
  exists m' w' msgs,
    feed [(0, 0x90); (0, 60); (0, 100); (0, 62); (0, 0); (0, 64)] 0 plain_midi plain_world
      = Some (m', w') /\
    dispatches w' = dispatches plain_world ++ List.map PlayMsg msgs /\
    List.map PlayMsg_packet msgs = [[0x90; 60; 100]; [0x90; 62; 0]] /\
    cmd_pos (s_cmd (slot0 m')) = 2.
Proof.
  destruct (running_status_frames_every_message plain_midi plain_world 0 0x90 (slot0 plain_midi)
              [[60; 100]; [62; 0]] [64]
              [(0, 0x90); (0, 60); (0, 100); (0, 62); (0, 0); (0, 64)])
    as (m' & w' & v' & msgs & E & D & P & G & _ & _ & Hpos).
  - exact plain_slot0.
  - exact plain_slot0_inv.
  - vm_compute. discriminate.
  - lia.
  - vm_compute. discriminate.
  - repeat constructor; unfold data_byte; lia.
  - vm_compute. reflexivity.
  - repeat constructor; unfold data_byte; lia.
  - reflexivity.
  - exists m', w', msgs. split; [exact E|]. split; [exact D|]. split; [exact P|].
    unfold slot0. rewrite G. exact Hpos.
Defined.

Section Dropped.
Implicit Types (v : Slot) (w : World) (rt : list Z).

(** Data bytes with no message in progress. *)
Lemma stray_data_on_slot input : forall v rt w,
  s_status v <> 0xf0 -> cmd_len (s_cmd v) = 0 ->
  Forall (fun x => data_byte (snd x)) input ->
  exists w',
    feed_slot input v rt w = Some (v, rt, w') /\
    dispatches w' = dispatches w.
Proof.
  induction input as [|[dt d] rest IH]; intros v rt w Hst Hlen Hin; cbn [feed_slot].
  - eauto.
  - apply Forall_cons in Hin as [Hd Hin]. cbn [snd] in Hd. unfold data_byte in Hd.
    rewrite RawOutByte_data by assumption.
    unfold cmd_block. rewrite Hlen. cbn [Z.eqb negb mbind option_bind].
    destruct (IH v rt (pace (s_sysex v) (elapse dt w)) Hst Hlen Hin) as (w' & -> & D).
    exists w'. split; [reflexivity|]. rewrite D, dispatches_pace, dispatches_elapse. reflexivity.
Qed.
End Dropped.

(** X2. Data bytes with no message in progress are dropped: on a slot
    whose status is not 0xF0 and whose message length is 0 (as after
    start-up, after [MIDI_ClearBuffer] or after a status byte of length 0),
    any run of data bytes leaves [midi] as it was and dispatches
    nothing. *)
Theorem data_bytes_without_a_message_are_dropped
    (m : DB_Midi) (w : World) (slot : Z) (v : Slot) (input : list (Z * Z)) :
  get_slot slot m = Some v ->
  s_status v <> 0xf0 -> cmd_len (s_cmd v) = 0 ->
  Forall (fun x => data_byte (snd x)) input ->
  exists w',
    feed input slot m w = Some (m, w') /\
    dispatches w' = dispatches w.
Proof.
  intros Hget Hst Hlen Hin.
  rewrite (feed_on_slot _ _ _ _ _ Hget).
  destruct (stray_data_on_slot input v (rt_buf m) w Hst Hlen Hin) as (w' & -> & D).
  cbn [mbind option_bind]. rewrite put_get_id by assumption. eauto.
Qed.

Lemma data_bytes_without_a_message_are_dropped_witness :
  exists w',
    feed [(0, 0x10); (5, 0x20); (0, 0x7F)] 0 plain_midi plain_world = Some (plain_midi, w') /\
    dispatches w' = dispatches plain_world.
Proof.
  apply (data_bytes_without_a_message_are_dropped plain_midi plain_world 0 (slot0 plain_midi)).
  - exact plain_slot0.
  - vm_compute. discriminate.
  - vm_compute. reflexivity.
  - repeat constructor; unfold data_byte; cbn; lia.
Defined.

Section Events.
Implicit Types (v : Slot) (w : World) (rt : list Z) (sx : sysex_t).

Lemma ticks_emit e w : ticks (emit e w) = ticks w.
Proof. reflexivity. Qed.

Lemma ticks_when_capturing e w : ticks (when_capturing e w) = ticks w.
Proof. unfold when_capturing. destruct (CaptureState_MIDI w); reflexivity. Qed.

Lemma CaptureState_when_capturing e w :
  CaptureState_MIDI (when_capturing e w) = CaptureState_MIDI w.
Proof. unfold when_capturing. destruct (CaptureState_MIDI w) eqn:E; [|exact E]. exact E. Qed.

Lemma CaptureState_pace sx w : CaptureState_MIDI (pace sx w) = CaptureState_MIDI w.
Proof. unfold pace. destruct (_ =? 0); [reflexivity|]. destruct (_ <? _); reflexivity. Qed.

Lemma orderly_nil c r : orderly c r [].
Proof. unfold orderly. cbn. destruct (c && negb r); repeat constructor. Qed.

Lemma orderly_app c r a b : orderly c r a -> orderly c r b -> orderly c r (a ++ b).
Proof.
  unfold orderly, captured_messages, sent_packets.
  intros (A1 & A2 & A3) (B1 & B2 & B3). rewrite !Forall_app, !flat_map_app.
  split; [auto|]. split; [auto|].
  unfold captured_messages, sent_packets in *. rewrite A3, B3.
  destruct (c && negb r); reflexivity.
Qed.

(** The events of [sysex_finish]. *)
Lemma sysex_finish_events sx w :
  0 <= sysex_used sx < Z.of_nat (length (sysex_buf sx)) ->
  exists sx' w' evs,
    sysex_finish sx w = Some (sx', w') /\
    trace w' = trace w ++ evs /\ ticks w' = ticks w /\
    CaptureState_MIDI w' = CaptureState_MIDI w /\
    orderly (CaptureState_MIDI w) false evs.
Proof.
  intros Hu. unfold sysex_finish. rewrite arr_set_Some by lia. cbn [mbind option_bind].
  set (fin := mkSysex _ _ _ _).
  pose (cap := CAPTURE_AddMidi true (sysex_used fin - 1)
                 (take (Z.to_nat (sysex_used fin - 1)) (drop 1 (sysex_buf fin)))).
  assert (Hcap : forall evs w0, orderly (CaptureState_MIDI w) false evs ->
            orderly (CaptureState_MIDI w) false
              (evs ++ [LOG "Sysex message size"] ++ if CaptureState_MIDI w0 then [cap] else [])).
  { intros evs w0 H. apply orderly_app; [exact H|]. apply orderly_app.
    - unfold orderly. cbn. destruct (CaptureState_MIDI w); repeat constructor.
    - unfold orderly. destruct (CaptureState_MIDI w0); cbn; destruct (CaptureState_MIDI w);
        repeat constructor. }
  destruct (short_mt32 fin).
  - eexists _, _, _. split; [reflexivity|].
    split; [rewrite trace_when_capturing, !trace_emit, <- !app_assoc; reflexivity|].
    split; [rewrite ticks_when_capturing; reflexivity|].
    split; [rewrite CaptureState_when_capturing; reflexivity|].
    rewrite !CaptureState_emit. apply (Hcap [_]).
    unfold orderly. cbn. destruct (CaptureState_MIDI w); repeat constructor.
  - assert (Ho : orderly (CaptureState_MIDI w) false
                   [PlaySysex (take (Z.to_nat (sysex_used fin)) (sysex_buf fin)) (sysex_used fin)]).
    { unfold orderly. cbn. destruct (CaptureState_MIDI w); repeat constructor. }
    destruct (negb (sysex_start fin =? 0)).
    + eexists _, _, _. split; [reflexivity|].
      split; [rewrite trace_when_capturing, !trace_emit, <- !app_assoc; reflexivity|].
      split; [rewrite ticks_when_capturing; reflexivity|].
      split; [rewrite CaptureState_when_capturing; reflexivity|].
      rewrite !CaptureState_emit. apply (Hcap [_]). exact Ho.
    + eexists _, _, _. split; [reflexivity|].
      split; [rewrite trace_when_capturing, !trace_emit, <- !app_assoc; reflexivity|].
      split; [rewrite ticks_when_capturing; reflexivity|].
      split; [rewrite CaptureState_when_capturing; reflexivity|].
      rewrite !CaptureState_emit. apply (Hcap [_]). exact Ho.
Qed.

End Events.

Section Orderly.
Implicit Types (v : Slot) (w : World) (rt : list Z) (sx : sysex_t).

Lemma well_formed_intro s ds :
  0x80 <= s <= 0xFF -> Z.of_nat (length (s :: ds)) = MIDI_evt_len s ->
  Forall data_byte ds -> well_formed (s :: ds) = true.
Proof.
  intros Hs Hl Hd. unfold well_formed.
  rewrite !andb_true_iff, !Z.leb_le, Z.eqb_eq. repeat split; try lia.
  apply forallb_forall. intros d Hin. rewrite Forall_forall in Hd.
  apply list_elem_of_In, Hd in Hin. unfold data_byte in Hin.
  rewrite andb_true_iff, Z.leb_le, Z.ltb_lt. lia.
Qed.

Lemma dispatch_orderly (cap : bool) len buf :
  MIDI_evt_len (rd buf 0) = len ->
  well_formed (take (Z.to_nat len) buf) = true ->
  orderly cap false
    ((if cap then [CAPTURE_AddMidi false len (take (Z.to_nat len) buf)] else []) ++ [PlayMsg buf]).
Proof.
  intros Hl Hw. unfold orderly.
  assert (Hp : PlayMsg_packet buf = take (Z.to_nat len) buf)
    by (unfold PlayMsg_packet; rewrite Hl; reflexivity).
  assert (Hd : well_formed_dispatch (PlayMsg buf) = true)
    by (unfold well_formed_dispatch; rewrite Hp; exact Hw).
  destruct cap; cbn; rewrite ?Hp; repeat constructor; exact Hd.
Qed.

Lemma cmd_block_events data v w :
  slot_inv v -> joins data v ->
  exists v' w' evs,
    cmd_block data v w = Some (v', w') /\
    cmd_wf v' /\ s_status v' = s_status v /\ s_sysex v' = s_sysex v /\
    trace w' = trace w ++ evs /\ ticks w' = ticks w /\
    CaptureState_MIDI w' = CaptureState_MIDI w /\
    orderly (CaptureState_MIDI w) false evs.
Proof.
  intros Hinv (Hlen & Hj).
  destruct (Z.eq_dec (cmd_len (s_cmd v)) 0) as [E0|E0].
  { exists v, w, []. unfold cmd_block. rewrite E0. cbn [Z.eqb negb].
    split; [reflexivity|]. split; [split; [exact Hlen|contradiction]|].
    rewrite app_nil_r. do 5 (split; [reflexivity|]). apply orderly_nil. }
  destruct (Hj E0) as (Hst & Hcase). clear Hj.
  destruct (slot_inv_cmd_buf v Hinv) as (x0 & x1 & x2 & tl & Hbuf).
  destruct Hinv as (_ & _ & Hl & Hp & _).
  destruct v as [st [len pos cbuf] sx]. cbn [s_cmd s_status s_sysex cmd_len cmd_pos cmd_buf] in *.
  subst cbuf.
  rewrite cmd_block_store by (cbn; lia).
  cbn [s_cmd s_status s_sysex cmd_len cmd_pos cmd_buf].
  assert (Hst' : 0x80 <= st <= 0xFF) by lia.
  destruct Hcase as [[-> ->]|(Hpos & Hb0 & Hd & Hb1)].
  - (* the status byte itself *)
    change (<[Z.to_nat 0 := st]> (x0 :: x1 :: x2 :: tl)) with (st :: x1 :: x2 :: tl).
    destruct (Z.leb_spec len (0 + 1)).
    + assert (E1 : len = 1) by lia. rewrite E1 in *.
      eexists _, _, _. split; [reflexivity|].
      split; [split; [exact Hlen|intros _; cbn; repeat split; try lia]|].
      split; [reflexivity|]. split; [reflexivity|].
      split; [rewrite trace_emit, trace_when_capturing, <- app_assoc; reflexivity|].
      split; [rewrite ticks_emit, ticks_when_capturing; reflexivity|].
      split; [rewrite CaptureState_emit, CaptureState_when_capturing; reflexivity|].
      apply dispatch_orderly; [symmetry; exact Hlen|].
      apply well_formed_intro; [exact Hst'|rewrite <- Hlen; reflexivity|constructor].
    + eexists _, _, []. split; [reflexivity|].
      split; [split; [exact Hlen|intros _; cbn; repeat split; try lia]|].
      rewrite app_nil_r. do 5 (split; [reflexivity|]). apply orderly_nil.
  - (* a data byte *)
    cbn [rd nth] in Hb0, Hb1. subst x0. unfold data_byte in *.
    assert (Hpos' : pos = 1 \/ pos = 2) by lia.
    destruct Hpos' as [-> | ->].
    + change (<[Z.to_nat 1 := data]> (st :: x1 :: x2 :: tl)) with (st :: data :: x2 :: tl).
      destruct (Z.leb_spec len (1 + 1)).
      * eexists _, _, _. split; [reflexivity|].
        split; [split; [exact Hlen|intros _; cbn; repeat split; try lia]|].
        split; [reflexivity|]. split; [reflexivity|].
        split; [rewrite trace_emit, trace_when_capturing, <- app_assoc; reflexivity|].
        split; [rewrite ticks_emit, ticks_when_capturing; reflexivity|].
        split; [rewrite CaptureState_emit, CaptureState_when_capturing; reflexivity|].
        apply dispatch_orderly; [symmetry; exact Hlen|].
        assert (Hlen' : len = 1 \/ len = 2) by lia.
        destruct Hlen' as [E1 | E1]; rewrite E1 in *; cbn [Z.to_nat Pos.to_nat Pos.iter_op Init.Nat.add take];
          (apply well_formed_intro; [exact Hst'|rewrite <- Hlen; reflexivity|]);
          repeat constructor; unfold data_byte; lia.
      * eexists _, _, []. split; [reflexivity|].
        split; [split; [exact Hlen|intros _; cbn; repeat split; try lia]|].
        rewrite app_nil_r. do 5 (split; [reflexivity|]). apply orderly_nil.
    + specialize (Hb1 eq_refl).
      change (<[Z.to_nat 2 := data]> (st :: x1 :: x2 :: tl)) with (st :: x1 :: data :: tl).
      destruct (Z.leb_spec len (2 + 1)); [|lia].
      eexists _, _, _. split; [reflexivity|].
      split; [split; [exact Hlen|intros _; cbn; repeat split; try lia]|].
      split; [reflexivity|]. split; [reflexivity|].
      split; [rewrite trace_emit, trace_when_capturing, <- app_assoc; reflexivity|].
      split; [rewrite ticks_emit, ticks_when_capturing; reflexivity|].
      split; [rewrite CaptureState_emit, CaptureState_when_capturing; reflexivity|].
      apply dispatch_orderly; [symmetry; exact Hlen|].
      assert (Hlen' : len = 1 \/ len = 2 \/ len = 3) by lia.
      destruct Hlen' as [E1 | [E1 | E1]]; rewrite E1 in *; cbn [Z.to_nat Pos.to_nat Pos.iter_op Init.Nat.add take];
        (apply well_formed_intro; [exact Hst'|rewrite <- Hlen; reflexivity|]);
        repeat constructor; unfold data_byte; lia.
Qed.

End Orderly.

Section OneCall.
Implicit Types (v : Slot) (w : World) (rt : list Z) (sx : sysex_t).

Lemma realtime_len data : 0xf8 <= data < 256 -> MIDI_evt_len data = 0 \/ MIDI_evt_len data = 1.
Proof.
  intros H.
  assert (E : data = 0xf8 \/ data = 0xf9 \/ data = 0xfa \/ data = 0xfb \/
              data = 0xfc \/ data = 0xfd \/ data = 0xfe \/ data = 0xff) by lia.
  decompose [or] E; subst; vm_compute; auto.
Qed.

Lemma status_block_joins data v :
  length (cmd_buf (s_cmd v)) = 8%nat ->
  Z.of_nat (length (sysex_buf (s_sysex v))) = MIDI_SYSEX_SIZE ->
  0 <= cmd_len (s_cmd v) <= 3 -> 0 <= cmd_pos (s_cmd v) <= 2 ->
  0 <= sysex_used (s_sysex v) <= MIDI_SYSEX_SIZE ->
  0x80 <= data < 0xf8 ->
  exists v1,
    status_block data v = Some v1 /\ slot_inv v1 /\ joins data v1 /\
    sysex_delay (s_sysex v1) = sysex_delay (s_sysex v) /\
    sysex_start (s_sysex v1) = sysex_start (s_sysex v).
Proof.
  intros Hc Hs Hl Hp Hu Hd.
  destruct (status_block_inv data v) as (v1 & E & Hinv1); try assumption.
  { rewrite bit7_byte by lia. destruct (Z.leb_spec 0x80 data); [discriminate|lia]. }
  exists v1. split; [exact E|]. split; [exact Hinv1|].
  revert E. unfold status_block. rewrite bit7_byte by lia.
  destruct (Z.leb_spec 0x80 data); [|lia].
  destruct (data =? 0xf0).
  - destruct (arr_set _ _ _); cbn [mbind option_bind]; [|discriminate].
    intros [= <-]. unfold joins. cbn. split; [|auto]. split; [reflexivity|]. intros _. split; [lia|]. left. auto.
  - intros [= <-]. unfold joins. cbn. split; [|auto]. split; [reflexivity|]. intros _. split; [lia|]. left. auto.
Qed.

Lemma RawOutByte_slot_events data v rt w :
  slot_inv v -> cmd_wf v -> length rt = 8%nat -> 0 <= data < 256 ->
  exists v' rt' w' evs,
    RawOutByte_slot data v rt w = Some (v', rt', w') /\
    slot_inv v' /\ cmd_wf v' /\ length rt' = 8%nat /\
    trace w' = trace (pace (s_sysex v) w) ++ evs /\
    ticks w' = ticks (pace (s_sysex v) w) /\
    CaptureState_MIDI w' = CaptureState_MIDI w /\
    orderly (CaptureState_MIDI w) (0xf8 <=? data) evs.
Proof.
  intros Hinv Hwf Hrt Hd.
  destruct (Z.leb_spec 0xf8 data) as [Hrtb|Hrtb].
  { (* a realtime byte *)
    unfold RawOutByte_slot. destruct (Z.leb_spec 0xf8 data); [|lia].
    unfold realtime_byte. rewrite arr_set_Some by (simpl; lia). cbn [mbind option_bind].
    destruct rt as [|r0 rt]; [discriminate|].
    change (<[Z.to_nat 0 := data]> (r0 :: rt)) with (data :: rt).
    eexists _, _, _, [_]. split; [reflexivity|]. split; [exact Hinv|]. split; [exact Hwf|].
    split; [exact Hrt|]. split; [apply trace_emit|]. split; [reflexivity|].
    split; [rewrite CaptureState_emit; apply CaptureState_pace|].
    unfold orderly. rewrite andb_false_r. cbn.
    split; [repeat constructor|]. split; [|reflexivity].
    repeat constructor. unfold well_formed_dispatch, PlayMsg_packet.
    change (rd (data :: rt) 0) with data.
    destruct (realtime_len data ltac:(lia)) as [E|E]; rewrite E; [reflexivity|].
    cbn [Z.to_nat Pos.to_nat Pos.iter_op Init.Nat.add take].
    apply well_formed_intro; [lia|rewrite E; reflexivity|constructor]. }
  pose proof Hinv as (Hc & Hs & Hl & Hp & Hu & Hf).
  destruct (Z.eq_dec (s_status v) 0xf0) as [Est|Est].
  - specialize (Hf Est).
    destruct (Z.le_gt_cases 0x80 data) as [Hs7|Hs7].
    + (* a status byte ends the sysex *)
      rewrite RawOutByte_sysex_end by (try assumption; lia).
      destruct (sysex_finish_events (s_sysex v) (pace (s_sysex v) w))
        as (sx' & w1 & evs1 & E1 & T1 & K1 & C1 & O1);
        [unfold MIDI_SYSEX_SIZE in *; lia|].
      destruct (sysex_finish_total (s_sysex v) (pace (s_sysex v) w)) as (sx2 & w2 & E2 & Hb2 & Hu2);
        [unfold MIDI_SYSEX_SIZE in *; lia|].
      rewrite E1 in E2. injection E2 as <- <-.
      rewrite E1. cbn [mbind option_bind].
      destruct (status_block_joins data (mkSlot (s_status v) (s_cmd v) sx'))
        as (v1 & -> & Hinv2 & Hj & _);
        cbn [s_cmd s_sysex]; rewrite ?Hb2, ?length_insert, ?Hu2;
        try assumption; try (unfold MIDI_SYSEX_SIZE in *; lia).
      cbn [mbind option_bind].
      destruct (cmd_block_events data v1 w1 Hinv2 Hj)
        as (v2 & w3 & evs2 & E3 & Hwf2 & Hst2 & Hsx2 & T2 & K2 & C2 & O2).
      rewrite E3. cbn [mbind option_bind].
      destruct (cmd_block_inv data v1 w1 Hinv2) as (v2' & w3' & E3' & Hinv3).
      rewrite E3 in E3'. injection E3' as <- <-.
      exists v2, rt, w3, (evs1 ++ evs2). split; [reflexivity|].
      split; [exact Hinv3|]. split; [exact Hwf2|]. split; [exact Hrt|].
      split; [rewrite T2, T1, app_assoc; reflexivity|].
      split; [congruence|]. split; [rewrite C2, C1; apply CaptureState_pace|].
      rewrite CaptureState_pace in O1. rewrite C1, CaptureState_pace in O2.
      apply orderly_app; assumption.
    + (* a data byte of the sysex *)
      destruct (RawOutByte_slot_inv data v rt w Hinv Hrt) as (v' & rt' & w' & E & Hinv' & Hrt').
      rewrite E. revert E. rewrite RawOutByte_sysex_data by (try assumption; lia).
      destruct (_ <? _).
      * destruct (arr_set _ _ _); cbn [mbind option_bind]; [|discriminate].
        intros [= <- <- <-]. eexists _, _, _, []. split; [reflexivity|].
        split; [exact Hinv'|]. split; [exact Hwf|]. split; [exact Hrt|].
        rewrite app_nil_r. do 2 (split; [reflexivity|]).
        split; [apply CaptureState_pace|apply orderly_nil].
      * intros [= <- <- <-]. eexists _, _, _, []. split; [reflexivity|].
        split; [exact Hinv|]. split; [exact Hwf|]. split; [exact Hrt|].
        rewrite app_nil_r. do 2 (split; [reflexivity|]).
        split; [apply CaptureState_pace|apply orderly_nil].
  - rewrite RawOutByte_plain by assumption.
    assert (exists v1, status_block data v = Some v1 /\ slot_inv v1 /\ joins data v1)
      as (v1 & -> & Hinv1 & Hj).
    { destruct (Z.le_gt_cases 0x80 data) as [Hs7|Hs7].
      - destruct (status_block_joins data v) as (v1 & E & Hinv1 & Hj & _);
          try assumption; [lia|]. eauto.
      - exists v. unfold status_block. rewrite bit7_byte by lia.
        destruct (Z.leb_spec 0x80 data); [lia|]. split; [reflexivity|]. split; [exact Hinv|].
        destruct Hwf as (Hlen & Hw). split; [exact Hlen|].
        intros Hne. destruct (Hw Hne) as (H1 & H2 & H3 & H4).
        split; [exact H1|]. right. unfold data_byte. repeat split; try lia; try assumption;
          apply H4; assumption. }
    cbn [mbind option_bind].
    destruct (cmd_block_events data v1 (pace (s_sysex v) w) Hinv1 Hj)
      as (v2 & w3 & evs2 & E3 & Hwf2 & Hst2 & Hsx2 & T2 & K2 & C2 & O2).
    rewrite E3. cbn [mbind option_bind].
    destruct (cmd_block_inv data v1 (pace (s_sysex v) w) Hinv1) as (v2' & w3' & E3' & Hinv3).
    rewrite E3 in E3'. injection E3' as <- <-.
    exists v2, rt, w3, evs2. split; [reflexivity|].
    split; [exact Hinv3|]. split; [exact Hwf2|]. split; [exact Hrt|].
    split; [exact T2|]. split; [exact K2|]. split; [rewrite C2; apply CaptureState_pace|].
    rewrite CaptureState_pace in O2. exact O2.
Qed.

End OneCall.

Section Streams.
Implicit Types (m : DB_Midi) (v : Slot) (w : World) (rt : list Z) (sx : sysex_t).

Lemma pace_spec sx w :
  trace (pace sx w) =
    trace w ++ (if held_back sx w then [Slept (sysex_start sx + sysex_delay sx - GetTicks w)] else []) /\
  ticks (pace sx w) =
    (if held_back sx w then sysex_start sx + sysex_delay sx else ticks w).
Proof.
  unfold pace, held_back, GetTicksSince, GetTicks.
  destruct (sysex_start sx =? 0); cbn [negb andb]; [rewrite app_nil_r; auto|].
  destruct (Z.ltb_spec (ticks w - sysex_start sx) (sysex_delay sx));
    destruct (Z.ltb_spec (ticks w) (sysex_start sx + sysex_delay sx)); try lia.
  - unfold Delay. cbn [trace ticks]. split; [f_equal; f_equal; f_equal; lia|lia].
  - rewrite app_nil_r. auto.
Qed.

Lemma midi_wf_put m slot v v' rt :
  midi_wf m -> get_slot slot m = Some v -> cmd_wf v' -> midi_wf (put_slot slot v' rt m).
Proof.
  intros Hwf Hget Hv' slot' v'' Hv''.
  destruct (Z.eq_dec slot' slot) as [->|Hne].
  - rewrite (get_put_same _ _ _ _ _ Hget) in Hv''. congruence.
  - assert (0 <= slot') by (unfold get_slot in Hv''; destruct (Z.leb_spec 0 slot'); [lia|discriminate]).
    assert (0 <= slot) by (unfold get_slot in Hget; destruct (Z.leb_spec 0 slot); [lia|discriminate]).
    rewrite get_put_other in Hv'' by lia. eauto.
Qed.

Lemma midi_wf_same_arrays m m' : same_arrays m m' -> midi_wf m -> midi_wf m'.
Proof.
  intros Hs Hwf slot v Hv. rewrite (same_arrays_get_slot _ _ _ Hs) in Hv. eauto.
Qed.

Lemma cmd_wf_cleared st buf sx : MIDI_evt_len st = 0 -> cmd_wf (mkSlot st (mkCmd 0 0 buf) sx).
Proof. intros H. split; [symmetry; exact H|]. cbn. contradiction. Qed.

Lemma midi_wf_zero : midi_wf midi_zero.
Proof.
  intros slot v Hv. apply get_slot_inv in Hv as (_ & H1 & H2 & H3).
  unfold midi_zero in H1, H2, H3. cbn [status cmd sysex] in H1, H2, H3.
  apply lookup_replicate in H1 as [E1 _], H2 as [E2 _], H3 as [E3 _].
  destruct v as [st c sx]. cbn in *. subst. apply cmd_wf_cleared. reflexivity.
Qed.

Lemma ctor_slot_wf slot fullconf m w fullconf' m' w' :
  midi_wf m -> ctor_slot slot (fullconf, m, w) = Some (fullconf', m', w') -> midi_wf m'.
Proof.
  intros Hwf H. unfold ctor_slot in H.
  destruct (get_slot slot m) as [v|] eqn:E; [|discriminate]. cbn [mbind option_bind] in H.
  destruct (index 0 "delaysysex" fullconf); injection H as <- <- <-;
    (eapply midi_wf_put; [exact Hwf|exact E|apply cmd_wf_cleared; reflexivity]).
Qed.

Lemma ctor_slots_wf slots : forall fullconf m w fullconf' m' w',
  midi_wf m -> ctor_slots slots (fullconf, m, w) = Some (fullconf', m', w') -> midi_wf m'.
Proof.
  induction slots as [|slot rest IH]; intros fullconf m w fullconf' m' w' Hwf H;
    cbn [ctor_slots] in H.
  - injection H as <- <- <-. assumption.
  - destruct (ctor_slot slot (fullconf, m, w)) as [[[f1 m1] w1]|] eqn:E;
      cbn [mbind option_bind] in H; [|discriminate].
    eapply IH; [|eassumption]. eapply ctor_slot_wf; eassumption.
Qed.

Lemma MIDI_RawOutByte_events data slot m w :
  midi_inv m -> midi_wf m -> 0 <= slot < 4 -> 0 <= data < 256 ->
  exists v m' w' evs,
    get_slot slot m = Some v /\
    MIDI_RawOutByte data slot m w = Some (m', w') /\
    midi_inv m' /\ midi_wf m' /\
    trace w' = trace (pace (s_sysex v) w) ++ evs /\
    ticks w' = ticks (pace (s_sysex v) w) /\
    CaptureState_MIDI w' = CaptureState_MIDI w /\
    orderly (CaptureState_MIDI w) (0xf8 <=? data) evs.
Proof.
  intros Hinv Hwf Hslot Hd.
  destruct (midi_inv_slot _ _ Hinv Hslot) as (v & Hget & Hv).
  destruct (RawOutByte_slot_events data v (rt_buf m) w Hv (Hwf _ _ Hget) (proj1 Hinv) Hd)
    as (v' & rt' & w' & evs & E & Hv' & Hwf' & Hrt' & T & K & C & O).
  exists v, (put_slot slot v' rt' m), w', evs. split; [exact Hget|].
  split; [rewrite (MIDI_RawOutByte_on_slot _ _ _ _ _ Hget), E; reflexivity|].
  split; [eapply midi_inv_put; eassumption|].
  split; [eapply midi_wf_put; eassumption|]. auto.
Qed.

Lemma MIDI_ToggleInputDevice_same_arrays device status m :
  same_arrays m (snd (MIDI_ToggleInputDevice device status m)).
Proof.
  unfold MIDI_ToggleInputDevice. destruct (negb (autoinput m)); [apply same_arrays_refl|].
  destruct (inputdev m =? device); [destruct (negb status)|]; repeat split.
Qed.

Lemma MIDI_RawOutThruRTByte_same_arrays bits le data m w :
  same_arrays m (fst (MIDI_RawOutThruRTByte bits le data m w)).
Proof.
  unfold MIDI_RawOutThruRTByte.
  destruct (thruchan m); [apply MIDI_RawOutRTByte_same_arrays|apply same_arrays_refl].
Qed.

Lemma MIDI_ctor_wf lowcase trim dev cfg hl m w m' w' :
  midi_wf m -> MIDI_ctor lowcase trim dev cfg hl m w = Some (m', w') -> midi_wf m'.
Proof.
  intros Hwf Hc. unfold MIDI_ctor in Hc.
  destruct (ctor_slots _ _) as [[[f1 m1] w1]|] eqn:E; cbn [mbind option_bind] in Hc; [|discriminate].
  eapply midi_wf_same_arrays; [eapply select_handler_same_arrays; eassumption|].
  eapply ctor_slots_wf; eassumption.
Qed.

Lemma MIDI_ClearBuffer_wf slot m m' :
  midi_wf m -> MIDI_ClearBuffer slot m = Some m' -> midi_wf m'.
Proof.
  intros Hwf H. unfold MIDI_ClearBuffer in H.
  destruct (get_slot slot m) as [v|] eqn:E; [|discriminate]. cbn [mbind option_bind] in H.
  injection H as <-. eapply midi_wf_put; [exact Hwf|exact E|apply cmd_wf_cleared; reflexivity].
Qed.

(** Every call keeps the two invariants. *)
Lemma midi_call_inv m m' :
  midi_call m m' -> midi_inv m -> midi_wf m -> midi_inv m' /\ midi_wf m'.
Proof.
  intros Hcall Hinv Hwf.
  destruct Hcall as [lc tr dev cfg hl m w m' w' H|data slot m w m' w' Hd H
                    |bits le data m w|bits le data m w|slot m m' H|device status m].
  - split; [eapply MIDI_ctor_preserves; eassumption|eapply MIDI_ctor_wf; eassumption].
  - assert (Hslot : 0 <= slot < 4).
    { unfold MIDI_RawOutByte in H. destruct (get_slot slot m) eqn:E; [|discriminate].
      eapply get_slot_range; eassumption. }
    destruct (MIDI_RawOutByte_events data slot m w Hinv Hwf Hslot Hd)
      as (v & m1 & w1 & evs & _ & E & Hinv1 & Hwf1 & _).
    rewrite H in E. injection E as <- <-. split; assumption.
  - pose proof (MIDI_RawOutRTByte_same_arrays bits le data m w) as Hs.
    split; [eapply midi_inv_same_arrays|eapply midi_wf_same_arrays]; eassumption.
  - pose proof (MIDI_RawOutThruRTByte_same_arrays bits le data m w) as Hs.
    split; [eapply midi_inv_same_arrays|eapply midi_wf_same_arrays]; eassumption.
  - split; [eapply MIDI_ClearBuffer_preserves; eassumption|eapply MIDI_ClearBuffer_wf; eassumption].
  - pose proof (MIDI_ToggleInputDevice_same_arrays device status m) as Hs.
    split; [eapply midi_inv_same_arrays|eapply midi_wf_same_arrays]; eassumption.
Qed.

Lemma midi_session_inv m : midi_session m -> midi_inv m /\ midi_wf m.
Proof.
  induction 1 as [|m m' _ [Hinv Hwf] Hcall].
  - split; [apply midi_inv_zero|apply midi_wf_zero].
  - eapply midi_call_inv; eassumption.
Qed.


Lemma tidy_app c r a b : tidy c r a -> tidy c r b -> tidy c r (a ++ b).
Proof.
  unfold tidy, captured_messages, sent_packets.
  intros (A2 & A3) (B2 & B3). rewrite !Forall_app, !flat_map_app.
  split; [auto|]. unfold captured_messages, sent_packets in *. rewrite A3, B3.
  destruct (c && negb r); reflexivity.
Qed.

Lemma orderly_tidy c r evs : orderly c r evs -> tidy c r evs.
Proof. intros (_ & H2 & H3). split; assumption. Qed.

Lemma tidy_sleep c r (b : bool) ms : tidy c r (if b then [Slept ms] else []).
Proof. unfold tidy. destruct b; cbn; destruct (c && negb r); repeat constructor. Qed.

Lemma feed_events input : forall slot m w,
  midi_inv m -> midi_wf m -> 0 <= slot < 4 ->
  Forall (fun x => 0 <= snd x < 256) input ->
  exists m' w' evs,
    feed input slot m w = Some (m', w') /\
    midi_inv m' /\ midi_wf m' /\
    trace w' = trace w ++ evs /\
    Forall (fun e => well_formed_dispatch e = true) evs /\
    (Forall (fun x => snd x < 0xf8) input ->
     captured_messages evs = if CaptureState_MIDI w then sent_packets evs else []).
Proof.
  induction input as [|[dt data] rest IH]; intros slot m w Hinv Hwf Hslot Hin; cbn [feed].
  - exists m, w, []. rewrite app_nil_r. split; [reflexivity|].
    split; [exact Hinv|]. split; [exact Hwf|]. split; [reflexivity|]. split; [constructor|].
    intros _. destruct (CaptureState_MIDI w); reflexivity.
  - apply Forall_cons in Hin as [Hd Hin]. cbn [snd] in Hd.
    destruct (MIDI_RawOutByte_events data slot m (elapse dt w) Hinv Hwf Hslot Hd)
      as (v & m1 & w1 & evs1 & Hget & -> & Hinv1 & Hwf1 & T1 & K1 & C1 & O1).
    cbn [mbind option_bind].
    destruct (IH slot m1 w1 Hinv1 Hwf1 Hslot Hin) as (m' & w' & evs2 & -> & Hinv' & Hwf' & T2 & W2 & Cp2).
    destruct (pace_spec (s_sysex v) (elapse dt w)) as [Tp _].
    change (trace (elapse dt w)) with (trace w) in Tp.
    change (CaptureState_MIDI (elapse dt w)) with (CaptureState_MIDI w) in *.
    exists m', w',
      ((if held_back (s_sysex v) (elapse dt w)
        then [Slept (sysex_start (s_sysex v) + sysex_delay (s_sysex v) - GetTicks (elapse dt w))]
        else []) ++ evs1 ++ evs2).
    split; [reflexivity|]. split; [exact Hinv'|]. split; [exact Hwf'|].
    split; [rewrite T2, T1, Tp, <- !app_assoc; reflexivity|].
    split.
    + rewrite !Forall_app. split; [|split; [apply O1|exact W2]].
      apply (tidy_sleep true false).
    + intros Hnr. apply Forall_cons in Hnr as [Hd' Hnr]. cbn [snd] in Hd'.
      destruct (Z.leb_spec 0xf8 data); [lia|].
      apply orderly_tidy in O1.
      specialize (Cp2 Hnr). rewrite C1 in Cp2.
      assert (H2 : tidy (CaptureState_MIDI w) false evs2) by (split; [exact W2|]; rewrite andb_true_r; exact Cp2).
      pose proof (tidy_app _ _ _ _ (tidy_sleep (CaptureState_MIDI w) false
                     (held_back (s_sysex v) (elapse dt w))
                     (sysex_start (s_sysex v) + sysex_delay (s_sysex v) - GetTicks (elapse dt w)))
                    (tidy_app _ _ _ _ O1 H2)) as [_ Hc].
      rewrite andb_true_r in Hc. exact Hc.
Qed.

End Streams.

(** The example sessions. *)
Lemma plain_midi_session : midi_session plain_midi.
Proof.
  apply (session_call midi_zero plain_midi session_start).
  apply (call_MIDI_ctor (fun s => s) (fun s => s) "auto" EmptyString (registered [])
           midi_zero (mkWorld 1000 false []) plain_midi plain_world).
  vm_compute. reflexivity.
Qed.





(** X4. The capture records what is sent: for bytes below 0xF8 fed to a
    slot in any state of a session, the messages [CAPTURE_AddMidi] gets
    as non-sysex are exactly the packets sent through [PlayMsg], in the
    same order, when a capture is running, and none when it is not. *)
Theorem capture_records_the_messages_sent
    (m : DB_Midi) (w : World) (slot : Z) (input : list (Z * Z)) :
  midi_session m -> 0 <= slot < 4 ->
  Forall (fun x => 0 <= snd x < 0xf8) input ->
  exists m' w' evs,
    feed input slot m w = Some (m', w') /\
    trace w' = trace w ++ evs /\
    captured_messages evs = if CaptureState_MIDI w then sent_packets evs else [].
Proof.
  intros Hr Hslot Hin. destruct (midi_session_inv m Hr) as [Hinv Hwf].
  destruct (feed_events input slot m w Hinv Hwf Hslot)
    as (m' & w' & evs & E & _ & _ & T & _ & C).
  { eapply Forall_impl; [exact Hin|]. cbn. intros; lia. }
  exists m', w', evs. split; [exact E|]. split; [exact T|].
  apply C. eapply Forall_impl; [exact Hin|]. cbn. intros; lia.
Qed.

Lemma capture_records_the_messages_sent_witness :
  exists m' w' evs,
    feed [(0, 0x90); (0, 60); (0, 100); (0, 62); (0, 0)] 0 plain_midi (mkWorld 0 true [])
      = Some (m', w') /\
    trace w' = evs /\
    captured_messages evs = sent_packets evs.
Proof.
  destruct (capture_records_the_messages_sent plain_midi (mkWorld 0 true []) 0
              [(0, 0x90); (0, 60); (0, 100); (0, 62); (0, 0)])
    as (m' & w' & evs & E & T & C).
  - exact plain_midi_session.
  - lia.
  - repeat constructor; cbn; lia.
  - exists m', w', evs. split; [exact E|]. split; [exact T|exact C].
Defined.



Section Collect.
Implicit Types (v : Slot) (w : World) (rt : list Z) (sx : sysex_t).




End Collect.

Section Framing.
Implicit Types (v : Slot) (w : World) (rt : list Z) (sx : sysex_t).



End Framing.



Section StringFacts.

Lemma prefix_substring p : forall s j,
  String.prefix p (substring 0 j s) = true -> String.prefix p s = true.
Proof.
  induction p as [|a p IH]; intros s j H.
  - destruct s; reflexivity.
  - destruct j as [|j]; destruct s as [|b s]; cbn in H; try discriminate H.
    cbn. destruct (Ascii.ascii_dec a b); [|discriminate H]. eapply IH. exact H.
Qed.

(** Nothing is left of [p] in front of its first occurrence. *)
Lemma index_substring p s : forall n,
  p <> EmptyString -> index 0 p s = Some n -> index 0 p (substring 0 n s) = None.
Proof.
  induction s as [|c s IH]; intros n Hp H.
  - cbn in H. destruct p; [contradiction|discriminate].
  - cbn [index] in H. destruct (String.prefix p (String c s)) eqn:E.
    + injection H as <-. cbn. destruct p; [contradiction|reflexivity].
    + destruct (index 0 p s) as [k|] eqn:Ek; [|discriminate]. injection H as <-.
      cbn [substring index].
      destruct (String.prefix p (String c (substring 0 k s))) eqn:E'.
      * apply (prefix_substring p (String c s) (S k)) in E'. congruence.
      * rewrite (IH k Hp eq_refl). reflexivity.
Qed.

End StringFacts.

Section Slots.
Implicit Types (m : DB_Midi) (v : Slot) (w : World).

Lemma ctor_slot_spec slot fullconf m w v :
  get_slot slot m = Some v ->
  ctor_slot slot (fullconf, m, w) =
    Some (match index 0 "delaysysex" fullconf with
          | Some at_ =>
              (substring 0 at_ fullconf,
               put_slot slot (ctor_cleared (GetTicks w) v) (rt_buf m) m,
               emit (LOG "MIDI: Using delayed SysEx processing") w)
          | None => (fullconf, put_slot slot (ctor_cleared 0 v) (rt_buf m) m, w)
          end).
Proof.
  intros H. unfold ctor_slot. rewrite H. cbn [mbind option_bind].
  destruct (index 0 "delaysysex" fullconf); reflexivity.
Qed.

Lemma ctor_slot_plain slot fullconf m w v :
  get_slot slot m = Some v -> index 0 "delaysysex" fullconf = None ->
  ctor_slot slot (fullconf, m, w) =
    Some (fullconf, put_slot slot (ctor_cleared 0 v) (rt_buf m) m, w).
Proof. intros H E. rewrite (ctor_slot_spec _ _ _ _ _ H), E. reflexivity. Qed.

Lemma get_slot_nonneg slot m v : get_slot slot m = Some v -> 0 <= slot.
Proof. intros H. apply get_slot_inv in H. tauto. Qed.

(** The loop over the four slots. *)
Lemma ctor_slots_spec fullconf m w v0 v1 v2 v3 :
  get_slot 0 m = Some v0 -> get_slot 1 m = Some v1 ->
  get_slot 2 m = Some v2 -> get_slot 3 m = Some v3 ->
  let armed := match index 0 "delaysysex" fullconf with Some _ => true | None => false end in
  exists m1,
    ctor_slots [0; 1; 2; 3] (fullconf, m, w) =
      Some (ctor_conf fullconf, m1,
            if armed then emit (LOG "MIDI: Using delayed SysEx processing") w else w) /\
    get_slot 0 m1 = Some (ctor_cleared (if armed then GetTicks w else 0) v0) /\
    get_slot 1 m1 = Some (ctor_cleared 0 v1) /\
    get_slot 2 m1 = Some (ctor_cleared 0 v2) /\
    get_slot 3 m1 = Some (ctor_cleared 0 v3) /\
    rt_buf m1 = rt_buf m /\ cmd_r m1 = cmd_r m /\
    available m1 = available m /\ handler m1 = handler m /\
    in_available m1 = in_available m /\ in_handler m1 = in_handler m /\
    realtime m1 = realtime m /\ inputdev m1 = inputdev m /\ autoinput m1 = autoinput m /\
    thruchan m1 = thruchan m /\ clockout m1 = clockout m.
Proof.
  intros H0 H1 H2 H3 armed.
  set (start := if armed then GetTicks w else 0).
  set (conf := ctor_conf fullconf).
  set (w1 := if armed then emit (LOG "MIDI: Using delayed SysEx processing") w else w).
  assert (Hrest : index 0 "delaysysex" conf = None).
  { unfold conf, ctor_conf. destruct (index 0 "delaysysex" fullconf) as [n|] eqn:E; [|exact E].
    apply index_substring; [discriminate|exact E]. }
  set (ma := put_slot 0 (ctor_cleared start v0) (rt_buf m) m).
  assert (E0 : ctor_slot 0 (fullconf, m, w) = Some (conf, ma, w1)).
  { rewrite (ctor_slot_spec _ _ _ _ _ H0). unfold conf, ctor_conf, ma, start, w1, armed.
    destruct (index 0 "delaysysex" fullconf); reflexivity. }
  assert (Ha0 : get_slot 0 ma = Some (ctor_cleared start v0)) by (eapply get_put_same; eassumption).
  assert (Ha1 : get_slot 1 ma = Some v1) by (unfold ma; rewrite get_put_other by lia; exact H1).
  assert (Ha2 : get_slot 2 ma = Some v2) by (unfold ma; rewrite get_put_other by lia; exact H2).
  assert (Ha3 : get_slot 3 ma = Some v3) by (unfold ma; rewrite get_put_other by lia; exact H3).
  set (mb := put_slot 1 (ctor_cleared 0 v1) (rt_buf ma) ma).
  assert (Hb0 : get_slot 0 mb = Some (ctor_cleared start v0)) by (unfold mb; rewrite get_put_other by lia; exact Ha0).
  assert (Hb1 : get_slot 1 mb = Some (ctor_cleared 0 v1)) by (eapply get_put_same; eassumption).
  assert (Hb2 : get_slot 2 mb = Some v2) by (unfold mb; rewrite get_put_other by lia; exact Ha2).
  assert (Hb3 : get_slot 3 mb = Some v3) by (unfold mb; rewrite get_put_other by lia; exact Ha3).
  set (mc := put_slot 2 (ctor_cleared 0 v2) (rt_buf mb) mb).
  assert (Hc0 : get_slot 0 mc = Some (ctor_cleared start v0)) by (unfold mc; rewrite get_put_other by lia; exact Hb0).
  assert (Hc1 : get_slot 1 mc = Some (ctor_cleared 0 v1)) by (unfold mc; rewrite get_put_other by lia; exact Hb1).
  assert (Hc2 : get_slot 2 mc = Some (ctor_cleared 0 v2)) by (eapply get_put_same; eassumption).
  assert (Hc3 : get_slot 3 mc = Some v3) by (unfold mc; rewrite get_put_other by lia; exact Hb3).
  set (md := put_slot 3 (ctor_cleared 0 v3) (rt_buf mc) mc).
  exists md. split.
  { cbn [ctor_slots]. rewrite E0. cbn [mbind option_bind].
    rewrite (ctor_slot_plain _ _ _ _ _ Ha1 Hrest). cbn [mbind option_bind]. fold mb.
    rewrite (ctor_slot_plain _ _ _ _ _ Hb2 Hrest). cbn [mbind option_bind]. fold mc.
    rewrite (ctor_slot_plain _ _ _ _ _ Hc3 Hrest). cbn [mbind option_bind]. reflexivity. }
  split; [unfold md; rewrite get_put_other by lia; exact Hc0|].
  split; [unfold md; rewrite get_put_other by lia; exact Hc1|].
  split; [unfold md; rewrite get_put_other by lia; exact Hc2|].
  split; [eapply get_put_same; eassumption|].
  repeat split.
Qed.

End Slots.

Section Sessions.
Implicit Types (m : DB_Midi) (v : Slot) (w : World) (h : MidiHandler).

Lemma first_open_In conf handlers : forall w h w',
  first_open conf handlers w = Some (h, w') -> In h handlers.
Proof.
  intros w h w' H. destruct (first_open_inv _ _ _ _ _ H) as (b & a & w1 & -> & _).
  apply in_or_app. right. left. reflexivity.
Qed.

Lemma getdefault_registered conf drivers m w :
  exists h w',
    getdefault conf (registered drivers) m w = Some (activated_by_default h m, w') /\
    In h (registered drivers).
Proof.
  rewrite getdefault_auto_select.
  destruct (auto_select_registered conf drivers w) as (h & w' & E). rewrite E.
  eexists _, _. split; [reflexivity|].
  unfold auto_select in E. apply first_open_In in E. apply List.filter_In in E. apply E.
Qed.

(** The search either opens a backend of the name or goes to [getdefault]. *)
Lemma find_device_cases dev conf all handlers : forall m w,
  (exists h w1, In h handlers /\
     find_device dev conf handlers all m w =
       Some (set_selection (Some h) true true MDEV_SBUART true false false m, w1)) \/
  (exists w1, find_device dev conf handlers all m w = getdefault conf all m w1).
Proof.
  induction handlers as [|h next IH]; intros m w; cbn [find_device].
  - right. eauto.
  - destruct (String.eqb dev (GetName h)).
    + destruct (Open h conf w) as [[|] w1]; cbn [negb].
      * left. eexists h, _. split; [left; reflexivity|reflexivity].
      * right. eauto.
    + destruct (IH m w) as [(h' & w1 & Hin & E)|(w1 & E)].
      * left. exists h', w1. split; [right; exact Hin|exact E].
      * right. eauto.
Qed.

Lemma select_handler_registered dev conf drivers m w :
  exists h w' autoin,
    select_handler dev conf (registered drivers) m w =
      Some (set_selection (Some h) true true MDEV_SBUART autoin false false m, w') /\
    In h (registered drivers).
Proof.
  unfold select_handler. destruct (_ || _).
  - destruct (getdefault_registered conf drivers m w) as (h & w' & E & Hin).
    exists h, w', false. split; [exact E|exact Hin].
  - destruct (find_device_cases dev conf (registered drivers) (registered drivers) m w)
      as [(h & w1 & Hin & E)|(w1 & E)].
    + exists h, w1, true. split; [exact E|exact Hin].
    + rewrite E. destruct (getdefault_registered conf drivers m w1) as (h & w' & E' & Hin).
      exists h, w', false. split; [exact E'|exact Hin].
Qed.

Lemma select_handler_flags dev conf hl m w m' w' :
  select_handler dev conf hl m w = Some (m', w') ->
  thruchan m' = false /\ clockout m' = false /\ realtime m' = true /\
  inputdev m' = MDEV_SBUART /\ available m' = true.
Proof.
  assert (Hd : forall m w m' w', getdefault conf hl m w = Some (m', w') ->
            thruchan m' = false /\ clockout m' = false /\ realtime m' = true /\
            inputdev m' = MDEV_SBUART /\ available m' = true).
  { clear. intros m w m' w'. rewrite getdefault_auto_select.
    destruct (auto_select conf hl w) as [[h w1]|]; [|discriminate].
    intros [= <- <-]. repeat split. }
  unfold select_handler. destruct (_ || _); [apply Hd|].
  destruct (find_device_cases dev conf hl hl m w) as [(h & w1 & _ & E)|(w1 & E)]; rewrite E.
  - intros [= <- <-]. repeat split.
  - apply Hd.
Qed.

Lemma midi_inv_slots m :
  midi_inv m ->
  exists v0 v1 v2 v3,
    get_slot 0 m = Some v0 /\ get_slot 1 m = Some v1 /\
    get_slot 2 m = Some v2 /\ get_slot 3 m = Some v3.
Proof.
  intros Hinv.
  destruct (midi_inv_slot m 0 Hinv) as (v0 & H0 & _); [lia|].
  destruct (midi_inv_slot m 1 Hinv) as (v1 & H1 & _); [lia|].
  destruct (midi_inv_slot m 2 Hinv) as (v2 & H2 & _); [lia|].
  destruct (midi_inv_slot m 3 Hinv) as (v3 & H3 & _); [lia|].
  eauto 10.
Qed.

End Sessions.

(** X7. [delaysysex] in [midiconfig] arms pacing for slot 0 only. The loop
    of the constructor finds the word at slot 0, cuts [midiconfig] off at
    the word and logs the fact once, and the backend is selected with
    what stood in front of the word, trimmed, as its configuration. In
    the state the constructor leaves, [sysex.start] of slot 0 is the time
    of the call and that of the other three slots is 0, and every slot
    has [sysex.delay = 0]. *)
Theorem delaysysex_arms_the_first_slot_only
    (lowcase trim : string -> string) (mididevice midiconfig : string)
    (handler_list : list MidiHandler) (m : DB_Midi) (w : World) (n : nat) :
  midi_inv m -> index 0 "delaysysex" midiconfig = Some n ->
  exists m1,
    MIDI_ctor lowcase trim mididevice midiconfig handler_list m w =
      select_handler (lowcase mididevice) (trim (substring 0 n midiconfig)) handler_list m1
        (emit (LOG "MIDI: Using delayed SysEx processing") w) /\
    forall m' w', MIDI_ctor lowcase trim mididevice midiconfig handler_list m w = Some (m', w') ->
    forall slot v, get_slot slot m' = Some v ->
      sysex_start (s_sysex v) = (if slot =? 0 then GetTicks w else 0) /\
      sysex_delay (s_sysex v) = 0.
Proof.
  intros Hinv Hidx.
  destruct (midi_inv_slots m Hinv) as (v0 & v1 & v2 & v3 & H0 & H1 & H2 & H3).
  destruct (ctor_slots_spec midiconfig m w v0 v1 v2 v3 H0 H1 H2 H3)
    as (m1 & E & G0 & G1 & G2 & G3 & _).
  rewrite Hidx in E, G0. unfold ctor_conf in E. rewrite Hidx in E.
  exists m1. unfold MIDI_ctor. rewrite E. cbn [mbind option_bind]. split; [reflexivity|].
  intros m' w' Hsel slot v Hv.
  pose proof (select_handler_same_arrays _ _ _ _ _ _ _ Hsel) as Hs.
  assert (Hinv' : midi_inv m').
  { eapply MIDI_ctor_preserves; [exact Hinv|]. unfold MIDI_ctor. rewrite E.
    cbn [mbind option_bind]. exact Hsel. }
  pose proof (get_slot_range _ _ _ Hinv' Hv) as Hr.
  rewrite (same_arrays_get_slot _ _ _ Hs) in Hv.
  assert (Hc : slot = 0 \/ slot = 1 \/ slot = 2 \/ slot = 3) by lia.
  destruct Hc as [-> | [-> | [-> | ->]]]; rewrite ?G0, ?G1, ?G2, ?G3 in Hv;
    injection Hv as <-; split; reflexivity.
Qed.

Lemma delaysysex_arms_the_first_slot_only_witness :
  exists m1,
    MIDI_ctor (fun s => s) (fun s => s) "auto" "delaysysex" (registered []) midi_zero
              (mkWorld 1000 false []) =
      select_handler "auto" EmptyString (registered []) m1
        (emit (LOG "MIDI: Using delayed SysEx processing") (mkWorld 1000 false [])) /\
    sysex_start (s_sysex (slot0 paced_midi)) = 1000 /\
    forall v, get_slot 1 paced_midi = Some v -> sysex_start (s_sysex v) = 0.
Proof.
  destruct (delaysysex_arms_the_first_slot_only (fun s => s) (fun s => s) "auto" "delaysysex"
              (registered []) midi_zero (mkWorld 1000 false []) 0)
    as (m1 & E & H).
  - apply midi_inv_zero.
  - reflexivity.
  - exists m1. split; [exact E|].
    assert (Hp : MIDI_ctor (fun s => s) (fun s => s) "auto" "delaysysex" (registered [])
                   midi_zero (mkWorld 1000 false []) = Some (paced_midi, paced_world))
      by (vm_compute; reflexivity).
    split.
    + apply (H _ _ Hp 0 (slot0 paced_midi)). vm_compute. reflexivity.
    + intros v Hv. apply (H _ _ Hp 1 v Hv).
Defined.

(** X8. The constructor always ends with a backend in place: from any
    state that satisfies the invariant, for any device name and
    configuration and any registered drivers, it returns with [available]
    and [realtime] set, [inputdev = MDEV_SBUART], thru and clock output
    off and a handler from the registered list; and every slot keeps its
    buffers and has its parser reset. *)
Theorem a_constructed_session_is_available
    (lowcase trim : string -> string) (mididevice midiconfig : string)
    (drivers : list MidiHandler) (m : DB_Midi) (w : World) :
  midi_inv m ->
  exists m' w' h,
    MIDI_ctor lowcase trim mididevice midiconfig (registered drivers) m w = Some (m', w') /\
    MIDI_Available m' = true /\ handler m' = Some h /\ In h (registered drivers) /\
    realtime m' = true /\ inputdev m' = MDEV_SBUART /\
    thruchan m' = false /\ clockout m' = false /\
    forall slot v, get_slot slot m = Some v ->
      exists start, get_slot slot m' = Some (ctor_cleared start v).
Proof.
  intros Hinv.
  destruct (midi_inv_slots m Hinv) as (v0 & v1 & v2 & v3 & H0 & H1 & H2 & H3).
  destruct (ctor_slots_spec midiconfig m w v0 v1 v2 v3 H0 H1 H2 H3)
    as (m1 & E & G0 & G1 & G2 & G3 & _).
  unfold MIDI_ctor. rewrite E. cbn [mbind option_bind].
  match goal with |- context [select_handler ?d ?c _ _ ?w1] =>
    destruct (select_handler_registered d c drivers m1 w1) as (h & w' & autoin & Es & Hin)
  end.
  rewrite Es. eexists _, _, h. split; [reflexivity|].
  do 7 (split; [first [reflexivity | exact Hin]|]).
  intros slot v Hv.
  pose proof (get_slot_range _ _ _ Hinv Hv) as Hr.
  assert (Hsame : forall s, get_slot s (set_selection (Some h) true true MDEV_SBUART autoin false false m1)
                            = get_slot s m1) by reflexivity.
  rewrite Hsame.
  assert (Hc : slot = 0 \/ slot = 1 \/ slot = 2 \/ slot = 3) by lia.
  destruct Hc as [-> | [-> | [-> | ->]]];
    rewrite ?H0, ?H1, ?H2, ?H3 in Hv; injection Hv as <-; eauto.
Qed.

Lemma a_constructed_session_is_available_witness :
  exists m' w' h,
    MIDI_ctor (fun s => s) (fun s => s) "auto" EmptyString (registered example_drivers)
              midi_zero fresh_world = Some (m', w') /\
    MIDI_Available m' = true /\ handler m' = Some h /\ In h (registered example_drivers).
Proof.
  destruct (a_constructed_session_is_available (fun s => s) (fun s => s) "auto" EmptyString
              example_drivers midi_zero fresh_world)
    as (m' & w' & h & E & Ha & Hh & Hin & _).
  - apply midi_inv_zero.
  - exists m', w', h. auto.
Defined.

(** X9. A backend asked for by name is used when it opens: for a device
    name other than "auto" and "default", the first handler of the list
    that has the name is opened with the configuration, and when [Open]
    succeeds it becomes the handler, with [autoinput] on; the world is
    the one this [Open] leaves, with the success logged. *)
Theorem a_named_backend_is_opened_by_name
    (dev conf : string) (handler_list before after : list MidiHandler) (h : MidiHandler)
    (m : DB_Midi) (w w1 : World) :
  dev <> "auto"%string -> dev <> "default"%string ->
  handler_list = before ++ h :: after ->
  (forall h', In h' before -> GetName h' <> dev) ->
  GetName h = dev ->
  Open h conf w = (true, w1) ->
  select_handler dev conf handler_list m w =
    Some (set_selection (Some h) true true MDEV_SBUART true false false m,
          emit (LOG ("MIDI: Opened device: " ++ dev)) w1).
Proof.
  intros Ha Hd -> Hno Hname Hopen.
  unfold select_handler. apply String.eqb_neq in Ha, Hd. rewrite Ha, Hd. cbn [orb].
  generalize (before ++ h :: after) at 2. intros all.
  induction before as [|h0 rest IH]; cbn [app find_device].
  - rewrite <- Hname, String.eqb_refl, Hopen. reflexivity.
  - destruct (String.eqb_spec dev (GetName h0)) as [E|_].
    + exfalso. apply (Hno h0); [left; reflexivity|]. congruence.
    + apply IH. intros h' Hin. apply Hno. right. exact Hin.
Qed.

Lemma a_named_backend_is_opened_by_name_witness :
  select_handler "mt32" EmptyString example_drivers midi_zero fresh_world =
    Some (set_selection (Some (mkHandler "mt32" (fun _ w => (true, w))))
            true true MDEV_SBUART true false false midi_zero,
          emit (LOG "MIDI: Opened device: mt32") fresh_world).
Proof.
  apply (a_named_backend_is_opened_by_name "mt32" EmptyString example_drivers
           [mkHandler "fluidsynth" (fun _ w => (true, w))]
           [mkHandler "oss" (fun _ w => (false, w))]
           (mkHandler "mt32" (fun _ w => (true, w))) midi_zero fresh_world fresh_world).
  - discriminate.
  - discriminate.
  - reflexivity.
  - intros h' [<-|[]]. discriminate.
  - reflexivity.
  - reflexivity.
Defined.

(** X10. After a fallback the input device is fixed: when the selection
    falls back to [getdefault] (for "auto" and "default", for a name no
    handler has, and when [Open] fails), [autoinput] is off and
    [inputdev] is MDEV_SBUART, and [MIDI_ToggleInputDevice] returns -1
    for every device and status and changes nothing. *)
Theorem the_input_device_is_fixed_after_a_fallback
    (dev conf : string) (drivers : list MidiHandler) (m m' : DB_Midi) (w w1 w' : World) :
  falls_back dev conf (registered drivers) w w1 ->
  select_handler dev conf (registered drivers) m w = Some (m', w') ->
  autoinput m' = false /\ inputdev m' = MDEV_SBUART /\
  forall device status, MIDI_ToggleInputDevice device status m' = (-1, m').
Proof.
  intros Hfb Hsel.
  rewrite (select_handler_falls_back _ _ _ _ _ _ Hfb), getdefault_auto_select in Hsel.
  destruct (auto_select conf (registered drivers) w1) as [[h w2]|]; [|discriminate].
  injection Hsel as <- <-. split; [reflexivity|]. split; [reflexivity|].
  intros device status. reflexivity.
Qed.

Lemma the_input_device_is_fixed_after_a_fallback_witness :
  exists m' w',
    select_handler "auto" EmptyString (registered example_drivers) midi_zero fresh_world
      = Some (m', w') /\
    autoinput m' = false /\
    MIDI_ToggleInputDevice MDEV_MPU true m' = (-1, m').
Proof.
  destruct (select_handler "auto" EmptyString (registered example_drivers) midi_zero fresh_world)
    as [[m' w']|] eqn:E.
  - exists m', w'. split; [reflexivity|].
    destruct (the_input_device_is_fixed_after_a_fallback "auto" EmptyString example_drivers
                midi_zero m' fresh_world fresh_world w') as (Ha & _ & Ht).
    + apply fb_auto. left. reflexivity.
    + exact E.
    + split; [exact Ha|apply Ht].
  - vm_compute in E. discriminate.
Defined.

(** X11. With [autoinput] on, [MIDI_ToggleInputDevice device true] makes
    [device] the input device, returning 1 if it was already and 0 if
    not, and [MIDI_ToggleInputDevice device false] after it returns 2 and
    leaves MDEV_NONE. In between, [MIDI_InputMsg] and [MIDI_InputSysex]
    pass what they are given on to the Sound Blaster UART exactly when
    [device] is MDEV_SBUART; afterwards they drop it, [MIDI_InputSysex]
    returning 0. *)
Theorem selecting_and_deselecting_an_input_device
    {SB : Type} (SB_UART_InputMsg : list Z -> Z -> SB -> SB)
    (SB_UART_InputSysex : list Z -> Z -> bool -> SB -> Z * SB)
    (m : DB_Midi) (device : Z) :
  autoinput m = true ->
  let '(r1, m1) := MIDI_ToggleInputDevice device true m in
  let '(r2, m2) := MIDI_ToggleInputDevice device false m1 in
  r1 = (if inputdev m =? device then 1 else 0) /\
  inputdev m1 = device /\
  r2 = 2 /\ m2 = set_inputdev MDEV_NONE m /\
  (forall msg len sb,
     MIDI_InputMsg SB SB_UART_InputMsg msg len m1 sb =
       if device =? MDEV_SBUART then SB_UART_InputMsg msg len sb else sb) /\
  (forall sysex len abort sb,
     MIDI_InputSysex SB SB_UART_InputSysex sysex len abort m1 sb =
       if device =? MDEV_SBUART then SB_UART_InputSysex sysex len abort sb else (0, sb)) /\
  (forall msg len sb, MIDI_InputMsg SB SB_UART_InputMsg msg len m2 sb = sb) /\
  (forall sysex len abort sb,
     MIDI_InputSysex SB SB_UART_InputSysex sysex len abort m2 sb = (0, sb)).
Proof.
  intros Hauto. unfold MIDI_ToggleInputDevice. rewrite Hauto. cbn [negb].
  destruct (Z.eqb_spec (inputdev m) device) as [E|E].
  - rewrite Hauto. cbn [negb]. rewrite E, Z.eqb_refl.
    unfold MIDI_InputMsg, MIDI_InputSysex. rewrite E. cbn.
    repeat split; reflexivity.
  - cbn [set_inputdev set_selection autoinput inputdev negb]. rewrite Hauto, Z.eqb_refl.
    cbn [negb]. unfold MIDI_InputMsg, MIDI_InputSysex. cbn.
    repeat split; reflexivity.
Qed.

Lemma named_midi_autoinput : autoinput named_midi = true.
Proof. vm_compute. reflexivity. Qed.

Lemma selecting_and_deselecting_an_input_device_witness :
  let m1 := snd (MIDI_ToggleInputDevice MDEV_SBUART true named_midi) in
  let m2 := snd (MIDI_ToggleInputDevice MDEV_SBUART false m1) in
  fst (MIDI_ToggleInputDevice MDEV_SBUART true named_midi) = 1 /\
  fst (MIDI_ToggleInputDevice MDEV_SBUART false m1) = 2 /\
  MIDI_InputMsg _ example_InputMsg [0x90; 60; 100; 0] 3 m1 [] = [[0x90; 60; 100]] /\
  MIDI_InputMsg _ example_InputMsg [0x90; 60; 100; 0] 3 m2 [] = [].
Proof.
  pose proof (selecting_and_deselecting_an_input_device example_InputMsg example_InputSysex
                named_midi MDEV_SBUART named_midi_autoinput) as H.
  cbv zeta.
  destruct (MIDI_ToggleInputDevice MDEV_SBUART true named_midi) as [r1 m1] eqn:E1.
  cbn [fst snd].
  destruct (MIDI_ToggleInputDevice MDEV_SBUART false m1) as [r2 m2] eqn:E2.
  cbn [fst snd].
  destruct H as (H1 & _ & H2 & _ & H3 & _ & H4 & _).
  split; [rewrite H1; vm_compute; reflexivity|]. split; [exact H2|].
  split; [rewrite H3; reflexivity|apply H4].
Defined.

(** X12. No call of the interface turns [thruchan] or [clockout] on: in
    every state of a session both are off, so [MIDI_RawOutThruRTByte]
    sends nothing and changes nothing, and [MIDI_RawOutRTByte] drops the
    clock byte 0xF8. *)
Theorem thru_and_clock_bytes_are_never_sent
    (m : DB_Midi) (Bitu_bits : Z) (little_endian : bool) (data : Z) (w : World) :
  midi_session m ->
  thruchan m = false /\ clockout m = false /\
  MIDI_RawOutThruRTByte Bitu_bits little_endian data m w = (m, w) /\
  MIDI_RawOutRTByte Bitu_bits little_endian 0xF8 m w = (m, w).
Proof.
  intros Hs.
  assert (H : thruchan m = false /\ clockout m = false).
  { clear -Hs. induction Hs as [|m m' _ [Ht Hc] Hcall]; [split; reflexivity|].
    destruct Hcall as [lc tr dev cfg hl m w m' w' H|data slot m w m' w' Hd H
                      |bits le data m w|bits le data m w|slot m m' H|device status m].
    - unfold MIDI_ctor in H.
      destruct (ctor_slots _ _) as [[[f1 m1] w1]|]; cbn [mbind option_bind] in H; [|discriminate].
      apply select_handler_flags in H. tauto.
    - unfold MIDI_RawOutByte in H. destruct (get_slot slot m); cbn [mbind option_bind] in H; [|discriminate].
      destruct (RawOutByte_slot _ _ _ _) as [[[v' rt'] w1]|]; cbn [mbind option_bind] in H; [|discriminate].
      injection H as <- <-. auto.
    - rewrite MIDI_RawOutRTByte_gate. destruct (_ || _); auto.
    - unfold MIDI_RawOutThruRTByte. rewrite Ht. auto.
    - unfold MIDI_ClearBuffer in H. destruct (get_slot slot m); cbn [mbind option_bind] in H; [|discriminate].
      injection H as <-. auto.
    - unfold MIDI_ToggleInputDevice. destruct (negb _); [auto|].
      destruct (_ =? _); [destruct (negb status)|]; auto. }
  destruct H as [Ht Hc]. split; [exact Ht|]. split; [exact Hc|].
  split; [unfold MIDI_RawOutThruRTByte; rewrite Ht; reflexivity|].
  rewrite MIDI_RawOutRTByte_gate, Hc. cbn. rewrite orb_true_r. reflexivity.
Qed.

Lemma thru_and_clock_bytes_are_never_sent_witness :
  MIDI_RawOutThruRTByte 64 true 0xFA plain_midi plain_world = (plain_midi, plain_world) /\
  MIDI_RawOutRTByte 64 true 0xF8 plain_midi plain_world = (plain_midi, plain_world).
Proof.
  destruct (thru_and_clock_bytes_are_never_sent plain_midi 64 true 0xFA plain_world
              plain_midi_session) as (_ & _ & H1 & H2).
  split; [exact H1|exact H2].
Defined.

Section TuneRequest.
Implicit Types (v : Slot) (w : World) (rt : list Z).

Lemma tune_request_repeats input : forall x1 tl sx rt w,
  Forall (fun x => data_byte (snd x)) input ->
  exists y1 w' msgs,
    feed_slot input (mkSlot 0xF6 (mkCmd 1 1 (0xF6 :: x1 :: tl)) sx) rt w
      = Some (mkSlot 0xF6 (mkCmd 1 1 (0xF6 :: y1 :: tl)) sx, rt, w') /\
    dispatches w' = dispatches w ++ List.map PlayMsg msgs /\
    List.map PlayMsg_packet msgs = replicate (length input) [0xF6].
Proof.
  induction input as [|[dt d] rest IH]; intros x1 tl sx rt w Hin; cbn [feed_slot].
  - exists x1, w, []. cbn. rewrite app_nil_r. auto.
  - apply Forall_cons in Hin as [Hd Hin]. cbn [snd] in Hd. unfold data_byte in Hd.
    rewrite RawOutByte_data by (cbn; try discriminate; assumption).
    rewrite cmd_block_store by (cbn; lia). plain_step.
    match goal with |- context [feed_slot rest _ rt ?w0] =>
      destruct (IH d tl sx rt w0 Hin) as (y1 & w' & msgs & -> & D & P)
    end.
    exists y1, w', ((0xF6 :: d :: tl) :: msgs). split; [reflexivity|].
    split; [rewrite D, dispatches_emit, dispatches_when_capturing, dispatches_pace,
              dispatches_elapse, <- app_assoc; reflexivity|].
    cbn [List.map length replicate]. rewrite P. reflexivity.
Qed.

End TuneRequest.

(** X13. Data bytes after a Tune Request repeat it. 0xF6 is a message of
    one byte and is sent at once, and the slot is left at position 1 of a
    message of length 1, so every data byte that follows completes a
    message again: on a slot that is not inside a sysex, 0xF6 followed by
    [n] data bytes dispatches [n + 1] packets, each of them the byte
    0xF6. *)
Theorem data_after_a_tune_request_repeats_it
    (m : DB_Midi) (w : World) (slot : Z) (v : Slot) (ds : list Z) (input : list (Z * Z)) :
  get_slot slot m = Some v -> slot_inv v -> s_status v <> 0xf0 ->
  Forall data_byte ds ->
  List.map snd input = 0xF6 :: ds ->
  exists m' w' msgs,
    feed input slot m w = Some (m', w') /\
    dispatches w' = dispatches w ++ List.map PlayMsg msgs /\
    List.map PlayMsg_packet msgs = replicate (S (length ds)) [0xF6].
Proof.
  intros Hget Hinv Hst Hds Hin.
  destruct (slot_inv_cmd_buf v Hinv) as (x0 & x1 & x2 & tl & Hbuf).
  apply map_snd_cons in Hin as (t0 & in1 & -> & Hin).
  rewrite (feed_on_slot _ _ _ _ _ Hget). cbn [feed_slot].
  rewrite RawOutByte_status by (try assumption; lia).
  rewrite cmd_block_store by (cbn; rewrite ?Hbuf; cbn; first [discriminate | lia]).
  cbn [s_cmd cmd_len cmd_pos cmd_buf s_status s_sysex]. rewrite Hbuf.
  change (MIDI_evt_len 0xF6) with 1.
  change (1 <=? 0 + 1) with true. cbv iota. cbn [mbind option_bind].
  change (<[Z.to_nat 0 := 246]> (x0 :: x1 :: x2 :: tl)) with (0xF6 :: x1 :: x2 :: tl).
  change (take (Z.to_nat 1) (0xF6 :: x1 :: x2 :: tl)) with [0xF6].
  destruct (tune_request_repeats in1 x1 (x2 :: tl) (s_sysex v) (rt_buf m)
              (emit (PlayMsg (0xF6 :: x1 :: x2 :: tl))
                 (when_capturing (CAPTURE_AddMidi false 1 [0xF6]) (pace (s_sysex v) (elapse t0 w)))))
    as (y1 & w' & msgs & -> & D & P).
  { rewrite Forall_forall. intros [dt d] Hd. rewrite Forall_forall in Hds.
    apply Hds. rewrite <- Hin. apply list_elem_of_In. apply in_map_iff.
    exists (dt, d). split; [reflexivity|]. apply list_elem_of_In. exact Hd. }
  cbn [mbind option_bind].
  eexists _, w', ((0xF6 :: x1 :: x2 :: tl) :: msgs). split; [reflexivity|].
  split; [rewrite D, dispatches_emit, dispatches_when_capturing, dispatches_pace,
            dispatches_elapse, <- app_assoc; reflexivity|].
  cbn [List.map replicate]. rewrite P, <- Hin, length_map. reflexivity.
Qed.

Lemma data_after_a_tune_request_repeats_it_witness :
  exists m' w' msgs,
    feed [(0, 0xF6); (0, 1); (0, 2)] 0 plain_midi plain_world = Some (m', w') /\
    dispatches w' = dispatches plain_world ++ List.map PlayMsg msgs /\
    List.map PlayMsg_packet msgs = [[0xF6]; [0xF6]; [0xF6]].
Proof.
  apply (data_after_a_tune_request_repeats_it plain_midi plain_world 0 (slot0 plain_midi) [1; 2]).
  - exact plain_slot0.
  - exact plain_slot0_inv.
  - vm_compute. discriminate.
  - repeat constructor; unfold data_byte; lia.
  - reflexivity.
Defined.

Lemma get_put_frame slot slot' (m : DB_Midi) (v v' : Slot) rt :
  get_slot slot m = Some v -> slot' <> slot ->
  get_slot slot' (put_slot slot v' rt m) = get_slot slot' m.
Proof.
  intros Hget Hne. pose proof (get_slot_nonneg _ _ _ Hget).
  destruct (Z.le_gt_cases 0 slot').
  - apply get_put_other; lia.
  - unfold get_slot. destruct (Z.leb_spec 0 slot'); [lia|reflexivity].
Qed.

(** X14. [MIDI_ClearBuffer] abandons what a slot collected: it sets the
    status, the length and the position of the message and [sysex.used]
    of the slot to 0, keeps its buffers and its pacing values, and leaves
    the other slots as they are. Data bytes that follow are dropped, and
    a 0xF7 after them dispatches nothing: a sysex that was being
    collected is never sent. *)
Theorem clearing_a_slot_abandons_what_it_collected
    (m : DB_Midi) (slot : Z) (v : Slot) :
  get_slot slot m = Some v ->
  exists m1,
    MIDI_ClearBuffer slot m = Some m1 /\
    get_slot slot m1 =
      Some (mkSlot 0 (mkCmd 0 0 (cmd_buf (s_cmd v)))
              (mkSysex (sysex_buf (s_sysex v)) 0
                 (sysex_delay (s_sysex v)) (sysex_start (s_sysex v)))) /\
    (forall slot', slot' <> slot -> get_slot slot' m1 = get_slot slot' m) /\
    forall (input : list (Z * Z)) (tt : Z) (w : World),
      Forall (fun x => data_byte (snd x)) input ->
      exists m' w',
        feed (input ++ [(tt, 0xF7)]) slot m1 w = Some (m', w') /\
        dispatches w' = dispatches w.
Proof.
  intros Hget. unfold MIDI_ClearBuffer. rewrite Hget. cbn [mbind option_bind].
  eexists. split; [reflexivity|].
  set (v1 := mkSlot _ _ _). set (m1 := put_slot _ _ _ _).
  assert (Hget1 : get_slot slot m1 = Some v1) by (eapply get_put_same; eassumption).
  split; [exact Hget1|]. split.
  { intros slot' Hne. eapply get_put_frame; eassumption. }
  intros input tt w Hin.
  assert (Hst1 : s_status v1 <> 0xf0) by (cbn; discriminate).
  rewrite (feed_on_slot _ _ _ _ _ Hget1), feed_slot_app.
  destruct (stray_data_on_slot input v1 (rt_buf m1) w Hst1 eq_refl Hin) as (w1 & -> & D1).
  cbn [mbind option_bind feed_slot].
  rewrite RawOutByte_status by (try assumption; lia).
  change (MIDI_evt_len 0xF7) with 0.
  unfold cmd_block. cbn [s_cmd cmd_len Z.eqb negb mbind option_bind].
  eexists _, _. split; [reflexivity|].
  rewrite dispatches_pace, dispatches_elapse. exact D1.
Qed.

Lemma clearing_a_slot_abandons_what_it_collected_witness :
  s_status (slot0 collecting_midi) = 0xF0 /\ sysex_used (s_sysex (slot0 collecting_midi)) = 3 /\
  exists m1,
    MIDI_ClearBuffer 0 collecting_midi = Some m1 /\
    s_status (slot0 m1) = 0 /\ sysex_used (s_sysex (slot0 m1)) = 0 /\
    exists m' w',
      feed [(0, 0x16); (0, 0x12); (0, 0xF7)] 0 m1 plain_world = Some (m', w') /\
      dispatches w' = dispatches plain_world.
Proof.
  split; [vm_compute; reflexivity|]. split; [vm_compute; reflexivity|].
  destruct (clearing_a_slot_abandons_what_it_collected collecting_midi 0 (slot0 collecting_midi))
    as (m1 & E & G & _ & H).
  - vm_compute. reflexivity.
  - exists m1. split; [exact E|]. unfold slot0 at 1 2. rewrite G.
    split; [reflexivity|]. split; [reflexivity|].
    apply (H [(0, 0x16); (0, 0x12)] 0 plain_world).
    repeat constructor; unfold data_byte; cbn; lia.
Defined.





Section Leftovers.
Implicit Types (v : Slot) (w : World) (rt : list Z) (sx : sysex_t).




End Leftovers.





(** * Properties of the Disney Sound Source *)

Import Disney.

Section Clock.

Lemma Qltb_lt x y : Qltb x y = true <-> (x < y)%Q.
Proof.
  unfold Qltb. rewrite negb_true_iff. split.
  - intros H. apply Qnot_le_lt. intros Hle. apply Qle_bool_iff in Hle. congruence.
  - intros H. destruct (Qle_bool y x) eqn:E; [|reflexivity].
    apply Qle_bool_iff in E. exfalso. exact (Qlt_not_le _ _ H E).
Qed.

Lemma Qltb_ge x y : Qltb x y = false <-> (y <= x)%Q.
Proof.
  unfold Qltb. rewrite negb_false_iff. apply Qle_bool_iff.
Qed.

Lemma periods_in (a : Q) : (a / ms_per_frame == a * 7)%Q.
Proof.
  unfold Qdiv. assert (H : (/ ms_per_frame == 7)%Q) by reflexivity.
  rewrite H. reflexivity.
Qed.

(** One round of the loop brings the cursor one period closer. *)
Lemma behind_after_round (now last : Q) :
  (last < now)%Q ->
  1 <= Qceiling ((now - last) / ms_per_frame) /\
  Qceiling ((now - (last + ms_per_frame)) / ms_per_frame)
    <= Qceiling ((now - last) / ms_per_frame) - 1.
Proof.
  intros Hlt. rewrite !periods_in.
  assert (Hms : (ms_per_frame == 1 # 7)%Q) by reflexivity.
  pose proof (Qle_ceiling ((now - last) * 7)) as Hc.
  remember (Qceiling ((now - last) * 7)) as c eqn:Ec. clear Ec.
  split.
  - assert (H0 : (0 < inject_Z c)%Q) by (clear Hms; lra).
    change 0%Q with (inject_Z 0) in H0.
    rewrite <- Zlt_Qlt in H0. lia.
  - rewrite <- (Qceiling_Z (c - 1)). apply Qceiling_resp_le.
    unfold Z.sub. rewrite inject_Z_plus, Hms.
    change (inject_Z (- (1))) with (- (1))%Q. lra.
Qed.

End Clock.


Section EngineFacts.
Context {float_t : Type} (lut_u8to16 : Z -> float_t).
Implicit Types (d : Disney float_t) (now : Q).

Lemma Render_spec d :
  fifo d <> [] ->
  exists front popped,
    fifo d = front :: popped /\
    Render lut_u8to16 d =
      Some (frame_of lut_u8to16 front,
            if (1 <? length (fifo d))%nat then set_fifo popped d else d).
Proof.
  intros Hne. unfold Render. destruct (fifo d) as [|front popped] eqn:E; [contradiction|].
  exists front, popped. split; reflexivity.
Qed.

Lemma Render_inv d :
  fifo_inv d ->
  exists frame d',
    Render lut_u8to16 d = Some (frame, d') /\
    fifo_inv d' /\ (length (fifo d') <= length (fifo d))%nat /\
    (length (fifo d) = 1%nat -> fifo d' = fifo d) /\
    render_queue d' = render_queue d /\ last_rendered_ms d' = last_rendered_ms d.
Proof.
  unfold fifo_inv, max_fifo_size. intros Hinv.
  destruct (Render_spec d) as (front & popped & E & ->).
  { intros E. rewrite E in Hinv. simpl in Hinv. lia. }
  eexists _, _. split; [reflexivity|]. rewrite E in *. simpl length in *.
  destruct (Nat.ltb_spec 1 (S (length popped))); simpl; rewrite ?E; simpl; repeat split; try lia.
Qed.

Lemma render_loop_enough fuel now : forall d,
  fifo_inv d -> (frames_behind now d <= fuel)%nat ->
  exists d',
    render_loop lut_u8to16 fuel now d = Some d' /\
    fifo_inv d' /\ (length (fifo d') <= length (fifo d))%nat /\
    (length (fifo d) = 1%nat -> fifo d' = fifo d) /\
    (now <= last_rendered_ms d')%Q.
Proof.
  induction fuel as [|fuel IH]; intros d Hinv Hfuel.
  - cbn [render_loop]. destruct (Qltb (last_rendered_ms d) now) eqn:E.
    + apply Qltb_lt in E. destruct (behind_after_round now _ E) as [H1 _].
      unfold frames_behind in Hfuel. lia.
    + apply Qltb_ge in E. exists d.
      split; [reflexivity|]. split; [exact Hinv|]. split; [lia|]. split; [auto|exact E].
  - cbn [render_loop]. destruct (Qltb (last_rendered_ms d) now) eqn:E.
    + apply Qltb_lt in E. destruct (behind_after_round now _ E) as [H1 H2].
      set (d1 := set_last_rendered_ms (last_rendered_ms d + ms_per_frame)%Q d).
      destruct (Render_inv d1 Hinv) as (frame & d2 & -> & Hinv2 & Hlen2 & Hone2 & Hq2 & Hl2).
      cbn [mbind option_bind].
      destruct (IH (set_render_queue (render_queue d2 ++ [frame]) d2)) as (d' & -> & Hinv' & Hlen' & Hone' & Hnow).
      * exact Hinv2.
      * unfold frames_behind in *. cbn [last_rendered_ms set_render_queue]. rewrite Hl2.
        cbn [d1 last_rendered_ms set_last_rendered_ms]. lia.
      * exists d'. split; [reflexivity|]. split; [exact Hinv'|].
        cbn [fifo set_render_queue] in *. change (fifo d1) with (fifo d) in *.
        split; [lia|]. split; [|exact Hnow].
        intros H1'. rewrite Hone', (Hone2 H1'); [reflexivity|].
        rewrite (Hone2 H1'). exact H1'.
    + apply Qltb_ge in E. exists d.
      split; [reflexivity|]. split; [exact Hinv|]. split; [lia|]. split; [auto|exact E].
Qed.

Lemma RenderUpToNow_inv now woke d :
  fifo_inv d ->
  exists d',
    RenderUpToNow lut_u8to16 now woke d = Some d' /\
    fifo_inv d' /\ (length (fifo d') <= length (fifo d))%nat /\
    (length (fifo d) = 1%nat -> fifo d' = fifo d) /\
    (now <= last_rendered_ms d')%Q.
Proof.
  intros Hinv. unfold RenderUpToNow. destruct woke.
  - eexists. split; [reflexivity|]. cbn [fifo set_last_rendered_ms last_rendered_ms].
    split; [exact Hinv|]. split; [lia|]. split; [auto|apply Qle_refl].
  - apply render_loop_enough; [exact Hinv|lia].
Qed.


Lemma WriteData_spec now woke data d :
  fifo_inv d ->
  exists d1 d',
    RenderUpToNow lut_u8to16 now woke d = Some d1 /\
    WriteData lut_u8to16 now woke data d = Some d' /\
    fifo d' = (if IsFull d1 then fifo d1 else fifo d1 ++ [data]) /\
    fifo d' = take max_fifo_size (fifo d1 ++ [data]) /\
    (length (fifo d) = 1%nat -> fifo d1 = fifo d) /\
    (now <= last_rendered_ms d')%Q /\
    fifo_inv d'.
Proof.
  intros Hinv. unfold WriteData.
  destruct (RenderUpToNow_inv now woke d Hinv) as (d1 & -> & Hinv1 & _ & Hone & Hnow).
  cbn [mbind option_bind]. exists d1. eexists. split; [reflexivity|]. split; [reflexivity|].
  unfold fifo_inv, IsFull, max_fifo_size in *.
  destruct (Nat.leb_spec 16 (length (fifo d1))); cbn [negb fifo set_fifo last_rendered_ms].
  - split; [reflexivity|].
    split; [rewrite take_app_le, take_ge by lia; reflexivity|].
    split; [exact Hone|]. split; [exact Hnow|]. lia.
  - split; [reflexivity|].
    split; [rewrite take_ge by (rewrite length_app; simpl; lia); reflexivity|].
    split; [exact Hone|]. split; [exact Hnow|]. rewrite length_app. simpl. lia.
Qed.

Lemma drain_queue_spec n : forall d,
  drain_queue n d =
    ((n - length (render_queue d))%nat, take n (render_queue d),
     set_render_queue (drop n (render_queue d)) d).
Proof.
  induction n as [|n IH]; intros d; cbn [drain_queue].
  - destruct d as [f q t st]. destruct q; reflexivity.
  - destruct (render_queue d) as [|front popped] eqn:E.
    + destruct d as [f q t st]. simpl in E. subst q. reflexivity.
    + rewrite IH. cbn [render_queue set_render_queue Nat.sub length take drop].
      destruct d as [f q t st]. reflexivity.
Qed.

Lemma held_samples_cons x samples k :
  samples <> [] ->
  held_samples (x :: samples) (S k) = x :: held_samples samples k.
Proof.
  intros Hne. unfold held_samples. cbn [app take]. f_equal.
  assert (Hl : List.last (x :: samples) 0 = List.last samples 0)
    by (destruct samples; [contradiction|reflexivity]).
  rewrite Hl.
  destruct (Nat.le_gt_cases k (length samples)).
  - rewrite !take_app_le by assumption. reflexivity.
  - rewrite !take_app_ge by lia. f_equal.
    rewrite !take_replicate. f_equal. lia.
Qed.

Lemma held_samples_single x k : held_samples [x] k = replicate k x.
Proof.
  unfold held_samples. cbn [List.last app].
  change (x :: replicate k x) with (replicate (S k) x).
  rewrite take_replicate. f_equal. lia.
Qed.

Lemma render_remaining_spec k : forall d,
  fifo d <> [] ->
  exists d',
    render_remaining lut_u8to16 k d
      = Some (List.map (frame_of lut_u8to16) (held_samples (fifo d) k), d') /\
    fifo d' = drop (Nat.min k (length (fifo d) - 1)) (fifo d) /\
    render_queue d' = render_queue d /\
    last_rendered_ms d' = last_rendered_ms d /\
    status_data d' = status_data d.
Proof.
  induction k as [|k IH]; intros d Hne; cbn [render_remaining].
  - exists d. repeat split.
  - destruct (Render_spec d Hne) as (front & popped & E & ->). cbn [mbind option_bind].
    rewrite E. destruct popped as [|y popped]; cbn [length].
    + change (1 <? 1)%nat with false. cbv iota.
      destruct (IH d Hne) as (d' & -> & Hf & Hq & Hl & Hs).
      cbn [mbind option_bind]. exists d'. rewrite E in *.
      rewrite !held_samples_single in *. cbn [replicate List.map]. split; [reflexivity|].
      cbn [length Nat.sub Nat.min drop] in *. rewrite Nat.min_0_r in *. auto.
    + change (1 <? S (S (length popped)))%nat with true. cbv iota.
      destruct (IH (set_fifo (y :: popped) d)) as (d' & -> & Hf & Hq & Hl & Hs); [discriminate|].
      cbn [mbind option_bind]. exists d'.
      rewrite held_samples_cons by discriminate. cbn [List.map fifo set_fifo] in *.
      split; [reflexivity|]. split; [|auto].
      rewrite Hf. cbn [length Nat.sub]. rewrite Nat.sub_0_r.
      change (S (S (length popped)) - 1)%nat with (S (length popped)).
      rewrite <- Nat.succ_min_distr. reflexivity.
Qed.

Lemma AudioCallback_spec n now d :
  fifo d <> [] ->
  exists d',
    AudioCallback lut_u8to16 n now d
      = Some (take n (render_queue d)
                ++ List.map (frame_of lut_u8to16)
                     (held_samples (fifo d) (n - length (render_queue d))),
              d') /\
    render_queue d' = drop n (render_queue d) /\
    fifo d' = drop (Nat.min (n - length (render_queue d)) (length (fifo d) - 1)) (fifo d) /\
    last_rendered_ms d' = now.
Proof.
  intros Hne. unfold AudioCallback. rewrite drain_queue_spec.
  destruct (render_remaining_spec (n - length (render_queue d))
              (set_render_queue (drop n (render_queue d)) d) Hne)
    as (d' & E & Hf & Hq & _).
  cbn [fifo set_render_queue] in E. rewrite E. cbn [mbind option_bind].
  eexists. split; [reflexivity|].
  cbn [render_queue fifo last_rendered_ms set_last_rendered_ms set_render_queue] in *.
  auto.
Qed.

Lemma held_samples_length samples k : length (held_samples samples k) = k.
Proof.
  unfold held_samples. rewrite length_take, length_app, length_replicate. lia.
Qed.

Lemma run_op_inv op d :
  fifo_inv d -> exists d', run_op lut_u8to16 op d = Some d' /\ fifo_inv d'.
Proof.
  intros Hinv. destruct op as [now woke data|now woke| |n now]; cbn [run_op].
  - destruct (WriteData_spec now woke data d Hinv) as (d1 & d' & _ & -> & _ & _ & _ & _ & Hinv').
    eauto.
  - unfold WriteControl.
    destruct (RenderUpToNow_inv now woke d Hinv) as (d' & -> & Hinv' & _). eauto.
  - eexists. split; [reflexivity|]. exact Hinv.
  - assert (Hne : fifo d <> []).
    { intros E. unfold fifo_inv in Hinv. rewrite E in Hinv. simpl in Hinv. lia. }
    destruct (AudioCallback_spec n now d Hne) as (d' & -> & _ & Hf & _).
    cbn [fmap option_fmap option_map snd]. eexists. split; [reflexivity|].
    unfold fifo_inv, max_fifo_size in *. rewrite Hf, length_drop. lia.
Qed.

Lemma reachable_inv silent d : reachable lut_u8to16 silent d -> fifo_inv d.
Proof.
  induction 1 as [|op d d' _ IH Hop].
  - unfold fifo_inv, max_fifo_size. simpl. lia.
  - destruct (run_op_inv op d IH) as (d1 & E & Hinv). congruence.
Qed.

Lemma take_take_app {A} n (l r : list A) : take n (take n l ++ r) = take n (l ++ r).
Proof.
  destruct (Nat.le_gt_cases n (length l)).
  - rewrite !take_app_le by (rewrite ?length_take; lia). apply take_take_eq || (rewrite take_take; f_equal; lia).
  - rewrite (take_ge l) by lia. reflexivity.
Qed.

Lemma writes_at_one_time now bytes : forall d,
  fifo_inv d -> ((now <= last_rendered_ms d)%Q \/ length (fifo d) = 1%nat) ->
  exists d',
    run_ops lut_u8to16 (writes_at now bytes) d = Some d' /\
    fifo d' = take max_fifo_size (fifo d ++ List.map snd bytes).
Proof.
  induction bytes as [|[woke data] rest IH]; intros d Hinv Hcur; cbn [writes_at List.map run_ops].
  - exists d. split; [reflexivity|]. rewrite app_nil_r, take_ge; [reflexivity|apply Hinv].
  - cbn [run_op].
    destruct (WriteData_spec now woke data d Hinv) as (d1 & d2 & E1 & -> & _ & Hf & Hone & Hnow & Hinv2).
    cbn [mbind option_bind].
    assert (Hsame : fifo d1 = fifo d).
    { destruct Hcur as [Hle|H1]; [|auto].
      revert E1. unfold RenderUpToNow. destruct woke; [intros [= <-]; reflexivity|].
      destruct (frames_behind now d); cbn [render_loop];
        (destruct (Qltb (last_rendered_ms d) now) eqn:E;
         [apply Qltb_lt in E; exfalso; exact (Qlt_not_le _ _ E Hle)|intros [= <-]; reflexivity]). }
    destruct (IH d2 Hinv2 (or_introl Hnow)) as (d' & E' & Hf').
    exists d'. split; [exact E'|].
    rewrite Hf', Hf, Hsame, take_take_app, <- app_assoc. reflexivity.
Qed.

End EngineFacts.

(** C3. On a live engine, a call of the audio callback for [n] frames
    gives the channel exactly [n] frames: first the frames waiting in
    [render_queue], oldest first and at most [n] of them, then frames
    rendered from the FIFO, which is not empty before or after: its
    samples in order, the last one held. The frames taken leave the
    queue, and [last_rendered_ms] ends up at the current time. *)
Theorem audio_callback_delivers_requested_frames
    {float_t : Type} (lut_u8to16 : Z -> float_t) (silent_sample : Z)
    (d : Disney float_t) (requested_frames : nat) (now : Q) :
  reachable lut_u8to16 silent_sample d ->
  exists delivered d',
    AudioCallback lut_u8to16 requested_frames now d = Some (delivered, d') /\
    length delivered = requested_frames /\
    fifo d <> [] /\
    delivered =
      take requested_frames (render_queue d)
      ++ List.map (frame_of lut_u8to16)
           (held_samples (fifo d) (requested_frames - length (render_queue d))) /\
    render_queue d' = drop requested_frames (render_queue d) /\
    fifo d' <> [] /\
    last_rendered_ms d' = now.
Proof.
  intros Hr. pose proof (reachable_inv lut_u8to16 silent_sample d Hr) as Hinv.
  assert (Hne : fifo d <> []).
  { intros E. unfold fifo_inv in Hinv. rewrite E in Hinv. simpl in Hinv. lia. }
  destruct (AudioCallback_spec lut_u8to16 requested_frames now d Hne) as (d' & E & Hq & Hf & Hl).
  eexists _, d'. split; [exact E|].
  split; [rewrite length_app, length_take, length_map, held_samples_length; lia|].
  split; [exact Hne|]. split; [reflexivity|]. split; [exact Hq|]. split; [|exact Hl].
  intros E'. apply (f_equal length) in E'. rewrite Hf, length_drop in E'.
  unfold fifo_inv in Hinv. simpl in E'. lia.
Qed.

Lemma audio_callback_delivers_requested_frames_witness :
  exists delivered d',
    AudioCallback example_lut 3 (5 # 1) example_engine = Some (delivered, d') /\
    length delivered = 3%nat /\
    last_rendered_ms d' = (5 # 1).
Proof.
  destruct (audio_callback_delivers_requested_frames example_lut 128 example_engine 3 (5 # 1))
    as (delivered & d' & E & Hlen & _ & _ & _ & _ & Hl).
  - apply reach_ctor.
  - exists delivered, d'. split; [exact E|]. split; assumption.
Defined.

(** C4, amended. Every state of a live engine has between 1 and 16
    samples in its FIFO, and every operation runs to its end and keeps it
    so. [Render] pops the head only when more than one sample is queued,
    and [WriteData] appends its byte only when the FIFO is not full after
    catching up. Seventeen writes at one and the same time to a new
    engine leave the silent sample and the first fifteen bytes: 16
    samples, the last two bytes dropped. *)
Theorem fifo_size_stays_between_1_and_16
    {float_t : Type} (lut_u8to16 : Z -> float_t) (silent_sample : Z) (d : Disney float_t) :
  reachable lut_u8to16 silent_sample d ->
  (1 <= length (fifo d) <= 16)%nat /\
  (forall op, exists d',
     run_op lut_u8to16 op d = Some d' /\ (1 <= length (fifo d') <= 16)%nat) /\
  (exists frame d',
     Render lut_u8to16 d = Some (frame, d') /\
     fifo d' = if (1 <? length (fifo d))%nat then tail (fifo d) else fifo d) /\
  (forall now woke data, exists d1 d',
     RenderUpToNow lut_u8to16 now woke d = Some d1 /\
     WriteData lut_u8to16 now woke data d = Some d' /\
     fifo d' = if IsFull d1 then fifo d1 else fifo d1 ++ [data]) /\
  (forall now bytes, length bytes = 17%nat ->
     exists d17,
       run_ops lut_u8to16 (writes_at now bytes) (Disney_ctor silent_sample) = Some d17 /\
       length (fifo d17) = 16%nat /\
       fifo d17 = silent_sample :: take 15 (List.map snd bytes)).
Proof.
  intros Hr. pose proof (reachable_inv lut_u8to16 silent_sample d Hr) as Hinv.
  split; [exact Hinv|]. split; [intros op; apply run_op_inv; exact Hinv|].
  split.
  { destruct (Render_spec lut_u8to16 d) as (front & popped & E & ->).
    - intros E. unfold fifo_inv in Hinv. rewrite E in Hinv. simpl in Hinv. lia.
    - eexists _, _. split; [reflexivity|]. rewrite E.
      destruct (1 <? length (front :: popped))%nat; [reflexivity|exact E]. }
  split.
  { intros now woke data.
    destruct (WriteData_spec lut_u8to16 now woke data d Hinv) as (d1 & d' & E1 & E & Hf & _).
    exists d1, d'. auto. }
  intros now bytes Hlen.
  destruct (writes_at_one_time lut_u8to16 now bytes (Disney_ctor silent_sample)) as (d17 & E & Hf).
  - unfold fifo_inv, max_fifo_size. simpl. lia.
  - right. reflexivity.
  - exists d17. split; [exact E|].
    assert (Hf' : fifo d17 = silent_sample :: take 15 (List.map snd bytes)) by (rewrite Hf; reflexivity).
    split; [|exact Hf'].
    rewrite Hf'. cbn [length]. rewrite length_take, length_map. lia.
Qed.

Lemma fifo_size_stays_between_1_and_16_witness :
  (1 <= length (fifo example_engine) <= 16)%nat /\
  exists d17,
    run_ops example_lut
      (writes_at 0 [(true, 1); (false, 2); (false, 3); (false, 4); (false, 5); (false, 6);
                    (false, 7); (false, 8); (false, 9); (false, 10); (false, 11); (false, 12);
                    (false, 13); (false, 14); (false, 15); (false, 16); (false, 17)])
      example_engine = Some d17 /\
    length (fifo d17) = 16%nat.
Proof.
  destruct (fifo_size_stays_between_1_and_16 example_lut 128 example_engine)
    as (Hinv & _ & _ & _ & H17).
  - apply reach_ctor.
  - split; [exact Hinv|].
    destruct (H17 0%Q [(true, 1); (false, 2); (false, 3); (false, 4); (false, 5); (false, 6);
                    (false, 7); (false, 8); (false, 9); (false, 10); (false, 11); (false, 12);
                    (false, 13); (false, 14); (false, 15); (false, 16); (false, 17)])
      as (d17 & E & Hlen & _); [reflexivity|].
    exists d17. split; assumption.
Defined.

(** C4 as stated fails: seventeen writes without a pull do not fill the
    FIFO when time passes between them, since every write first renders
    up to its own time. Written at the rate of the DAC, the bytes 1 to 17
    leave 2 samples. *)
Lemma seventeen_writes_at_dac_rate_leave_two :
  match run_ops example_lut writes_at_dac_rate example_engine with
  | Some d17 => fifo d17 = [16; 17] /\ length (fifo d17) <> 16%nat
  | None => False
  end.
Proof. vm_compute. split; [reflexivity|discriminate]. Qed.

(** * Further properties of the Disney Sound Source *)

Section CatchingUp.
Context {float_t : Type} (lut_u8to16 : Z -> float_t).
Implicit Types (d : Disney float_t) (now : Q).

Lemma ceiling_minus_one (x : Q) : Qceiling (x - 1) = Qceiling x - 1.
Proof.
  apply Z.le_antisymm.
  - pose proof (Qle_ceiling x) as H. remember (Qceiling x) as c eqn:Ec. clear Ec.
    rewrite <- (Qceiling_Z (c - 1)). apply Qceiling_resp_le.
    unfold Z.sub. rewrite inject_Z_plus. change (inject_Z (- (1))) with (- (1))%Q. lra.
  - pose proof (Qle_ceiling (x - 1)) as H. remember (Qceiling (x - 1)) as b eqn:Eb. clear Eb.
    assert (Hle : Qceiling x <= b + 1).
    { rewrite <- (Qceiling_Z (b + 1)). apply Qceiling_resp_le.
      rewrite inject_Z_plus. change (inject_Z 1) with 1%Q. lra. }
    lia.
Qed.

(** After one round the cursor is exactly one period less behind. *)
Lemma frames_behind_round now d :
  (last_rendered_ms d < now)%Q ->
  exists k : nat,
    frames_behind now d = S k /\
    forall d', last_rendered_ms d' = (last_rendered_ms d + ms_per_frame)%Q ->
      frames_behind now d' = k.
Proof.
  intros Hlt. destruct (behind_after_round now _ Hlt) as [H1 _].
  unfold frames_behind.
  exists (Z.to_nat (Qceiling ((now - last_rendered_ms d) / ms_per_frame) - 1)).
  split; [lia|]. intros d' ->.
  assert (E : ((now - (last_rendered_ms d + ms_per_frame)) / ms_per_frame
               == (now - last_rendered_ms d) / ms_per_frame - 1)%Q).
  { rewrite !periods_in. assert (Hms : (ms_per_frame == 1 # 7)%Q) by reflexivity.
    rewrite Hms. ring. }
  rewrite (Qceiling_comp _ _ E), ceiling_minus_one. reflexivity.
Qed.

Lemma frames_behind_none now d :
  (now <= last_rendered_ms d)%Q -> frames_behind now d = 0%nat.
Proof.
  intros Hle. unfold frames_behind.
  assert (H : Qceiling ((now - last_rendered_ms d) / ms_per_frame) <= 0).
  { rewrite <- (Qceiling_Z 0). apply Qceiling_resp_le. rewrite periods_in.
    change (inject_Z 0) with 0%Q. lra. }
  lia.
Qed.

(** The loop of [RenderUpToNow] with the fuel [frames_behind] gives. *)
Lemma render_loop_exact k now : forall d,
  fifo d <> [] -> frames_behind now d = k ->
  exists d',
    render_loop lut_u8to16 k now d = Some d' /\
    render_queue d' =
      render_queue d ++ List.map (frame_of lut_u8to16) (held_samples (fifo d) k) /\
    fifo d' = drop (Nat.min k (length (fifo d) - 1)) (fifo d) /\
    (last_rendered_ms d' == last_rendered_ms d + inject_Z (Z.of_nat k) * ms_per_frame)%Q /\
    status_data d' = status_data d.
Proof.
  induction k as [|k IH]; intros d Hne Hk; cbn [render_loop].
  - destruct (Qltb (last_rendered_ms d) now) eqn:E.
    + apply Qltb_lt in E. destruct (frames_behind_round now d E) as (k & Hk' & _). congruence.
    + exists d. split; [reflexivity|].
      unfold held_samples. cbn [take List.map Nat.min drop]. rewrite app_nil_r.
      split; [reflexivity|]. split; [reflexivity|]. split; [|reflexivity].
      cbn. ring.
  - destruct (Qltb (last_rendered_ms d) now) eqn:E.
    + apply Qltb_lt in E. destruct (frames_behind_round now d E) as (k' & Hk' & Hnext).
      assert (k' = k) by congruence. subst k'.
      set (d1 := set_last_rendered_ms (last_rendered_ms d + ms_per_frame)%Q d).
      destruct (Render_spec lut_u8to16 d1 Hne) as (front & popped & Ef & ->).
      cbn [mbind option_bind]. change (fifo d1) with (fifo d) in *. rewrite Ef.
      destruct popped as [|y popped]; cbn [length].
      * change (1 <? 1)%nat with false. cbv iota.
        destruct (IH (set_render_queue (render_queue d1 ++ [frame_of lut_u8to16 front]) d1))
          as (d' & -> & Hq & Hf & Hl & Hs).
        { cbn [fifo set_render_queue d1 set_last_rendered_ms]. rewrite Ef. discriminate. }
        { apply Hnext. reflexivity. }
        exists d'. split; [reflexivity|].
        cbn [fifo render_queue last_rendered_ms status_data set_render_queue d1
             set_last_rendered_ms] in Hq, Hf, Hl, Hs.
        rewrite Ef in Hq, Hf. rewrite !held_samples_single in *.
        split; [rewrite Hq, <- app_assoc; reflexivity|].
        split; [rewrite Hf; cbn [length Nat.sub Nat.min drop]; rewrite !Nat.min_0_r; reflexivity|].
        split; [|exact Hs]. rewrite Hl, Nat2Z.inj_succ. unfold Z.succ. rewrite inject_Z_plus.
        change (inject_Z 1) with 1%Q. ring.
      * change (1 <? S (S (length popped)))%nat with true. cbv iota.
        destruct (IH (set_render_queue (render_queue (set_fifo (y :: popped) d1)
                                          ++ [frame_of lut_u8to16 front])
                        (set_fifo (y :: popped) d1)))
          as (d' & -> & Hq & Hf & Hl & Hs).
        { cbn. discriminate. }
        { apply Hnext. reflexivity. }
        exists d'. split; [reflexivity|].
        cbn [fifo render_queue last_rendered_ms status_data set_render_queue d1
             set_last_rendered_ms set_fifo] in Hq, Hf, Hl, Hs.
        rewrite held_samples_cons by discriminate.
        split; [rewrite Hq, <- app_assoc; reflexivity|].
        split.
        { rewrite Hf. cbn [length Nat.sub]. rewrite Nat.sub_0_r.
          change (S (S (length popped)) - 1)%nat with (S (length popped)).
          rewrite <- Nat.succ_min_distr. reflexivity. }
        split; [|exact Hs]. rewrite Hl, Nat2Z.inj_succ. unfold Z.succ. rewrite inject_Z_plus.
        change (inject_Z 1) with 1%Q. ring.
    + apply Qltb_ge in E. rewrite (frames_behind_none now d E) in Hk. discriminate.
Qed.

End CatchingUp.

Section StatusPort.
Context {float_t : Type} (lut_u8to16 : Z -> float_t).
Implicit Types (d : Disney float_t) (now : Q).

Lemma fifo_inv_nonempty d : fifo_inv d -> fifo d <> [].
Proof. intros Hinv E. unfold fifo_inv in Hinv. rewrite E in Hinv. simpl in Hinv. lia. Qed.

Lemma RenderUpToNow_status now woke d d' :
  fifo d <> [] -> RenderUpToNow lut_u8to16 now woke d = Some d' -> status_data d' = status_data d.
Proof.
  intros Hne. unfold RenderUpToNow. destruct woke; [intros [= <-]; reflexivity|].
  destruct (render_loop_exact lut_u8to16 _ now d Hne eq_refl) as (d1 & -> & _ & _ & _ & Hs).
  intros [= <-]. exact Hs.
Qed.

Lemma AudioCallback_status n now d frames d' :
  fifo d <> [] -> AudioCallback lut_u8to16 n now d = Some (frames, d') ->
  status_data d' = status_data d.
Proof.
  intros Hne. unfold AudioCallback. rewrite drain_queue_spec.
  destruct (render_remaining_spec lut_u8to16 (n - length (render_queue d))
              (set_render_queue (drop n (render_queue d)) d) Hne)
    as (d1 & -> & _ & _ & _ & Hs).
  cbn [mbind option_bind]. intros [= _ <-]. exact Hs.
Qed.

Lemma reachable_status silent d :
  reachable lut_u8to16 silent d -> status_data d = 0x0F \/ status_data d = 0x4F.
Proof.
  induction 1 as [|op d d' Hr IH Hop]; [left; reflexivity|].
  pose proof (fifo_inv_nonempty d (reachable_inv lut_u8to16 silent d Hr)) as Hne.
  destruct op as [now woke data|now woke| |n now]; cbn [run_op] in Hop.
  - unfold WriteData in Hop.
    destruct (RenderUpToNow lut_u8to16 now woke d) as [d1|] eqn:E; cbn [mbind option_bind] in Hop;
      [|discriminate].
    apply RenderUpToNow_status in E; [|exact Hne]. injection Hop as <-.
    destruct (negb (IsFull d1)); cbn [status_data set_fifo]; rewrite E; exact IH.
  - unfold WriteControl in Hop. apply RenderUpToNow_status in Hop; [|exact Hne].
    rewrite Hop. exact IH.
  - injection Hop as <-. unfold ReadStatus. cbn [snd status_data].
    destruct (IsFull d); destruct IH as [-> | ->]; vm_compute; auto.
  - destruct (AudioCallback lut_u8to16 n now d) as [[frames d1]|] eqn:E;
      cbn [fmap option_fmap option_map snd] in Hop; [|discriminate].
    injection Hop as <-. apply AudioCallback_status in E; [|exact Hne]. rewrite E. exact IH.
Qed.

(** Writes at a time the cursor has reached render nothing. *)
Lemma writes_when_caught_up now bytes : forall d,
  fifo_inv d -> (now <= last_rendered_ms d)%Q ->
  exists d',
    run_ops lut_u8to16 (writes_at now bytes) d = Some d' /\
    fifo d' = take max_fifo_size (fifo d ++ List.map snd bytes) /\
    render_queue d' = render_queue d /\ fifo_inv d'.
Proof.
  induction bytes as [|[woke data] rest IH]; intros d Hinv Hcur; cbn [writes_at List.map run_ops].
  - exists d. split; [reflexivity|]. rewrite app_nil_r, take_ge by apply Hinv. auto.
  - cbn [run_op].
    destruct (WriteData_spec lut_u8to16 now woke data d Hinv)
      as (d1 & d2 & E1 & E2 & _ & Hf & _ & Hnow & Hinv2).
    rewrite E2. cbn [mbind option_bind].
    assert (Hd1 : fifo d1 = fifo d /\ render_queue d1 = render_queue d).
    { revert E1. unfold RenderUpToNow. destruct woke; [intros [= <-]; auto|].
      rewrite (frames_behind_none now d Hcur). cbn [render_loop].
      destruct (Qltb (last_rendered_ms d) now) eqn:E;
        [apply Qltb_lt in E; exfalso; exact (Qlt_not_le _ _ E Hcur)|intros [= <-]; auto]. }
    destruct Hd1 as [Hf1 Hq1].
    assert (Hq2 : render_queue d2 = render_queue d).
    { revert E2. unfold WriteData. rewrite E1. cbn [mbind option_bind].
      intros [= <-]. destruct (negb (IsFull d1)); cbn [render_queue set_fifo]; exact Hq1. }
    destruct (IH d2 Hinv2 Hnow) as (d' & E' & Hf' & Hq' & Hinv').
    exists d'. split; [exact E'|]. split; [|split; [congruence|exact Hinv']].
    rewrite Hf', Hf, Hf1, take_take_app, <- app_assoc. reflexivity.
Qed.

End StatusPort.

Section Runs.
Context {float_t : Type} (lut_u8to16 : Z -> float_t).

Lemma run_ops_reachable silent ops : forall d d',
  reachable lut_u8to16 silent d -> run_ops lut_u8to16 ops d = Some d' ->
  reachable lut_u8to16 silent d'.
Proof.
  induction ops as [|op rest IH]; intros d d' Hr H; cbn [run_ops] in H.
  - injection H as <-. exact Hr.
  - destruct (run_op lut_u8to16 op d) as [d1|] eqn:E; cbn [mbind option_bind] in H; [|discriminate].
    eapply IH; [|exact H]. eapply reach_op; eassumption.
Qed.
End Runs.

Lemma written_engine_reachable : reachable example_lut 128 written_engine.
Proof.
  apply (run_ops_reachable example_lut 128
           (writes_at 0 [(true, 200); (false, 100); (false, 150)]) example_engine).
  - apply reach_ctor.
  - vm_compute. reflexivity.
Qed.



(** X18. On a live engine, reading the status port gives 0x4F when the
    FIFO holds 16 samples and 0x0F otherwise (bit 6 says that the FIFO is
    full, the four low bits are always set), and changes neither the FIFO
    nor the queue nor the cursor. *)
Theorem the_status_port_reads_full_at_sixteen_samples
    {float_t : Type} (lut_u8to16 : Z -> float_t) (silent_sample : Z) (d : Disney float_t) :
  reachable lut_u8to16 silent_sample d ->
  let '(data, d') := ReadStatus d in
  data = (if (length (fifo d) =? 16)%nat then 0x4F else 0x0F) /\
  fifo d' = fifo d /\ render_queue d' = render_queue d /\
  last_rendered_ms d' = last_rendered_ms d.
Proof.
  intros Hr. pose proof (reachable_inv lut_u8to16 silent_sample d Hr) as Hinv.
  unfold ReadStatus, IsFull. unfold fifo_inv, max_fifo_size in *.
  split; [|repeat split].
  destruct (Nat.leb_spec 16 (length (fifo d))); destruct (Nat.eqb_spec (length (fifo d)) 16);
    try lia; destruct (reachable_status lut_u8to16 silent_sample d Hr) as [-> | ->]; reflexivity.
Qed.

Lemma the_status_port_reads_full_at_sixteen_samples_witness :
  fst (ReadStatus written_engine) = 0x0F /\
  fifo (snd (ReadStatus written_engine)) = [128; 200; 100; 150].
Proof.
  pose proof (the_status_port_reads_full_at_sixteen_samples example_lut 128 written_engine
                written_engine_reachable) as H.
  destruct (ReadStatus written_engine) as [data d'].
  destruct H as (H1 & H2 & _). cbn [fst snd].
  split; [rewrite H1; reflexivity|rewrite H2; reflexivity].
Defined.

(** X19. Samples are played in the order written. On a live engine with
    an empty queue, bytes written at a time the cursor has reached are
    appended to the FIFO in order, up to 16 samples in all, and a pull of
    [n] frames after them delivers the frames of these samples in that
    order, the last one held when [n] is more than their number. *)
Theorem samples_are_played_in_the_order_written
    {float_t : Type} (lut_u8to16 : Z -> float_t) (silent_sample : Z)
    (d : Disney float_t) (now now' : Q) (bytes : list (bool * Z)) (n : nat) :
  reachable lut_u8to16 silent_sample d ->
  render_queue d = [] -> (now <= last_rendered_ms d)%Q ->
  exists d1 d2,
    run_ops lut_u8to16 (writes_at now bytes) d = Some d1 /\
    fifo d1 = take max_fifo_size (fifo d ++ List.map snd bytes) /\
    AudioCallback lut_u8to16 n now' d1 =
      Some (List.map (frame_of lut_u8to16)
              (held_samples (take max_fifo_size (fifo d ++ List.map snd bytes)) n), d2).
Proof.
  intros Hr Hq Hcur. pose proof (reachable_inv lut_u8to16 silent_sample d Hr) as Hinv.
  destruct (writes_when_caught_up lut_u8to16 now bytes d Hinv Hcur) as (d1 & E1 & Hf1 & Hq1 & Hinv1).
  destruct (AudioCallback_spec lut_u8to16 n now' d1 (fifo_inv_nonempty d1 Hinv1)) as (d2 & E2 & _).
  exists d1, d2. split; [exact E1|]. split; [exact Hf1|].
  rewrite E2, Hq1, Hq, Hf1. cbn [take length app]. rewrite take_nil, Nat.sub_0_r. reflexivity.
Qed.

Lemma samples_are_played_in_the_order_written_witness :
  exists d1 d2,
    run_ops example_lut (writes_at 0 [(true, 200); (false, 100); (false, 150)]) example_engine
      = Some d1 /\
    fifo d1 = [128; 200; 100; 150] /\
    AudioCallback example_lut 6 (1 # 2) d1 =
      Some (List.map (frame_of example_lut) [128; 200; 100; 150; 150; 150], d2).
Proof.
  destruct (samples_are_played_in_the_order_written example_lut 128 example_engine 0 (1 # 2)
              [(true, 200); (false, 100); (false, 150)] 6)
    as (d1 & d2 & E1 & Hf & E2).
  - apply reach_ctor.
  - reflexivity.
  - vm_compute. discriminate.
  - exists d1, d2. split; [exact E1|]. split; [exact Hf|exact E2].
Defined.

Section Pulls.
Context {float_t : Type} (lut_u8to16 : Z -> float_t).
Implicit Types (d : Disney float_t) (now : Q).

Lemma held_samples_add a : forall samples b,
  samples <> [] ->
  held_samples samples (a + b) =
    held_samples samples a
    ++ held_samples (drop (Nat.min a (length samples - 1)) samples) b.
Proof.
  induction a as [|a IH]; intros samples b Hne.
  - cbn [Nat.add Nat.min drop]. unfold held_samples at 2. cbn [take app]. reflexivity.
  - destruct samples as [|x [|y r]]; [contradiction| |].
    + cbn [length Nat.sub Nat.min]. rewrite ?Nat.min_0_r. cbn [drop].
      rewrite !held_samples_single, replicate_add. reflexivity.
    + cbn [Nat.add]. rewrite !held_samples_cons by discriminate.
      rewrite (IH (y :: r) b) by discriminate.
      cbn [length Nat.sub]. rewrite !Nat.sub_0_r.
      change (S (S (length r)) - 1)%nat with (S (length r)).
      rewrite <- Nat.succ_min_distr. reflexivity.
Qed.

Lemma drop_to_last (l : list Z) : l <> [] -> drop (length l - 1) l = [List.last l 0].
Proof.
  induction l as [|x l IH]; intros Hne; [contradiction|].
  destruct l as [|y r]; [reflexivity|].
  specialize (IH ltac:(discriminate)).
  replace (length (x :: y :: r) - 1)%nat with (S (length (y :: r) - 1)) by (simpl; lia).
  change (List.last (x :: y :: r) 0) with (List.last (y :: r) 0).
  cbn [drop]. exact IH.
Qed.

Lemma AudioCallback_full n now d :
  fifo d <> [] ->
  exists d',
    AudioCallback lut_u8to16 n now d
      = Some (take n (render_queue d)
                ++ List.map (frame_of lut_u8to16)
                     (held_samples (fifo d) (n - length (render_queue d))),
              d') /\
    d' = mkDisney (drop (Nat.min (n - length (render_queue d)) (length (fifo d) - 1)) (fifo d))
                  (drop n (render_queue d)) now (status_data d).
Proof.
  intros Hne. destruct (AudioCallback_spec lut_u8to16 n now d Hne) as (d' & E & Hq & Hf & Hl).
  exists d'. split; [exact E|].
  pose proof (AudioCallback_status lut_u8to16 n now d _ d' Hne E) as Hs.
  destruct d' as [f' q' t' s']. cbn in Hq, Hf, Hl, Hs. subst. reflexivity.
Qed.

End Pulls.

(** X20. Pulling in two calls delivers what one call delivers: on a live
    engine, a pull of [n] frames and then one of [k] frames give, one
    after the other, the frames of a single pull of [n + k], and leave
    the state that pull leaves. *)
Theorem pulling_in_two_calls_delivers_the_same_frames
    {float_t : Type} (lut_u8to16 : Z -> float_t) (silent_sample : Z)
    (d : Disney float_t) (n k : nat) (now1 now : Q) :
  reachable lut_u8to16 silent_sample d ->
  exists f1 d1 f2 d2,
    AudioCallback lut_u8to16 n now1 d = Some (f1, d1) /\
    AudioCallback lut_u8to16 k now d1 = Some (f2, d2) /\
    AudioCallback lut_u8to16 (n + k) now d = Some (f1 ++ f2, d2).
Proof.
  intros Hr.
  pose proof (reachable_inv lut_u8to16 silent_sample d Hr) as Hinv.
  pose proof (fifo_inv_nonempty d Hinv) as Hne.
  destruct (AudioCallback_full lut_u8to16 n now1 d Hne) as (d1 & E1 & ->).
  set (q := render_queue d) in *. set (f := fifo d) in *.
  set (d1 := mkDisney _ _ _ _) in *.
  assert (Hne1 : fifo d1 <> []).
  { cbn [d1 fifo]. intros E. apply (f_equal length) in E. rewrite length_drop in E.
    destruct f; [contradiction|]. simpl in E. lia. }
  destruct (AudioCallback_full lut_u8to16 k now d1 Hne1) as (d2 & E2 & ->).
  destruct (AudioCallback_full lut_u8to16 (n + k) now d Hne) as (d3 & E3 & ->).
  fold q f in E3 |- *.
  eexists _, d1, _, _. split; [exact E1|]. split; [exact E2|]. rewrite E3.
  cbn [d1 fifo render_queue status_data].
  assert (Hf : length f <> 0%nat) by (destruct f; [contradiction|discriminate]).
  f_equal. f_equal.
  - rewrite <- app_assoc. 
    destruct (Nat.le_gt_cases n (length q)).
    + replace (n - length q)%nat with 0%nat by lia.
      unfold held_samples at 2. cbn [take List.map Nat.min drop app].
      rewrite <- (take_take_drop q n k), <- app_assoc.
      cbn [take List.map app drop]. rewrite length_drop.
      replace (k - (length q - n))%nat with (n + k - length q)%nat by lia. reflexivity.
    + rewrite (drop_ge q n) by lia. rewrite take_nil. cbn [app length].
      rewrite (take_ge q n), (take_ge q (n + k)) by lia. f_equal.
      rewrite <- map_app. f_equal. rewrite Nat.sub_0_r.
      replace (n + k - length q)%nat with ((n - length q) + k)%nat by lia.
      apply held_samples_add. exact Hne.
  - rewrite !length_drop, !drop_drop.
    replace ((n - length q) `min` (length f - 1) +
             (k - (length q - n)) `min` (length f - (n - length q) `min` (length f - 1) - 1))%nat
      with ((n + k - length q) `min` (length f - 1))%nat by lia.
    reflexivity.
Qed.

Lemma pulling_in_two_calls_delivers_the_same_frames_witness :
  exists f1 d1 f2 d2,
    AudioCallback example_lut 2 (1 # 1) written_engine = Some (f1, d1) /\
    AudioCallback example_lut 3 (2 # 1) d1 = Some (f2, d2) /\
    AudioCallback example_lut 5 (2 # 1) written_engine = Some (f1 ++ f2, d2).
Proof.
  apply (pulling_in_two_calls_delivers_the_same_frames example_lut 128 written_engine 2 3).
  exact written_engine_reachable.
Defined.

(** X21. A drained FIFO repeats its last sample. On a live engine, after
    a pull of at least as many frames as the queue holds frames and the
    FIFO holds samples, less one, the queue is empty and the FIFO holds
    its last sample only; and every pull after that, with no write in
    between, delivers the frame of that sample over and over and changes
    nothing but the cursor. *)
Theorem a_drained_fifo_repeats_its_last_sample
    {float_t : Type} (lut_u8to16 : Z -> float_t) (silent_sample : Z)
    (d : Disney float_t) (n : nat) (now : Q) :
  reachable lut_u8to16 silent_sample d ->
  (length (render_queue d) + length (fifo d) - 1 <= n)%nat ->
  exists frames d',
    AudioCallback lut_u8to16 n now d = Some (frames, d') /\
    fifo d' = [List.last (fifo d) 0] /\ render_queue d' = [] /\
    forall k now',
      AudioCallback lut_u8to16 k now' d' =
        Some (replicate k (frame_of lut_u8to16 (List.last (fifo d) 0)),
              set_last_rendered_ms now' d').
Proof.
  intros Hr Hn.
  pose proof (reachable_inv lut_u8to16 silent_sample d Hr) as Hinv.
  pose proof (fifo_inv_nonempty d Hinv) as Hne.
  destruct (AudioCallback_full lut_u8to16 n now d Hne) as (d' & E & ->).
  eexists _, _. split; [exact E|].
  assert (Hlast : drop (Nat.min (n - length (render_queue d)) (length (fifo d) - 1)) (fifo d)
                  = [List.last (fifo d) 0]).
  { replace (Nat.min (n - length (render_queue d)) (length (fifo d) - 1))
      with (length (fifo d) - 1)%nat by lia.
    apply drop_to_last. exact Hne. }
  assert (Hlen : length (fifo d) <> 0%nat) by (destruct (fifo d); [contradiction|discriminate]).
  cbn [fifo render_queue]. rewrite Hlast, drop_ge by lia.
  split; [reflexivity|]. split; [reflexivity|].
  intros k now'.
  match goal with |- AudioCallback _ _ _ ?d0 = _ =>
    destruct (AudioCallback_full lut_u8to16 k now' d0) as (d2 & E2 & ->); [discriminate|]
  end.
  rewrite E2. cbn [fifo render_queue status_data length Nat.sub Nat.min take drop app].
  rewrite take_nil, Nat.sub_0_r, Nat.min_0_r, held_samples_single.
  cbn [drop app]. rewrite drop_nil.
  assert (Hm : List.map (frame_of lut_u8to16) (replicate k (List.last (fifo d) 0))
               = replicate k (frame_of lut_u8to16 (List.last (fifo d) 0))).
  { clear. induction k as [|k IH]; [reflexivity|]. cbn [replicate List.map]. rewrite IH. reflexivity. }
  rewrite Hm. reflexivity.
Qed.

Lemma a_drained_fifo_repeats_its_last_sample_witness :
  exists frames d',
    AudioCallback example_lut 5 (1 # 1) written_engine = Some (frames, d') /\
    fifo d' = [150] /\
    AudioCallback example_lut 3 (2 # 1) d' =
      Some (replicate 3 (frame_of example_lut 150), set_last_rendered_ms (2 # 1) d').
Proof.
  destruct (a_drained_fifo_repeats_its_last_sample example_lut 128 written_engine 5 (1 # 1))
    as (frames & d' & E & Hf & _ & H).
  - exact written_engine_reachable.
  - vm_compute. lia.
  - exists frames, d'. split; [exact E|]. split; [exact Hf|]. apply H.
Defined.
